(** * SENet for 1-D signals (models/senet.py): a shallow embedding

    The file models [models/senet.py] at two levels.

    - [Shape]: the module structure built by the constructors (hyper-parameters,
      registered sub-modules and parameters) and the forward passes as functions
      on tensor shapes.  Constructors run in an error monad, forward passes in
      an error monad that also logs every module that is called.
    - [Value]: the arithmetic of the hand-written blocks ([Attention],
      [HighwayMLP], [SEModule], [Bottleneck], the [SENet] pipeline) over the
      real numbers, tensors being nested lists.

    The layers of the tensor framework ([nn.Conv1d], [nn.Linear], broadcasting,
    [view], ...) are not code of this repository; they are modelled after the
    framework's documented behaviour. *)

From Stdlib Require Import ZArith String List Bool Lia.
From Stdlib Require Import Reals Lra.
Import ListNotations.

(** ** Errors and the two monads *)

(** Where a failure comes from.  [AssertionError] is the only exception the
    file raises itself (the [assert] of [SEModule.__init__], whose message
    carries [reduction]); the other three come from the Python runtime and
    from the tensor framework. *)
Inductive Error : Type :=
| AssertionError (reduction : Z)
| ZeroDivisionError
| IndexError
| FrameworkError (msg : string).

Definition repo_defined (e : Error) : bool :=
  match e with
  | AssertionError _ => true
  | _ => false
  end.

Inductive result (A : Type) : Type :=
| Ok (a : A)
| Err (e : Error).

Arguments Ok {A} a.
Arguments Err {A} e.

Definition bind {A B : Type} (r : result A) (f : A -> result B) : result B :=
  match r with
  | Ok a => f a
  | Err e => Err e
  end.

Notation "x <- c ;; k" := (bind c (fun x => k))
  (at level 61, c at next level, right associativity).

(** Class names of the modules that occur in the file (and of the two 2-D
    framework classes [_weight_init] tests for). *)
Inductive Kind : Type :=
| KConv1d | KBatchNorm1d | KReLU | KSigmoid | KMaxPool1d
| KAdaptiveAvgPool1d | KAdaptiveMaxPool1d | KLinear | KLSTM | KGRU
| KConv2d | KBatchNorm2d
| KSequential | KModuleList
| KAttention | KHighwayMLP | KCBAM_Module | KSCSEModule | KSEModule
| KSEBottleneck | KSEResNetBottleneck | KSEResNeXtBottleneck | KSEResNetBlock
| KSelectAdaptivePool1d | KSENet.


(** A forward pass: its result, and the modules called on the way (a module
    is logged when it is entered, so the log of a failed run stops at the
    module that raised). *)
Definition Run (A : Type) : Type := (result A * list Kind)%type.

Definition ret {A : Type} (a : A) : Run A := (Ok a, []).

Definition lift {A : Type} (r : result A) : Run A := (r, []).

Definition rbind {A B : Type} (m : Run A) (f : A -> Run B) : Run B :=
  match m with
  | (Ok a, t) => let (r, t') := f a in (r, t ++ t')
  | (Err e, t) => (Err e, t)
  end.

(** [nn.Module.__call__]: enter module [k], then run its [forward]. *)
Definition call {A : Type} (k : Kind) (body : Run A) : Run A :=
  let (r, t) := body in (r, k :: t).

Notation "x <~ c ;; k" := (rbind c (fun x => k))
  (at level 61, c at next level, right associativity).


(** ** The shape level *)

Module Shape.

Local Open Scope Z_scope.

Definition shape : Type := list Z.

Definition numel (s : shape) : Z := fold_right Z.mul 1 s.

(** *** Tensor operations of the framework, on shapes *)

(** Broadcasting of two shapes, aligned at the last dimension; the lists are
    given last dimension first. *)
Fixpoint broadcast_rev (a b : list Z) : result (list Z) :=
  match a, b with
  | [], _ => Ok b
  | _, [] => Ok a
  | x :: a', y :: b' =>
      rest <- broadcast_rev a' b' ;;
      if x =? y then Ok (x :: rest)
      else if x =? 1 then Ok (y :: rest)
      else if y =? 1 then Ok (x :: rest)
      else Err (FrameworkError "The size of tensor a must match the size of tensor b")
  end.

(** Shape of [a * b], [a + b], [a / b] for tensors [a], [b]. *)
Definition broadcast (a b : shape) : result shape :=
  r <- broadcast_rev (rev a) (rev b) ;; Ok (rev r).

(** [t.view(-1, d)] on a tensor of [n] elements. *)
Definition view_rows (n d : Z) : result shape :=
  if d <? 0 then Err (FrameworkError "invalid shape dimension")
  else if d =? 0 then Err (FrameworkError "cannot reshape: the unspecified dimension is ambiguous")
  else if n mod d =? 0 then Ok [n / d; d]
  else Err (FrameworkError "shape is invalid for input size").

(** [torch.mm(a, b)]. *)
Definition mm (a b : shape) : result shape :=
  match a, b with
  | [n; m], [m'; p] =>
      if m =? m' then Ok [n; p]
      else Err (FrameworkError "mat1 and mat2 shapes cannot be multiplied")
  | _, _ => Err (FrameworkError "mm expects 2D tensors")
  end.

(** [torch.sum(t, 1, keepdim=True)], [torch.mean(t, 1, keepdim=True)] and the
    values of [torch.max(t, 1, keepdim=True)]. *)
Definition reduce1_keepdim (s : shape) : result shape :=
  match s with
  | d0 :: _ :: rest => Ok (d0 :: 1 :: rest)
  | _ => Err (FrameworkError "Dimension out of range")
  end.

(** [torch.sum(t, 1)]. *)
Definition sum1 (s : shape) : result shape :=
  match s with
  | d0 :: _ :: rest => Ok (d0 :: rest)
  | _ => Err (FrameworkError "Dimension out of range")
  end.

(** [torch.unsqueeze(t, -1)]. *)
Definition unsqueeze_last (s : shape) : shape := s ++ [1].

(** [torch.cat((a, b), 1)]. *)
Definition cat1 (a b : shape) : result shape :=
  match a, b with
  | a0 :: a1 :: ar, b0 :: b1 :: br =>
      if (a0 =? b0) && (if list_eq_dec Z.eq_dec ar br then true else false)
      then Ok (a0 :: (a1 + b1) :: ar)
      else Err (FrameworkError "Sizes of tensors must match except in dimension 1")
  | _, _ => Err (FrameworkError "Dimension out of range")
  end.

(** *** Registered parameters and the module tree *)

(** How a parameter received its current value: the symbolic state of the
    parameter store.  [DefaultInit] is what the framework layer's own
    [reset_parameters] left; the others are the explicit initialisers the
    file calls.  [nn.init.kaiming_normal_] draws fresh random numbers at
    every call: its tag carries the number of the draw, so that two calls
    never leave the same value. *)
Inductive Init : Type :=
| DefaultInit
| Zeros                       (* torch.zeros(...) *)
| XavierUniform               (* nn.init.xavier_uniform_ *)
| Fill (v : Z)                (* tensor.data.fill_(v) *)
| KaimingNormalFanOutRelu (draw : nat)
                              (* nn.init.kaiming_normal_(.., mode='fan_out', nonlinearity='relu') *)
| Constant (v : Z).           (* nn.init.constant_(.., v) *)

Record Param : Type := mkParam { pshape : shape; pinit : Init }.

(** An [nn.Module] as the framework sees it: its class, its own parameters
    ([_parameters], by name) and its registered children ([_modules]), both
    in registration order. *)
#[local] Unset Elimination Schemes.
Inductive Mod : Type :=
| Node (cls : Kind) (params : list (string * Param)) (children : list Mod).

#[local] Set Elimination Schemes.

Definition cls_of (m : Mod) : Kind := let (k, _, _) := m in k.
Definition params_of (m : Mod) : list (string * Param) := let (_, ps, _) := m in ps.
Definition children_of (m : Mod) : list Mod := let (_, _, cs) := m in cs.

(** [torch.empty(dims)]: refuses a negative dimension. *)
Definition alloc (dims : shape) : result shape :=
  if forallb (fun d => 0 <=? d) dims then Ok dims
  else Err (FrameworkError "Trying to create tensor with negative dimension").

(** *** Framework layers: constructor checks and shape rules *)

Record Conv1d : Type := mkConv1d {
  conv_in : Z; conv_out : Z; conv_kernel : Z; conv_stride : Z;
  conv_padding : Z; conv_groups : Z; conv_bias : bool }.

(** [nn.Conv1d(in_channels, out_channels, kernel_size, stride, padding,
    groups=groups, bias=bias)]. *)
Definition Conv1d_init (cin cout k stride padding groups : Z) (bias : bool)
  : result Conv1d :=
  if groups <=? 0 then Err (FrameworkError "groups must be a positive integer")
  else if negb (cin mod groups =? 0)
  then Err (FrameworkError "in_channels must be divisible by groups")
  else if negb (cout mod groups =? 0)
  then Err (FrameworkError "out_channels must be divisible by groups")
  else
    _ <- alloc [cout; cin / groups; k] ;;
    Ok (mkConv1d cin cout k stride padding groups bias).

Definition Conv1d_tree (c : Conv1d) : Mod :=
  Node KConv1d
    (("weight"%string,
      mkParam [conv_out c; conv_in c / conv_groups c; conv_kernel c] DefaultInit)
     :: (if conv_bias c
         then [("bias"%string, mkParam [conv_out c] DefaultInit)] else []))
    [].

(** A batched input (N, C_in, L) gives
    (N, C_out, floor((L + 2p - k) / stride) + 1). *)
Definition Conv1d_forward (c : Conv1d) (x : shape) : Run shape :=
  call KConv1d (lift
    match x with
    | [n; ch; l] =>
        if negb (ch =? conv_in c)
        then Err (FrameworkError "conv1d: wrong number of input channels")
        else if conv_stride c <=? 0
        then Err (FrameworkError "conv1d: non-positive stride is not supported")
        else if l + 2 * conv_padding c <? conv_kernel c
        then Err (FrameworkError "conv1d: kernel size can't be greater than actual input size")
        else Ok [n; conv_out c;
                 (l + 2 * conv_padding c - conv_kernel c) / conv_stride c + 1]
    | _ => Err (FrameworkError "conv1d: expected 3D input")
    end).

Record BatchNorm1d : Type := mkBatchNorm1d { bn_features : Z }.

Definition BatchNorm1d_init (n : Z) : result BatchNorm1d :=
  _ <- alloc [n] ;; Ok (mkBatchNorm1d n).

Definition BatchNorm1d_tree (b : BatchNorm1d) : Mod :=
  Node KBatchNorm1d
    [("weight"%string, mkParam [bn_features b] DefaultInit);
     ("bias"%string, mkParam [bn_features b] DefaultInit)]
    [].

(** Modules are in training mode, as their constructors leave them: a batch
    norm then refuses an input with a single value per channel. *)
Definition BatchNorm1d_forward (b : BatchNorm1d) (x : shape) : Run shape :=
  call KBatchNorm1d (lift
    match x with
    | [n; ch; l] =>
        if n * l =? 1
        then Err (FrameworkError "Expected more than 1 value per channel when training")
        else if ch =? bn_features b then Ok x
        else Err (FrameworkError "batch_norm: running_mean should contain C elements")
    | [n; ch] =>
        if n =? 1
        then Err (FrameworkError "Expected more than 1 value per channel when training")
        else if ch =? bn_features b then Ok x
        else Err (FrameworkError "batch_norm: running_mean should contain C elements")
    | _ => Err (FrameworkError "batch_norm: expected 2D or 3D input")
    end).

(** [nn.ReLU(inplace=True)] and [nn.Sigmoid()]: element-wise. *)
Definition ReLU_tree : Mod := Node KReLU [] [].
Definition ReLU_forward (x : shape) : Run shape := call KReLU (ret x).
Definition Sigmoid_tree : Mod := Node KSigmoid [] [].
Definition Sigmoid_forward (x : shape) : Run shape := call KSigmoid (ret x).

Record MaxPool1d : Type := mkMaxPool1d {
  pool_kernel : Z; pool_stride : Z; pool_ceil : bool }.

Definition MaxPool1d_tree (p : MaxPool1d) : Mod := Node KMaxPool1d [] [].

(** Pooling without padding: floor or ceil of (L - k) / stride, plus one; in
    ceil mode the last window must start inside the input. *)
Definition MaxPool1d_forward (p : MaxPool1d) (x : shape) : Run shape :=
  call KMaxPool1d (lift
    match x with
    | [n; ch; l] =>
        if pool_stride p <=? 0
        then Err (FrameworkError "max_pool1d: stride must be greater than zero")
        else
          let span := l - pool_kernel p in
          let out :=
            if pool_ceil p
            then (span + pool_stride p - 1) / pool_stride p + 1
            else span / pool_stride p + 1 in
          let out :=
            if pool_ceil p && (l <=? (out - 1) * pool_stride p)
            then out - 1 else out in
          if out <=? 0
          then Err (FrameworkError "max_pool1d: output size is too small")
          else Ok [n; ch; out]
    | _ => Err (FrameworkError "max_pool1d: expected 3D input")
    end).

(** [nn.AdaptiveAvgPool1d(1)] and [nn.AdaptiveMaxPool1d(1)]. *)
Definition adaptive_pool1 (x : shape) : result shape :=
  match x with
  | [n; ch; l] =>
      if 0 <? l then Ok [n; ch; 1]
      else Err (FrameworkError "adaptive pooling: expected non-zero size for non-batch dimensions")
  | _ => Err (FrameworkError "adaptive pooling: expected 3D input")
  end.

Definition AdaptiveAvgPool1d_tree : Mod := Node KAdaptiveAvgPool1d [] [].
Definition AdaptiveAvgPool1d_forward (x : shape) : Run shape :=
  call KAdaptiveAvgPool1d (lift (adaptive_pool1 x)).
Definition AdaptiveMaxPool1d_tree : Mod := Node KAdaptiveMaxPool1d [] [].
Definition AdaptiveMaxPool1d_forward (x : shape) : Run shape :=
  call KAdaptiveMaxPool1d (lift (adaptive_pool1 x)).

Record Linear : Type := mkLinear { lin_in : Z; lin_out : Z }.

Definition Linear_init (fin fout : Z) : result Linear :=
  _ <- alloc [fout; fin] ;; Ok (mkLinear fin fout).

(** [bias_init]: the state of the bias, [DefaultInit] unless overwritten. *)
Definition Linear_tree (l : Linear) (bias_init : Init) : Mod :=
  Node KLinear
    [("weight"%string, mkParam [lin_out l; lin_in l] DefaultInit);
     ("bias"%string, mkParam [lin_out l] bias_init)]
    [].

(** An input whose last dimension is in_features gets out_features there. *)
Definition Linear_forward (l : Linear) (x : shape) : Run shape :=
  call KLinear (lift
    match rev x with
    | d :: front =>
        if d =? lin_in l then Ok (rev (lin_out l :: front))
        else Err (FrameworkError "linear: mat1 and mat2 shapes cannot be multiplied")
    | [] => Err (FrameworkError "linear: expected at least 1D input")
    end).

(** [nn.LSTM(input, hidden, bidirectional=True, batch_first=True)] and
    [nn.GRU(...)], one layer.  An LSTM has 4 gates and a GRU 3. *)
Inductive RNNClass : Type := LSTM | GRU.

Definition rnn_kind (c : RNNClass) : Kind :=
  match c with LSTM => KLSTM | GRU => KGRU end.

Definition rnn_gates (c : RNNClass) : Z :=
  match c with LSTM => 4 | GRU => 3 end.

Record RNN : Type := mkRNN {
  rnn_cls : RNNClass; rnn_input : Z; rnn_hidden : Z }.

Definition RNN_init (cls : RNNClass) (input hidden : Z) : result RNN :=
  if hidden <=? 0
  then Err (FrameworkError "hidden_size must be greater than zero")
  else
    _ <- alloc [rnn_gates cls * hidden; input] ;;
    Ok (mkRNN cls input hidden).

Definition LSTM_init (input hidden : Z) : result RNN := RNN_init LSTM input hidden.
Definition GRU_init (input hidden : Z) : result RNN := RNN_init GRU input hidden.

Definition RNN_tree (r : RNN) : Mod :=
  let g := rnn_gates (rnn_cls r) * rnn_hidden r in
  Node (rnn_kind (rnn_cls r))
    [("weight_ih_l0"%string, mkParam [g; rnn_input r] DefaultInit);
     ("weight_hh_l0"%string, mkParam [g; rnn_hidden r] DefaultInit);
     ("bias_ih_l0"%string, mkParam [g] DefaultInit);
     ("bias_hh_l0"%string, mkParam [g] DefaultInit);
     ("weight_ih_l0_reverse"%string, mkParam [g; rnn_input r] DefaultInit);
     ("weight_hh_l0_reverse"%string, mkParam [g; rnn_hidden r] DefaultInit);
     ("bias_ih_l0_reverse"%string, mkParam [g] DefaultInit);
     ("bias_hh_l0_reverse"%string, mkParam [g] DefaultInit)]
    [].

(** Batch-first input (N, L, input) gives the pair of the output
    (N, L, 2 * hidden) and the final hidden state (2, N, hidden). *)
Definition RNN_forward (r : RNN) (x : shape) : Run (shape * shape) :=
  call (rnn_kind (rnn_cls r)) (lift
    match x with
    | [n; l; h] =>
        if h =? rnn_input r
        then Ok ([n; l; 2 * rnn_hidden r], [2; n; rnn_hidden r])
        else Err (FrameworkError "input.size(-1) must be equal to input_size")
    | _ => Err (FrameworkError "RNN: expected 3D input")
    end).

(** [nn.Sequential]: calls its children in order. *)
Fixpoint run_in_order {L : Type} (fwd : L -> shape -> Run shape)
  (layers : list L) (x : shape) : Run shape :=
  match layers with
  | [] => ret x
  | l :: rest => x' <~ fwd l x ;; run_in_order fwd rest x'
  end.

Definition Sequential_forward {L : Type} (fwd : L -> shape -> Run shape)
  (layers : list L) (x : shape) : Run shape :=
  call KSequential (run_in_order fwd layers x).

(** Python's [a // b] on integers. *)
Definition floordiv (a b : Z) : result Z :=
  if b =? 0 then Err ZeroDivisionError else Ok (a / b).

(** *** class Attention *)

Record Attention : Type := mkAttention {
  att_bias : bool; feature_dim : Z; step_dim : Z }.

Definition Attention_init (feature_dim step_dim : Z) (bias : bool)
  : result Attention :=
  _ <- alloc [feature_dim; 1] ;;
  _ <- (if bias then alloc [step_dim] else Ok []) ;;
  Ok (mkAttention bias feature_dim step_dim).

Definition Attention_tree (a : Attention) : Mod :=
  Node KAttention
    (("weight"%string, mkParam [feature_dim a; 1] XavierUniform)
     :: (if att_bias a
         then [("b"%string, mkParam [step_dim a] Zeros)] else []))
    [].

Definition Attention_forward (m : Attention) (x : shape) (mask : option shape)
  : Run shape :=
  call KAttention (lift (
    v <- view_rows (numel x) (feature_dim m) ;;
    e <- mm v [feature_dim m; 1] ;;
    eij <- view_rows (numel e) (step_dim m) ;;
    eij <- (if att_bias m then broadcast eij [step_dim m] else Ok eij) ;;
    (* tanh and exp keep the shape *)
    a <- match mask with
         | Some k => broadcast eij k
         | None => Ok eij
         end ;;
    s <- reduce1_keepdim a ;;
    a <- broadcast a s ;;
    weighted_input <- broadcast x (unsqueeze_last a) ;;
    sum1 weighted_input)).

(** *** class HighwayMLP *)

(** The functions of [nn.functional] passed as activations; all three keep
    the shape of their argument. *)
Inductive Activation : Type := F_relu | F_softmax | F_sigmoid.

Record HighwayMLP : Type := mkHighwayMLP {
  hw_gate_bias : Z;
  activation_function : Activation;
  gate_activation : Activation;
  normal_layer : Linear;
  gate_layer : Linear }.

Definition HighwayMLP_init (input_size gate_bias : Z)
  (activation_function gate_activation : Activation) : result HighwayMLP :=
  normal <- Linear_init input_size input_size ;;
  gate <- Linear_init input_size input_size ;;
  Ok (mkHighwayMLP gate_bias activation_function gate_activation normal gate).

Definition HighwayMLP_tree (h : HighwayMLP) : Mod :=
  Node KHighwayMLP []
    [Linear_tree (normal_layer h) DefaultInit;
     Linear_tree (gate_layer h) (Fill (hw_gate_bias h))].

Definition HighwayMLP_forward (h : HighwayMLP) (x : shape) : Run shape :=
  call KHighwayMLP (
    normal_layer_result <~ Linear_forward (normal_layer h) x ;;
    gate_layer_result <~ Linear_forward (gate_layer h) x ;;
    multiplyed_gate_and_normal <~
      lift (broadcast normal_layer_result gate_layer_result) ;;
    multiplyed_gate_and_input <~ lift (broadcast gate_layer_result x) ;;
    lift (broadcast multiplyed_gate_and_normal multiplyed_gate_and_input)).

(** *** class CBAM_Module *)

Record CBAM_Module : Type := mkCBAM {
  cbam_fc1 : Conv1d; cbam_fc2 : Conv1d; conv_after_concat : Conv1d }.

Definition CBAM_Module_init (channels reduction : Z) : result CBAM_Module :=
  cr <- floordiv channels reduction ;;
  fc1 <- Conv1d_init channels cr 1 1 0 1 true ;;
  cr' <- floordiv channels reduction ;;
  fc2 <- Conv1d_init cr' channels 1 1 0 1 true ;;
  cac <- Conv1d_init 2 1 3 1 1 1 true ;;
  Ok (mkCBAM fc1 fc2 cac).

Definition CBAM_Module_tree (m : CBAM_Module) : Mod :=
  Node KCBAM_Module []
    [AdaptiveAvgPool1d_tree; AdaptiveMaxPool1d_tree; Conv1d_tree (cbam_fc1 m);
     ReLU_tree; Conv1d_tree (cbam_fc2 m); Sigmoid_tree;
     Conv1d_tree (conv_after_concat m); Sigmoid_tree].

Definition CBAM_Module_forward (m : CBAM_Module) (x : shape) : Run shape :=
  call KCBAM_Module (
    let module_input := x in
    avg <~ AdaptiveAvgPool1d_forward x ;;
    mx <~ AdaptiveMaxPool1d_forward x ;;
    avg <~ Conv1d_forward (cbam_fc1 m) avg ;;
    mx <~ Conv1d_forward (cbam_fc1 m) mx ;;
    avg <~ ReLU_forward avg ;;
    mx <~ ReLU_forward mx ;;
    avg <~ Conv1d_forward (cbam_fc2 m) avg ;;
    mx <~ Conv1d_forward (cbam_fc2 m) mx ;;
    x <~ lift (broadcast avg mx) ;;
    x <~ Sigmoid_forward x ;;
    x <~ lift (broadcast module_input x) ;;
    let module_input := x in
    avg <~ lift (reduce1_keepdim x) ;;
    mx <~ lift (reduce1_keepdim x) ;;
    x <~ lift (cat1 avg mx) ;;
    x <~ Conv1d_forward (conv_after_concat m) x ;;
    x <~ Sigmoid_forward x ;;
    lift (broadcast module_input x)).

(** *** class SCSEModule *)

Record SCSEModule : Type := mkSCSE {
  cSE_fc1 : Conv1d; cSE_fc2 : Conv1d; sSE_conv : Conv1d }.

Definition SCSEModule_init (channels reduction : Z) : result SCSEModule :=
  cr <- floordiv channels reduction ;;
  c1 <- Conv1d_init channels cr 1 1 0 1 true ;;
  cr' <- floordiv channels reduction ;;
  c2 <- Conv1d_init cr' channels 1 1 0 1 true ;;
  s1 <- Conv1d_init channels channels 1 1 0 1 true ;;
  Ok (mkSCSE c1 c2 s1).

Definition SCSEModule_tree (m : SCSEModule) : Mod :=
  Node KSCSEModule []
    [Node KSequential []
       [AdaptiveAvgPool1d_tree; Conv1d_tree (cSE_fc1 m); ReLU_tree;
        Conv1d_tree (cSE_fc2 m); Sigmoid_tree];
     Node KSequential [] [Conv1d_tree (sSE_conv m); Sigmoid_tree]].

Definition SCSEModule_forward (m : SCSEModule) (x : shape) : Run shape :=
  call KSCSEModule (
    c <~ call KSequential (
           y <~ AdaptiveAvgPool1d_forward x ;;
           y <~ Conv1d_forward (cSE_fc1 m) y ;;
           y <~ ReLU_forward y ;;
           y <~ Conv1d_forward (cSE_fc2 m) y ;;
           Sigmoid_forward y) ;;
    xc <~ lift (broadcast x c) ;;
    s <~ call KSequential (
           y <~ Conv1d_forward (sSE_conv m) x ;;
           Sigmoid_forward y) ;;
    xs <~ lift (broadcast x s) ;;
    lift (broadcast xc xs)).

(** *** class SEModule *)

Record SEModule : Type := mkSEModule { se_fc1 : Conv1d; se_fc2 : Conv1d }.

Definition SEModule_init (channels reduction : Z) : result SEModule :=
  if negb (channels >? reduction) then Err (AssertionError reduction)
  else
    cr <- floordiv channels reduction ;;
    fc1 <- Conv1d_init channels cr 1 1 0 1 true ;;
    cr' <- floordiv channels reduction ;;
    fc2 <- Conv1d_init cr' channels 1 1 0 1 true ;;
    Ok (mkSEModule fc1 fc2).

Definition SEModule_tree (m : SEModule) : Mod :=
  Node KSEModule []
    [AdaptiveAvgPool1d_tree; Conv1d_tree (se_fc1 m); ReLU_tree;
     Conv1d_tree (se_fc2 m); Sigmoid_tree].

Definition SEModule_forward (m : SEModule) (x : shape) : Run shape :=
  call KSEModule (
    let module_input := x in
    x <~ AdaptiveAvgPool1d_forward x ;;
    x <~ Conv1d_forward (se_fc1 m) x ;;
    x <~ ReLU_forward x ;;
    x <~ Conv1d_forward (se_fc2 m) x ;;
    x <~ Sigmoid_forward x ;;
    lift (broadcast module_input x)).

(** *** The residual blocks *)

(** The [downsample] that [_make_layer] passes to the first block of a
    layer: [nn.Sequential(nn.Conv1d(..), nn.BatchNorm1d(..))]. *)
Record Downsample : Type := mkDownsample { ds_conv : Conv1d; ds_bn : BatchNorm1d }.

Definition Downsample_tree (d : Downsample) : Mod :=
  Node KSequential [] [Conv1d_tree (ds_conv d); BatchNorm1d_tree (ds_bn d)].

Definition Downsample_forward (d : Downsample) (x : shape) : Run shape :=
  call KSequential (
    y <~ Conv1d_forward (ds_conv d) x ;;
    BatchNorm1d_forward (ds_bn d) y).

(** The [block] argument of [SENet]: one of the four block classes, with its
    class attribute [expansion]. *)
Inductive BlockClass : Type :=
| SEBottleneck | SEResNetBottleneck | SEResNeXtBottleneck | SEResNetBlock_cls.

Definition block_kind (block : BlockClass) : Kind :=
  match block with
  | SEBottleneck => KSEBottleneck
  | SEResNetBottleneck => KSEResNetBottleneck
  | SEResNeXtBottleneck => KSEResNeXtBottleneck
  | SEResNetBlock_cls => KSEResNetBlock
  end.

Definition expansion (block : BlockClass) : Z :=
  match block with
  | SEResNetBlock_cls => 1
  | _ => 4
  end.

(** The attributes a subclass of [Bottleneck] sets; [bt_cls] is the
    subclass. *)
Record Bottleneck : Type := mkBottleneck {
  bt_cls : BlockClass;
  conv1 : Conv1d; bn1 : BatchNorm1d;
  conv2 : Conv1d; bn2 : BatchNorm1d;
  conv3 : Conv1d; bn3 : BatchNorm1d;
  se_module : SEModule;
  downsample : option Downsample;
  bt_stride : Z }.

Definition Bottleneck_forward (b : Bottleneck) (x : shape) : Run shape :=
  call (block_kind (bt_cls b)) (
    let residual := x in
    out <~ Conv1d_forward (conv1 b) x ;;
    out <~ BatchNorm1d_forward (bn1 b) out ;;
    out <~ ReLU_forward out ;;
    out <~ Conv1d_forward (conv2 b) out ;;
    out <~ BatchNorm1d_forward (bn2 b) out ;;
    out <~ ReLU_forward out ;;
    out <~ Conv1d_forward (conv3 b) out ;;
    out <~ BatchNorm1d_forward (bn3 b) out ;;
    residual <~ match downsample b with
                | Some d => Downsample_forward d x
                | None => ret residual
                end ;;
    se <~ SEModule_forward (se_module b) out ;;
    out <~ lift (broadcast se residual) ;;
    ReLU_forward out).

Definition Bottleneck_tree (b : Bottleneck) : Mod :=
  Node (block_kind (bt_cls b)) []
    ([Conv1d_tree (conv1 b); BatchNorm1d_tree (bn1 b);
      Conv1d_tree (conv2 b); BatchNorm1d_tree (bn2 b);
      Conv1d_tree (conv3 b); BatchNorm1d_tree (bn3 b);
      ReLU_tree; SEModule_tree (se_module b)]
     ++ match downsample b with
        | Some d => [Downsample_tree d]
        | None => []
        end).

Definition SEBottleneck_init (inplanes planes groups reduction stride : Z)
  (downsample : option Downsample) : result Bottleneck :=
  c1 <- Conv1d_init inplanes (planes * 2) 1 1 0 1 false ;;
  b1 <- BatchNorm1d_init (planes * 2) ;;
  c2 <- Conv1d_init (planes * 2) (planes * 4) 3 stride 1 groups false ;;
  b2 <- BatchNorm1d_init (planes * 4) ;;
  c3 <- Conv1d_init (planes * 4) (planes * 4) 1 1 0 1 false ;;
  b3 <- BatchNorm1d_init (planes * 4) ;;
  se <- SEModule_init (planes * 4) reduction ;;
  Ok (mkBottleneck SEBottleneck c1 b1 c2 b2 c3 b3 se downsample stride).

Definition SEResNetBottleneck_init (inplanes planes groups reduction stride : Z)
  (downsample : option Downsample) : result Bottleneck :=
  c1 <- Conv1d_init inplanes planes 1 stride 0 1 false ;;
  b1 <- BatchNorm1d_init planes ;;
  c2 <- Conv1d_init planes planes 7 1 3 groups false ;;
  b2 <- BatchNorm1d_init planes ;;
  c3 <- Conv1d_init planes (planes * 4) 1 1 0 1 false ;;
  b3 <- BatchNorm1d_init (planes * 4) ;;
  se <- SEModule_init (planes * 4) reduction ;;
  Ok (mkBottleneck SEResNetBottleneck c1 b1 c2 b2 c3 b3 se downsample stride).

(** [width = math.floor(planes * (base_width / 64)) * groups]; the callers
    in this file leave [base_width] at 4, and 4 / 64 is an exact binary
    fraction, so the floor is the integer quotient. *)
Definition SEResNeXtBottleneck_init (inplanes planes groups reduction stride : Z)
  (downsample : option Downsample) (base_width : Z) : result Bottleneck :=
  let width := (planes * base_width / 64) * groups in
  c1 <- Conv1d_init inplanes width 1 1 0 1 false ;;
  b1 <- BatchNorm1d_init width ;;
  c2 <- Conv1d_init width width 7 stride 3 groups false ;;
  b2 <- BatchNorm1d_init width ;;
  c3 <- Conv1d_init width (planes * 4) 1 1 0 1 false ;;
  b3 <- BatchNorm1d_init (planes * 4) ;;
  se <- SEModule_init (planes * 4) reduction ;;
  Ok (mkBottleneck SEResNeXtBottleneck c1 b1 c2 b2 c3 b3 se downsample stride).

Record SEResNetBlock : Type := mkSEResNetBlock {
  rb_conv1 : Conv1d; rb_bn1 : BatchNorm1d;
  rb_conv2 : Conv1d; rb_bn2 : BatchNorm1d;
  rb_se_module : SEModule;
  rb_downsample : option Downsample;
  rb_stride : Z }.

Definition SEResNetBlock_init (inplanes planes groups reduction stride : Z)
  (downsample : option Downsample) : result SEResNetBlock :=
  c1 <- Conv1d_init inplanes planes 7 stride 3 1 false ;;
  b1 <- BatchNorm1d_init planes ;;
  c2 <- Conv1d_init planes planes 7 1 3 groups false ;;
  b2 <- BatchNorm1d_init planes ;;
  se <- SEModule_init planes reduction ;;
  Ok (mkSEResNetBlock c1 b1 c2 b2 se downsample stride).

Definition SEResNetBlock_tree (b : SEResNetBlock) : Mod :=
  Node KSEResNetBlock []
    ([Conv1d_tree (rb_conv1 b); BatchNorm1d_tree (rb_bn1 b);
      Conv1d_tree (rb_conv2 b); BatchNorm1d_tree (rb_bn2 b);
      ReLU_tree; SEModule_tree (rb_se_module b)]
     ++ match rb_downsample b with
        | Some d => [Downsample_tree d]
        | None => []
        end).

Definition SEResNetBlock_forward (b : SEResNetBlock) (x : shape) : Run shape :=
  call KSEResNetBlock (
    let residual := x in
    out <~ Conv1d_forward (rb_conv1 b) x ;;
    out <~ BatchNorm1d_forward (rb_bn1 b) out ;;
    out <~ ReLU_forward out ;;
    out <~ Conv1d_forward (rb_conv2 b) out ;;
    out <~ BatchNorm1d_forward (rb_bn2 b) out ;;
    out <~ ReLU_forward out ;;
    residual <~ match rb_downsample b with
                | Some d => Downsample_forward d x
                | None => ret residual
                end ;;
    se <~ SEModule_forward (rb_se_module b) out ;;
    out <~ lift (broadcast se residual) ;;
    ReLU_forward out).

Inductive Block : Type :=
| BottleneckBlock (b : Bottleneck)
| ResNetBlock (b : SEResNetBlock).

(** [block(inplanes, planes, groups, reduction, stride, downsample)]. *)
Definition block_init (block : BlockClass)
  (inplanes planes groups reduction stride : Z)
  (downsample : option Downsample) : result Block :=
  match block with
  | SEBottleneck =>
      b <- SEBottleneck_init inplanes planes groups reduction stride downsample ;;
      Ok (BottleneckBlock b)
  | SEResNetBottleneck =>
      b <- SEResNetBottleneck_init inplanes planes groups reduction stride downsample ;;
      Ok (BottleneckBlock b)
  | SEResNeXtBottleneck =>
      b <- SEResNeXtBottleneck_init inplanes planes groups reduction stride downsample 4 ;;
      Ok (BottleneckBlock b)
  | SEResNetBlock_cls =>
      b <- SEResNetBlock_init inplanes planes groups reduction stride downsample ;;
      Ok (ResNetBlock b)
  end.

Definition Block_tree (b : Block) : Mod :=
  match b with
  | BottleneckBlock b => Bottleneck_tree b
  | ResNetBlock b => SEResNetBlock_tree b
  end.

Definition Block_forward (b : Block) (x : shape) : Run shape :=
  match b with
  | BottleneckBlock b => Bottleneck_forward b x
  | ResNetBlock b => SEResNetBlock_forward b x
  end.

(** *** class SENet *)

(** The modules [layer0] is made of. *)
Inductive Layer0 : Type :=
| L0Conv (c : Conv1d)
| L0BatchNorm (b : BatchNorm1d)
| L0ReLU
| L0MaxPool (p : MaxPool1d).

Definition Layer0_tree (l : string * Layer0) : Mod :=
  match snd l with
  | L0Conv c => Conv1d_tree c
  | L0BatchNorm b => BatchNorm1d_tree b
  | L0ReLU => ReLU_tree
  | L0MaxPool p => MaxPool1d_tree p
  end.

Definition Layer0_forward (l : string * Layer0) (x : shape) : Run shape :=
  match snd l with
  | L0Conv c => Conv1d_forward c x
  | L0BatchNorm b => BatchNorm1d_forward b x
  | L0ReLU => ReLU_forward x
  | L0MaxPool p => MaxPool1d_forward p x
  end.

Record SENet : Type := mkSENet {
  inplanes : Z;
  num_classes : Z;
  layer0 : list (string * Layer0);
  layer1 : list Block;
  layer2 : list Block;
  layer3 : list Block;
  layer4 : list Block;
  avg_pool : Mod;
  num_features : Z;
  highway_number : Z;
  highway_layers : list HighwayMLP;
  last_linear : Linear;
  lstm : RNN;
  gru : RNN;
  attention_layer : Attention }.

(** [[f() for _ in range(n)]], stopping at the first exception. *)
Fixpoint replicateM {A : Type} (n : nat) (f : result A) : result (list A) :=
  match n with
  | O => Ok []
  | S n' => a <- f ;; rest <- replicateM n' f ;; Ok (a :: rest)
  end.

(** [SENet._make_layer]; [self.inplanes] is read from the first argument and
    its new value is returned next to the layer. *)
Definition _make_layer (self_inplanes : Z) (block : BlockClass)
  (planes blocks groups reduction stride : Z)
  (downsample_kernel_size downsample_padding : Z)
  : result (list Block * Z) :=
  downsample <-
    (if negb (stride =? 1) || negb (self_inplanes =? planes * expansion block)
     then
       c <- Conv1d_init self_inplanes (planes * expansion block)
              downsample_kernel_size stride downsample_padding 1 false ;;
       b <- BatchNorm1d_init (planes * expansion block) ;;
       Ok (Some (mkDownsample c b))
     else Ok None) ;;
  first <- block_init block self_inplanes planes groups reduction stride downsample ;;
  let self_inplanes := planes * expansion block in
  rest <- replicateM (Z.to_nat (blocks - 1))
            (block_init block self_inplanes planes groups reduction 1 None) ;;
  Ok (first :: rest, self_inplanes).

(** [layers[i]]. *)
Definition index (layers : list Z) (i : nat) : result Z :=
  match nth_error layers i with
  | Some v => Ok v
  | None => Err IndexError
  end.

(** The modules registered on an [SENet], in registration order. *)
Definition SENet_tree (m : SENet) : Mod :=
  Node KSENet []
    [Node KSequential [] (map Layer0_tree (layer0 m));
     Node KSequential [] (map Block_tree (layer1 m));
     Node KSequential [] (map Block_tree (layer2 m));
     Node KSequential [] (map Block_tree (layer3 m));
     Node KSequential [] (map Block_tree (layer4 m));
     avg_pool m;
     Node KModuleList [] (map HighwayMLP_tree (highway_layers m));
     Linear_tree (last_linear m) DefaultInit;
     RNN_tree (lstm m);
     RNN_tree (gru m);
     Attention_tree (attention_layer m)].

Definition forward_features (m : SENet) (x : shape) : Run shape :=
  x <~ Sequential_forward Layer0_forward (layer0 m) x ;;
  x <~ Sequential_forward Block_forward (layer1 m) x ;;
  x <~ Sequential_forward Block_forward (layer2 m) x ;;
  x <~ Sequential_forward Block_forward (layer3 m) x ;;
  x <~ Sequential_forward Block_forward (layer4 m) x ;;
  ret x.

Definition logits (m : SENet) (x : shape) : Run shape :=
  out <~ RNN_forward (gru m) x ;;
  let x := fst out in
  x <~ Attention_forward (attention_layer m) x None ;;
  x <~ Linear_forward (last_linear m) x ;;
  ret x.

Definition SENet_forward (m : SENet) (x : shape) : Run shape :=
  call KSENet (
    x <~ forward_features m x ;;
    x <~ logits m x ;;
    ret x).

(** *** _weight_init and the loop over self.modules() *)

(** [tensor <- init]: the in-place initialisers overwrite the value of the
    named parameter and keep its shape. *)
Definition reinit (name : string) (i : Init) (ps : list (string * Param))
  : list (string * Param) :=
  map (fun np : string * Param =>
         if String.eqb (fst np) name
         then (fst np, mkParam (pshape (snd np)) i)
         else np) ps.

Definition has_param (name : string) (ps : list (string * Param)) : bool :=
  existsb (fun np : string * Param => String.eqb (fst np) name) ps.

(** [nn.init.<init>_(m.<name>, ...)].  The attribute of a parameter that is
    not registered (the [weight] and [bias] of a norm built with
    [affine=False]) is [None], and the initialiser raises on it. *)
Definition init_param (name : string) (i : Init) (ps : list (string * Param))
  : result (list (string * Param)) :=
  if has_param name ps then Ok (reinit name i ps)
  else Err (FrameworkError "nn.init: 'NoneType' object has no such attribute").

(** [_weight_init(m)], with the number of draws the random generator has
    made so far read from the second argument and returned next to the
    module. *)
Definition _weight_init (m : Mod) (draws : nat) : result (Mod * nat) :=
  match m with
  | Node KConv2d ps cs =>
      ps <- init_param "weight" (KaimingNormalFanOutRelu draws) ps ;;
      Ok (Node KConv2d ps cs, S draws)
  | Node KBatchNorm2d ps cs =>
      ps <- init_param "weight" (Constant 1) ps ;;
      ps <- init_param "bias" (Constant 0) ps ;;
      Ok (Node KBatchNorm2d ps cs, draws)
  | _ => Ok (m, draws)
  end.

(** [self.modules()]: the module itself, then the modules of each child, in
    registration order.  A module is addressed by the positions of the
    children that lead to it. *)
Definition path : Type := list nat.

Fixpoint modules (m : Mod) : list path :=
  match m with
  | Node _ _ cs =>
      [] :: (fix of_children (i : nat) (cs : list Mod) : list path :=
               match cs with
               | [] => []
               | c :: rest =>
                   map (cons i) (modules c) ++ of_children (S i) rest
               end) O cs
  end.

Fixpoint update_nth {A : Type} (i : nat) (f : A -> A) (l : list A) : list A :=
  match l, i with
  | [], _ => []
  | a :: rest, O => f a :: rest
  | a :: rest, S i' => a :: update_nth i' f rest
  end.

(** In-place update of the module at path [p]. *)
Fixpoint update_at (p : path) (f : Mod -> Mod) (m : Mod) : Mod :=
  match p with
  | [] => f m
  | i :: p' =>
      match m with
      | Node k ps cs => Node k ps (update_nth i (update_at p' f) cs)
      end
  end.

(** The module at path [p]. *)
Fixpoint get_at (p : path) (m : Mod) : option Mod :=
  match p with
  | [] => Some m
  | i :: p' =>
      match nth_error (children_of m) i with
      | Some c => get_at p' c
      | None => None
      end
  end.

(** [for m in <modules>: _weight_init(m)]: each call reads its module from
    the store and overwrites it there; the first exception ends the loop.
    (A path that leads nowhere is passed over; [self.modules()] yields
    none.) *)
Fixpoint weight_init_over (ps : list path) (store : Mod) (draws : nat)
  : result (Mod * nat) :=
  match ps with
  | [] => Ok (store, draws)
  | p :: rest =>
      match get_at p store with
      | Some m =>
          r <- _weight_init m draws ;;
          weight_init_over rest (update_at p (fun _ => fst r) store) (snd r)
      | None => weight_init_over rest store draws
      end
  end.

(** [for m in self.modules(): _weight_init(m)]. *)
Definition weight_init_loop (self : Mod) (draws : nat) : result (Mod * nat) :=
  weight_init_over (modules self) self draws.

Section WithPool.

(** [SelectAdaptivePool1d] is imported from [models/utils.py], which is not
    among the sources at hand.  Its constructor is a parameter: given
    [pool_type] it yields the module it builds, or raises. *)
Variable SelectAdaptivePool1d : string -> result Mod.

(** [SENet.__init__] up to, and without, the final loop over
    [self.modules()].  The argument [drop_rate] (a float that is only
    stored) is left out. *)
Definition SENet_build (block : BlockClass) (layers : list Z)
  (groups reduction in_chans inplanes : Z) (input_3x3 : bool)
  (downsample_kernel_size downsample_padding num_classes : Z)
  (global_pool : string) : result SENet :=
  let self_inplanes := inplanes in
  layer0_modules <-
    (if input_3x3 then
       c1 <- Conv1d_init in_chans 64 3 2 1 1 false ;;
       b1 <- BatchNorm1d_init 64 ;;
       c2 <- Conv1d_init 64 64 3 1 1 1 false ;;
       b2 <- BatchNorm1d_init 64 ;;
       c3 <- Conv1d_init 64 inplanes 3 1 1 1 false ;;
       b3 <- BatchNorm1d_init inplanes ;;
       Ok [("conv1"%string, L0Conv c1); ("bn1"%string, L0BatchNorm b1);
           ("relu1"%string, L0ReLU);
           ("conv2"%string, L0Conv c2); ("bn2"%string, L0BatchNorm b2);
           ("relu2"%string, L0ReLU);
           ("conv3"%string, L0Conv c3); ("bn3"%string, L0BatchNorm b3);
           ("relu3"%string, L0ReLU)]
     else
       c1 <- Conv1d_init in_chans inplanes 7 2 3 1 false ;;
       b1 <- BatchNorm1d_init inplanes ;;
       Ok [("conv1"%string, L0Conv c1); ("bn1"%string, L0BatchNorm b1);
           ("relu1"%string, L0ReLU)]) ;;
  let layer0_modules :=
    layer0_modules ++ [("pool"%string, L0MaxPool (mkMaxPool1d 3 2 true))] in
  n0 <- index layers 0 ;;
  l1 <- _make_layer self_inplanes block 64 n0 groups reduction 1 1 0 ;;
  let (layer1, self_inplanes) := l1 in
  n1 <- index layers 1 ;;
  l2 <- _make_layer self_inplanes block 128 n1 groups reduction 2
          downsample_kernel_size downsample_padding ;;
  let (layer2, self_inplanes) := l2 in
  n2 <- index layers 2 ;;
  l3 <- _make_layer self_inplanes block 256 n2 groups reduction 2
          downsample_kernel_size downsample_padding ;;
  let (layer3, self_inplanes) := l3 in
  n3 <- index layers 3 ;;
  l4 <- _make_layer self_inplanes block 512 n3 groups reduction 2
          downsample_kernel_size downsample_padding ;;
  let (layer4, self_inplanes) := l4 in
  avg_pool <- SelectAdaptivePool1d global_pool ;;
  let num_features := 512 * expansion block in
  let highway_number := 2 in
  highway_layers <-
    replicateM (Z.to_nat highway_number)
      (HighwayMLP_init num_features (-2) F_relu F_sigmoid) ;;
  last_linear <- Linear_init 256 9 ;;
  lstm <- LSTM_init 400 128 ;;
  gru <- GRU_init 400 128 ;;
  attention_layer <- Attention_init (128 * 2) 2048 true ;;
  Ok (mkSENet self_inplanes num_classes layer0_modules
        layer1 layer2 layer3 layer4 avg_pool num_features highway_number
        highway_layers last_linear lstm gru attention_layer).

(** [SENet.__init__]: the module built, and the state of its parameters
    after the loop over [self.modules()]; the draws of the random generator
    are counted from the start of that loop. *)
Definition SENet_init (block : BlockClass) (layers : list Z)
  (groups reduction in_chans inplanes : Z) (input_3x3 : bool)
  (downsample_kernel_size downsample_padding num_classes : Z)
  (global_pool : string) : result (SENet * Mod) :=
  self <- SENet_build block layers groups reduction in_chans inplanes
            input_3x3 downsample_kernel_size downsample_padding num_classes
            global_pool ;;
  after <- weight_init_loop (SENet_tree self) 0 ;;
  Ok (self, fst after).

(** The factory functions ([pretrained] is ignored by all of them; of the
    keyword arguments only [global_pool] is modelled). *)
Definition seresnet18 (num_classes in_chans : Z) (global_pool : string) :=
  SENet_init SEResNetBlock_cls [2; 2; 2; 2] 1 16 in_chans 64 false 1 0
    num_classes global_pool.

Definition seresnet34 (num_classes in_chans : Z) (global_pool : string) :=
  SENet_init SEResNetBlock_cls [3; 4; 6; 3] 1 16 in_chans 64 false 1 0
    num_classes global_pool.

Definition seresnet50 (num_classes in_chans : Z) (global_pool : string) :=
  SENet_init SEResNetBottleneck [3; 4; 6; 3] 1 16 in_chans 64 false 1 0
    num_classes global_pool.

Definition seresnet101 (num_classes in_chans : Z) (global_pool : string) :=
  SENet_init SEResNetBottleneck [3; 4; 23; 3] 1 16 in_chans 64 false 1 0
    num_classes global_pool.

Definition seresnet152 (num_classes in_chans : Z) (global_pool : string) :=
  SENet_init SEResNetBottleneck [3; 8; 36; 3] 1 16 in_chans 64 false 1 0
    num_classes global_pool.

Definition senet154 (num_classes in_chans : Z) (global_pool : string) :=
  SENet_init SEBottleneck [3; 8; 36; 3] 64 16 in_chans 64 true 3 1
    num_classes global_pool.

Definition seresnext26_32x4d (num_classes in_chans : Z) (global_pool : string) :=
  SENet_init SEResNeXtBottleneck [2; 2; 2; 2] 32 16 in_chans 64 false 1 0
    num_classes global_pool.

Definition seresnext50_32x4d (num_classes in_chans : Z) (global_pool : string) :=
  SENet_init SEResNeXtBottleneck [3; 4; 6; 3] 32 16 in_chans 64 false 1 0
    num_classes global_pool.

Definition seresnext101_32x4d (num_classes in_chans : Z) (global_pool : string) :=
  SENet_init SEResNeXtBottleneck [3; 4; 23; 3] 32 16 in_chans 64 false 1 0
    num_classes global_pool.

End WithPool.

(** *** Notions the statements below are about *)

(** The custom blocks that [SENet.forward] is claimed to leave out. *)
Definition left_out (k : Kind) : bool :=
  match k with
  | KCBAM_Module | KSCSEModule | KHighwayMLP => true
  | _ => false
  end.

(** The modules a forward pass of [SENet] may call: all but the three
    custom blocks in [left_out]. *)
Definition wired (k : Kind) : bool := negb (left_out k).

(** A failure that is not one of the repository's own exceptions. *)
Definition foreign {A : Type} (r : result A) : Prop :=
  forall e, r = Err e -> repo_defined e = false.

(** A run is [tame] for [P] when every module it calls satisfies [P] and
    when, if it fails, the exception is not one of the repository's own. *)
Definition tame {A : Type} (P : Kind -> bool) (r : Run A) : Prop :=
  forallb P (snd r) = true /\
  forall e, fst r = Err e -> repo_defined e = false.

(** The classes [_weight_init] re-initialises. *)
Definition is_2d (k : Kind) : bool :=
  match k with
  | KConv2d | KBatchNorm2d => true
  | _ => false
  end.

(** No module of the tree is an [nn.Conv2d] or an [nn.BatchNorm2d]. *)
Fixpoint no_2d (m : Mod) : bool :=
  match m with
  | Node k _ cs => negb (is_2d k) && forallb no_2d cs
  end.

(** The paths of the modules of the children [cs], the first of which is
    child number [i]: what [modules] lists after the module itself. *)
Fixpoint children_paths (i : nat) (cs : list Mod) : list path :=
  match cs with
  | [] => []
  | c :: rest => map (cons i) (modules c) ++ children_paths (S i) rest
  end.




(** The module [m] with another pooling wrapper registered as
    [avg_pool]. *)
Definition with_avg_pool (m : SENet) (w : Mod) : SENet :=
  mkSENet (inplanes m) (num_classes m) (layer0 m) (layer1 m) (layer2 m)
    (layer3 m) (layer4 m) w (num_features m) (highway_number m)
    (highway_layers m) (last_linear m) (lstm m) (gru m) (attention_layer m).

(** A stand-in for the pooling wrapper of [models/utils.py], used where a
    statement is run on a concrete network. *)
Definition sample_pool (pool_type : string) : result Mod :=
  Ok (Node KSelectAdaptivePool1d [] [AdaptiveMaxPool1d_tree]).

(** *** Notions for the statements about shapes and structure *)

Definition block_downsample (b : Block) : option Downsample :=
  match b with
  | BottleneckBlock b => downsample b
  | ResNetBlock b => rb_downsample b
  end.

Definition block_stride (b : Block) : Z :=
  match b with
  | BottleneckBlock b => bt_stride b
  | ResNetBlock b => rb_stride b
  end.

(** [SENet(SEResNetBottleneck, [3, 4, 6, 3], groups=1, reduction=256, ...)]:
    the arguments of [seresnet50] but for [reduction]. *)
Definition seresnet50_with_reduction_256 : result (SENet * Mod) :=
  SENet_init sample_pool SEResNetBottleneck [3; 4; 6; 3] 1 256 12 64 false
    1 0 9 "max".

(** The result of a run, without its log. *)
Definition outcome {A : Type} (r : Run A) : result A := fst r.

(** The two failures of the framework that decide whether [SENet.forward]
    returns: the batch norm on a single value, the GRU on a wrong input
    size. *)
Definition single_value_error : Error :=
  FrameworkError "Expected more than 1 value per channel when training".

Definition input_size_error : Error :=
  FrameworkError "input.size(-1) must be equal to input_size".

Definition output_size_error : Error :=
  FrameworkError "max_pool1d: output size is too small".

(** The factory functions that pass one of the three bottleneck classes. *)
Definition bottleneck_factories (SelectAdaptivePool1d : string -> result Mod)
  (num_classes in_chans : Z) (global_pool : string)
  : list (result (SENet * Mod)) :=
  [seresnet50 SelectAdaptivePool1d num_classes in_chans global_pool;
   seresnet101 SelectAdaptivePool1d num_classes in_chans global_pool;
   seresnet152 SelectAdaptivePool1d num_classes in_chans global_pool;
   senet154 SelectAdaptivePool1d num_classes in_chans global_pool;
   seresnext26_32x4d SelectAdaptivePool1d num_classes in_chans global_pool;
   seresnext50_32x4d SelectAdaptivePool1d num_classes in_chans global_pool;
   seresnext101_32x4d SelectAdaptivePool1d num_classes in_chans global_pool].

(** The script under [if __name__ == '__main__']: it builds
    [seresnet50(global_pool='max')] with the defaults [num_classes=9] and
    [in_chans=12] and calls it on [torch.randn(1, 12, 2560*6)]; the value is
    what the second [print] would receive. *)
Definition main (SelectAdaptivePool1d : string -> result Mod) : result shape :=
  m <- seresnet50 SelectAdaptivePool1d 9 12 "max" ;;
  outcome (SENet_forward (fst m) [1; 12; 2560 * 6]).

(** The length a convolution or pooling of kernel size [k], padding [p] and
    stride [s] leaves of a length [l]; all the strided convolutions of the
    file have [k = 2 p + 1] and leave [strided s l]. *)
Definition strided (s l : Z) : Z := (l - 1) / s + 1.

(** The length [layer0]'s [nn.MaxPool1d(3, stride=2, ceil_mode=True)] leaves
    of a length [l]. *)
Definition pooled (l : Z) : Z :=
  let out := (l - 3 + 2 - 1) / 2 + 1 in
  if l <=? (out - 1) * 2 then out - 1 else out.

(** The length of the features of an input of length [L]: the strided
    convolution and the pooling of [layer0], then the three strided layers
    [layer2], [layer3], [layer4]. *)
Definition reduced_length (L : Z) : Z :=
  strided 2 (strided 2 (strided 2 (pooled (strided 2 L)))).

(** The [downsample] that [_make_layer] hands to the first block of a layer
    that takes [cin] channels to [cout] at stride [stride], for the two
    settings of [downsample_kernel_size] and [downsample_padding] the
    factory functions use. *)
Definition downsample_fits (cin cout stride : Z) (d : option Downsample)
  : Prop :=
  match d with
  | None => stride = 1 /\ cin = cout
  | Some d =>
      conv_in (ds_conv d) = cin /\ conv_out (ds_conv d) = cout /\
      conv_stride (ds_conv d) = stride /\
      ((conv_kernel (ds_conv d) = 1 /\ conv_padding (ds_conv d) = 0) \/
       (conv_kernel (ds_conv d) = 3 /\ conv_padding (ds_conv d) = 1)) /\
      bn_features (ds_bn d) = cout
  end.

End Shape.

(** ** The value level *)

Module Value.

Local Open Scope R_scope.

(** Tensors of rank 1, 2 and 3 over the reals, in row-major order. *)
Abbreviation T1 := (list R).
Abbreviation T2 := (list (list R)).
Abbreviation T3 := (list (list (list R))).

Definition ferr {A : Type} (msg : string) : result A := Err (FrameworkError msg).

(** *** Tensor operations of the framework *)

Fixpoint mapM {A C : Type} (f : A -> result C) (xs : list A) : result (list C) :=
  match xs with
  | [] => Ok []
  | x :: xs' => c <- f x ;; cs <- mapM f xs' ;; Ok (c :: cs)
  end.

Fixpoint zipM {A B C : Type} (f : A -> B -> result C)
  (xs : list A) (ys : list B) : result (list C) :=
  match xs, ys with
  | x :: xs', y :: ys' => c <- f x y ;; cs <- zipM f xs' ys' ;; Ok (c :: cs)
  | _, _ => Ok []
  end.

(** One dimension of a broadcast binary operation: equal sizes pair up, a
    size of 1 is repeated, anything else is a size mismatch. *)
Definition bzip {A B C : Type} (f : A -> B -> result C)
  (xs : list A) (ys : list B) : result (list C) :=
  if Nat.eqb (length xs) (length ys) then zipM f xs ys
  else match ys, xs with
       | [y], _ => mapM (fun x => f x y) xs
       | _, [x] => mapM (fun y => f x y) ys
       | _, _ => ferr "The size of tensor a must match the size of tensor b"
       end.

Definition scalar (op : R -> R -> R) (a b : R) : result R := Ok (op a b).

(** [a op b] for tensors of equal rank. *)
Definition bop1 (op : R -> R -> R) : T1 -> T1 -> result T1 := bzip (scalar op).
Definition bop2 (op : R -> R -> R) : T2 -> T2 -> result T2 := bzip (bop1 op).
Definition bop3 (op : R -> R -> R) : T3 -> T3 -> result T3 := bzip (bop2 op).

(** [a op b] for [a] of rank 2 and [b] of rank 1. *)
Definition bop2_1 (op : R -> R -> R) (a : T2) (b : T1) : result T2 :=
  mapM (fun row => bop1 op row b) a.

Definition map1 (f : R -> R) : T1 -> T1 := map f.
Definition map2 (f : R -> R) : T2 -> T2 := map (map1 f).
Definition map3 (f : R -> R) : T3 -> T3 := map (map2 f).

Definition sum (x : T1) : R := fold_right Rplus 0 x.

Definition dot (u v : T1) : R := sum (map (fun p => fst p * snd p) (combine u v)).

(** The first [n] rows of [d] elements each of the flat data [l]. *)
Fixpoint chunks (n d : nat) (l : list R) : T2 :=
  match n with
  | O => []
  | S n' => firstn d l :: chunks n' d (skipn d l)
  end.

(** [t.view(-1, d)] for the contiguous data [l] of [t]. *)
Definition view_rows (l : list R) (d : nat) : result T2 :=
  if Nat.eqb d 0 then ferr "cannot reshape: the unspecified dimension is ambiguous"
  else if Nat.eqb (length l mod d) 0 then Ok (chunks (length l / d) d l)
  else ferr "shape is invalid for input size".

Definition column (j : nat) (w : T2) : T1 := map (fun row => nth j row 0) w.

(** [torch.mm(a, w)]. *)
Definition mm (a w : T2) : result T2 :=
  if forallb (fun row => Nat.eqb (length row) (length w)) a
  then Ok (map (fun row =>
                  map (fun j => dot row (column j w))
                      (seq 0 (length (hd [] w)))) a)
  else ferr "mat1 and mat2 shapes cannot be multiplied".

(** [torch.sum(a, 1, keepdim=True)] for [a] of rank 2. *)
Definition sum1_keepdim (a : T2) : T2 := map (fun row => [sum row]) a.

(** [torch.unsqueeze(a, -1)] for [a] of rank 2. *)
Definition unsqueeze_last (a : T2) : T3 := map (map (fun v => [v])) a.

Definition vadd (u v : T1) : T1 := map (fun p => fst p + snd p) (combine u v).

(** The sum of the rows of a matrix. *)
Definition sum_rows (m : T2) : T1 :=
  match m with
  | [] => []
  | r :: rest => fold_left vadd rest r
  end.

(** [torch.sum(w, 1)] for [w] of rank 3. *)
Definition sum1 (w : T3) : T2 := map sum_rows w.

Definition relu (v : R) : R := Rmax 0 v.
Definition sigmoid (v : R) : R := 1 / (1 + exp (- v)).

(** [nn.Linear]: [weight] is (out_features, in_features). *)
Record Linear : Type := mkLinear { lin_weight : T2; lin_bias : T1 }.

Definition Linear_forward (l : Linear) (x : T2) : result T2 :=
  if forallb (fun row => Nat.eqb (length row) (length (hd [] (lin_weight l)))) x
  then Ok (map (fun row =>
                  map (fun wb => dot row (fst wb) + snd wb)
                      (combine (lin_weight l) (lin_bias l))) x)
  else ferr "linear: mat1 and mat2 shapes cannot be multiplied".

(** [nn.Conv1d(cin, cout, kernel_size=1, padding=0)]: [pw_weight] is
    (cout, cin), the kernel dimension of size 1 being dropped; the output at
    each position is the linear image of the channels at that position. *)
Record PointwiseConv : Type := mkPointwiseConv { pw_weight : T2; pw_bias : T1 }.

Definition PointwiseConv_forward (c : PointwiseConv) (x : T3) : result T3 :=
  if forallb (fun xb : T2 =>
                Nat.eqb (length xb) (length (hd [] (pw_weight c)))) x
  then Ok (map (fun xb : T2 =>
                  map (fun wb =>
                         map (fun l => dot (fst wb) (column l xb) + snd wb)
                             (seq 0 (length (hd [] xb))))
                      (combine (pw_weight c) (pw_bias c))) x)
  else ferr "conv1d: wrong number of input channels".

(** [nn.AdaptiveAvgPool1d(1)]. *)
Definition AdaptiveAvgPool1d_1 (x : T3) : result T3 :=
  if forallb (forallb (fun row : T1 => negb (Nat.eqb (length row) 0))) x
  then Ok (map (map (fun row : T1 => [sum row / INR (length row)])) x)
  else ferr "adaptive pooling: expected non-zero size for non-batch dimensions".

(** A layer whose arithmetic is left to the framework (a convolution, a
    batch norm, a [nn.Sequential] of the two).  The running statistics that a
    batch norm updates in training mode are not part of the value it
    returns and are not modelled. *)
Definition Layer : Type := T3 -> result T3.

(** *** class Attention *)

(** [att_weight] is (feature_dim, 1); [att_b] exists only when [att_bias]
    is set and then has step_dim entries. *)
Record Attention : Type := mkAttention {
  att_bias : bool;
  feature_dim : nat;
  step_dim : nat;
  att_weight : T2;
  att_b : T1 }.

(** Lines 44 to 58 of [Attention.forward]: the coefficients [a]. *)
Definition Attention_coefficients (self : Attention) (x : T3) (mask : option T2)
  : result T2 :=
  v <- view_rows (concat (concat x)) (feature_dim self) ;;
  e <- mm v (att_weight self) ;;
  eij <- view_rows (concat e) (step_dim self) ;;
  eij <- (if att_bias self then bop2_1 Rplus eij (att_b self) else Ok eij) ;;
  let eij := map2 tanh eij in
  let a := map2 exp eij in
  a <- match mask with
       | Some k => bop2 Rmult a k
       | None => Ok a
       end ;;
  q <- bop2 Rdiv a (sum1_keepdim a) ;;
  Ok (map2 (fun v => v + 1e-10) q).

Definition Attention_forward (self : Attention) (x : T3) (mask : option T2)
  : result T2 :=
  a <- Attention_coefficients self x mask ;;
  weighted_input <- bop3 Rmult x (unsqueeze_last a) ;;
  Ok (sum1 weighted_input).

(** *** class HighwayMLP *)

Record HighwayMLP : Type := mkHighwayMLP {
  activation_function : T2 -> T2;
  gate_activation : T2 -> T2;
  normal_layer : Linear;
  gate_layer : Linear }.

Definition HighwayMLP_forward (self : HighwayMLP) (x : T2) : result T2 :=
  n <- Linear_forward (normal_layer self) x ;;
  let normal_layer_result := activation_function self n in
  g <- Linear_forward (gate_layer self) x ;;
  let gate_layer_result := gate_activation self g in
  multiplyed_gate_and_normal <- bop2 Rmult normal_layer_result gate_layer_result ;;
  multiplyed_gate_and_input <-
    bop2 Rmult (map2 (fun v => 1 - v) gate_layer_result) x ;;
  bop2 Rplus multiplyed_gate_and_normal multiplyed_gate_and_input.

(** *** class SEModule *)

Record SEModule : Type := mkSEModule { fc1 : PointwiseConv; fc2 : PointwiseConv }.

(** [SEModule.forward] up to the last line: the tensor [x] that
    [module_input] is multiplied by. *)
Definition SEModule_gate (self : SEModule) (x : T3) : result T3 :=
  x <- AdaptiveAvgPool1d_1 x ;;
  x <- PointwiseConv_forward (fc1 self) x ;;
  let x := map3 relu x in
  x <- PointwiseConv_forward (fc2 self) x ;;
  Ok (map3 sigmoid x).

Definition SEModule_forward (self : SEModule) (x : T3) : result T3 :=
  let module_input := x in
  x <- SEModule_gate self x ;;
  bop3 Rmult module_input x.

(** *** class Bottleneck and class SEResNetBlock *)

(** The attributes [Bottleneck.forward] reads; the subclasses set the
    convolutions and batch norms, [self.relu] is [nn.ReLU(inplace=True)] in
    all of them (no tensor it overwrites is read again under another name). *)
Record Bottleneck : Type := mkBottleneck {
  conv1 : Layer; bn1 : Layer;
  conv2 : Layer; bn2 : Layer;
  conv3 : Layer; bn3 : Layer;
  se_module : SEModule;
  downsample : option Layer }.

Definition Bottleneck_forward (self : Bottleneck) (x : T3) : result T3 :=
  let residual := x in
  out <- conv1 self x ;;
  out <- bn1 self out ;;
  let out := map3 relu out in
  out <- conv2 self out ;;
  out <- bn2 self out ;;
  let out := map3 relu out in
  out <- conv3 self out ;;
  out <- bn3 self out ;;
  residual <- match downsample self with
              | Some d => d x
              | None => Ok residual
              end ;;
  se <- SEModule_forward (se_module self) out ;;
  out <- bop3 Rplus se residual ;;
  Ok (map3 relu out).

Record SEResNetBlock : Type := mkSEResNetBlock {
  rb_conv1 : Layer; rb_bn1 : Layer;
  rb_conv2 : Layer; rb_bn2 : Layer;
  rb_se_module : SEModule;
  rb_downsample : option Layer }.

Definition SEResNetBlock_forward (self : SEResNetBlock) (x : T3) : result T3 :=
  let residual := x in
  out <- rb_conv1 self x ;;
  out <- rb_bn1 self out ;;
  let out := map3 relu out in
  out <- rb_conv2 self out ;;
  out <- rb_bn2 self out ;;
  let out := map3 relu out in
  residual <- match rb_downsample self with
              | Some d => d x
              | None => Ok residual
              end ;;
  se <- SEModule_forward (rb_se_module self) out ;;
  out <- bop3 Rplus se residual ;;
  Ok (map3 relu out).

Inductive Block : Type :=
| BottleneckBlock (b : Bottleneck)
| ResNetBlock (b : SEResNetBlock).

Definition Block_forward (b : Block) (x : T3) : result T3 :=
  match b with
  | BottleneckBlock b => Bottleneck_forward b x
  | ResNetBlock b => SEResNetBlock_forward b x
  end.

(** [nn.Sequential.forward]. *)
Fixpoint Sequential_forward {L : Type} (fwd : L -> T3 -> result T3)
  (layers : list L) (x : T3) : result T3 :=
  match layers with
  | [] => Ok x
  | l :: rest => x' <- fwd l x ;; Sequential_forward fwd rest x'
  end.

(** *** class SENet *)

(** A recurrent layer returns its output and its final hidden state. *)
Definition Recurrent : Type := T3 -> result (T3 * T3).

Record SENet : Type := mkSENet {
  layer0 : list Layer;
  layer1 : list Block;
  layer2 : list Block;
  layer3 : list Block;
  layer4 : list Block;
  avg_pool : Layer;
  highway_layers : list HighwayMLP;
  last_linear : Linear;
  lstm : Recurrent;
  gru : Recurrent;
  attention_layer : Attention }.

Definition forward_features (self : SENet) (x : T3) : result T3 :=
  x <- Sequential_forward (fun l : Layer => l) (layer0 self) x ;;
  x <- Sequential_forward Block_forward (layer1 self) x ;;
  x <- Sequential_forward Block_forward (layer2 self) x ;;
  x <- Sequential_forward Block_forward (layer3 self) x ;;
  x <- Sequential_forward Block_forward (layer4 self) x ;;
  Ok x.

Definition logits (self : SENet) (x : T3) : result T2 :=
  out <- gru self x ;;
  let x := fst out in
  x <- Attention_forward (attention_layer self) x None ;;
  x <- Linear_forward (last_linear self) x ;;
  Ok x.

Definition SENet_forward (self : SENet) (x : T3) : result T2 :=
  x <- forward_features self x ;;
  x <- logits self x ;;
  Ok x.

(** *** Notions the statements below are about *)

Definition has_shape1 (n : nat) (v : T1) : bool := Nat.eqb (length v) n.

Definition has_shape2 (n m : nat) (x : T2) : bool :=
  Nat.eqb (length x) n && forallb (has_shape1 m) x.

Definition has_shape3 (b c l : nat) (x : T3) : bool :=
  Nat.eqb (length x) b && forallb (has_shape2 c l) x.

(** Entries of a tensor; an index out of range reads 0. *)
Definition entry1 (x : T1) (i : nat) : R := nth i x 0.
Definition entry2 (x : T2) (i j : nat) : R := entry1 (nth i x []) j.
Definition entry3 (x : T3) (i j k : nat) : R := entry2 (nth i x []) j k.

(** The sum of [f t] for [t] from 0 up to, and without, [n]. *)
Definition sum_upto (n : nat) (f : nat -> R) : R := sum (map f (seq 0 n)).

Definition zipWith {A B C : Type} (f : A -> B -> C)
  (xs : list A) (ys : list B) : list C :=
  map (fun p => f (fst p) (snd p)) (combine xs ys).

(** Kleisli composition: [f] and then [g], unless [f] fails. *)
Definition and_then {A B C : Type} (f : A -> result B) (g : B -> result C)
  : A -> result C :=
  fun a => bind (f a) g.

Infix ">=>" := and_then (at level 55, right associativity).

(** C3 in the words of the claim: the five stages, the recurrent layer, the
    first of its two outputs, the attention, the classifier. *)
Definition claimed_pipeline (self : SENet) : T3 -> result T2 :=
  Sequential_forward (fun l : Layer => l) (layer0 self) >=>
  Sequential_forward Block_forward (layer1 self) >=>
  Sequential_forward Block_forward (layer2 self) >=>
  Sequential_forward Block_forward (layer3 self) >=>
  Sequential_forward Block_forward (layer4 self) >=>
  gru self >=>
  (fun out => Ok (fst out)) >=>
  (fun x => Attention_forward (attention_layer self) x None) >=>
  Linear_forward (last_linear self).

(** C6 in the words of the claim: the three convolutions, each followed by
    its batch norm, and the skip connection. *)
Definition pure (f : R -> R) : Layer := fun x => Ok (map3 f x).

Definition main_path (self : Bottleneck) : Layer :=
  conv1 self >=> bn1 self >=> pure relu >=>
  conv2 self >=> bn2 self >=> pure relu >=>
  conv3 self >=> bn3 self.

Definition skip_connection (self : Bottleneck) : Layer :=
  match downsample self with
  | Some d => d
  | None => fun x => Ok x
  end.

Definition claimed_block (self : Bottleneck) (x : T3) : result T3 :=
  out <- main_path self x ;;
  residual <- skip_connection self x ;;
  se <- SEModule_forward (se_module self) out ;;
  s <- bop3 Rplus se residual ;;
  Ok (map3 relu s).

(** C7: the transformed signal, the gate and their mix. *)
Definition Linear_wf (fin fout : nat) (l : Linear) : bool :=
  has_shape2 fout fin (lin_weight l) && has_shape1 fout (lin_bias l).

Definition transformed (self : HighwayMLP) (x : T2) : result T2 :=
  n <- Linear_forward (normal_layer self) x ;; Ok (activation_function self n).

Definition gate (self : HighwayMLP) (x : T2) : result T2 :=
  g <- Linear_forward (gate_layer self) x ;; Ok (gate_activation self g).

(** The weights a gate value [g] puts on the transformed signal and on the
    input. *)
Definition mix_weights (g : R) : R * R := (g, 1 - g).

Definition mix (g h x : R) : R :=
  fst (mix_weights g) * h + snd (mix_weights g) * x.

(** C5: the sizes of a squeeze-and-excitation module. *)
Definition PointwiseConv_wf (cin cout : nat) (c : PointwiseConv) : bool :=
  has_shape2 cout cin (pw_weight c) && has_shape1 cout (pw_bias c).

(** [SEModule(channels, reduction)] was constructed: the assertion held,
    the quotient [channels // reduction] was defined, no tensor of negative
    size was asked for, and the two convolutions have the sizes given. *)
Definition SEModule_wf (channels reduction : Z) (self : SEModule) : bool :=
  (reduction <? channels)%Z && negb (reduction =? 0)%Z &&
  (0 <=? channels)%Z && (0 <=? channels / reduction)%Z &&
  PointwiseConv_wf (Z.to_nat channels) (Z.to_nat (channels / reduction))
    (fc1 self) &&
  PointwiseConv_wf (Z.to_nat (channels / reduction)) (Z.to_nat channels)
    (fc2 self).

(** C5 in the words of the claim: global average pooling to length 1 (one
    number per channel of batch element [b]), a convolution of kernel size
    1 on a length of 1 as an affine map of the vector of channels, and the
    gate sigmoid(fc2(relu(fc1(avg_pool(x))))) of channel [c]. *)
Definition global_average (x : T3) (b : nat) : T1 :=
  map (fun row : T1 => sum row / INR (length row)) (nth b x []).

Definition affine (c : PointwiseConv) (v : T1) : T1 :=
  map (fun wb : T1 * R => dot (fst wb) v + snd wb)
      (combine (pw_weight c) (pw_bias c)).

Definition claimed_gate (self : SEModule) (x : T3) (b c : nat) : R :=
  sigmoid
    (entry1 (affine (fc2 self)
               (map relu (affine (fc1 self) (global_average x b)))) c).

(** C8 and C10: an attention layer as its constructor leaves it. *)
Definition Attention_wf (self : Attention) : bool :=
  has_shape2 (feature_dim self) 1 (att_weight self) &&
  (if att_bias self then has_shape1 (step_dim self) (att_b self) else true).

(** The learned score of step [t] of batch element [b]:
    exp(tanh(x_t . weight + b_t)). *)
Definition claimed_score (self : Attention) (x : T3) (b t : nat) : R :=
  exp (tanh (dot (nth t (nth b x []) []) (column 0 (att_weight self))
             + entry1 (att_b self) t)).

(** The coefficients in closed form: per batch element, the scores (with or
    without the bias) divided by their sum, plus 1e-10. *)
Definition scores (self : Attention) (xb : T2) : T1 :=
  let e := map (fun x_t => dot x_t (column 0 (att_weight self))) xb in
  let e := if att_bias self then zipWith Rplus e (att_b self) else e in
  map exp (map tanh e).

Definition normalise (r : T1) : T1 := map (fun v => v / sum r + 1e-10) r.

(** *** Small concrete modules, to run the statements on *)

(** A [HighwayMLP(2, activation_function=F.relu, gate_activation=F.sigmoid)]
    with the gate bias at -2. *)
Definition sample_highway : HighwayMLP :=
  mkHighwayMLP (map2 relu) (map2 sigmoid)
    (mkLinear [[1; 0]; [0; 1]] [0; 0])
    (mkLinear [[1; 1]; [1; -1]] [-2; -2]).

(** An [SEModule(2, 1)]. *)
Definition sample_se : SEModule :=
  mkSEModule (mkPointwiseConv [[1; 0]; [0; 1]] [0; 0])
             (mkPointwiseConv [[1; 1]; [0; 1]] [0; 1]).

(** An [Attention(2, 3)] with bias. *)
Definition sample_attention : Attention :=
  mkAttention true 2 3 [[1]; [-1]] [0; 0; 0].

(** A bottleneck whose convolutions and batch norms are the identity, around
    the [SEModule(2, 1)] above, without [downsample]. *)
Definition sample_block : Block :=
  BottleneckBlock
    (mkBottleneck (fun x => Ok x) (fun x => Ok x) (fun x => Ok x)
       (fun x => Ok x) (fun x => Ok x) (fun x => Ok x) sample_se None).

End Value.

(** * Properties of the shape level *)

Module ShapeProofs.

Import Shape.
Local Open Scope Z_scope.

(** ** The monads *)

Lemma bind_ok {A B : Type} (r : result A) (f : A -> result B) (b : B) :
  bind r f = Ok b -> exists a, r = Ok a /\ f a = Ok b.
Proof. destruct r as [a|e]; simpl; intros H; [eauto | discriminate]. Qed.

Lemma rbind_ok {A B : Type} (m : Run A) (f : A -> Run B) (b : B) (t : list Kind) :
  rbind m f = (Ok b, t) ->
  exists a t1 t2, m = (Ok a, t1) /\ f a = (Ok b, t2) /\ t = t1 ++ t2.
Proof.
  destruct m as [[a|e] t1]; simpl; [|discriminate].
  destruct (f a) as [r t2] eqn:E. intros H. inversion H; subst.
  exists a, t1, t2. auto.
Qed.

Lemma call_ok {A : Type} (k : Kind) (body : Run A) (a : A) (t : list Kind) :
  call k body = (Ok a, t) -> exists t', body = (Ok a, t') /\ t = k :: t'.
Proof.
  unfold call. destruct body as [r t']. intros H. inversion H; subst. eauto.
Qed.


Lemma foreign_ok {A : Type} (a : A) : foreign (Ok a).
Proof. intros e H; discriminate. Qed.

Lemma foreign_framework {A : Type} (msg : string) :
  foreign (@Err A (FrameworkError msg)).
Proof. intros e H; inversion H; reflexivity. Qed.

Lemma foreign_bind {A B : Type} (r : result A) (f : A -> result B) :
  foreign r -> (forall a, foreign (f a)) -> foreign (bind r f).
Proof.
  intros Hr Hf. destruct r as [a|e]; simpl; [apply Hf|].
  intros e' H. inversion H; subst. apply Hr. reflexivity.
Qed.

Lemma tame_ret {A : Type} (P : Kind -> bool) (a : A) : tame P (ret a).
Proof. split; [reflexivity | intros e H; discriminate]. Qed.

Lemma tame_lift {A : Type} (P : Kind -> bool) (r : result A) :
  foreign r -> tame P (lift r).
Proof. intros H. split; [reflexivity | exact H]. Qed.

Lemma tame_call {A : Type} (P : Kind -> bool) (k : Kind) (body : Run A) :
  P k = true -> tame P body -> tame P (call k body).
Proof.
  unfold tame, call. destruct body as [r t]. simpl. intros Hk [Ht He].
  rewrite Hk, Ht. auto.
Qed.

Lemma tame_rbind {A B : Type} (P : Kind -> bool) (m : Run A) (f : A -> Run B) :
  tame P m -> (forall a, tame P (f a)) -> tame P (rbind m f).
Proof.
  unfold tame. destruct m as [[a|e] t]; simpl; intros [Ht He] Hf.
  - specialize (Hf a). destruct (f a) as [r t']. simpl in *.
    destruct Hf as [Ht' He']. rewrite forallb_app, Ht, Ht'. split; auto.
  - split; auto. intros e0 H. inversion H; subst. apply He. reflexivity.
Qed.

(** ** Failures of the tensor operations come from the framework *)

Ltac foreign_step :=
  first
    [ apply foreign_ok
    | apply foreign_framework
    | apply foreign_bind; [| intros ?]
    | match goal with
      | |- foreign (if ?b then _ else _) => destruct b
      | |- foreign (match ?x with _ => _ end) => destruct x
      end ].

Lemma broadcast_rev_foreign (a b : list Z) : foreign (broadcast_rev a b).
Proof.
  revert b. induction a as [|x a IH]; intros [|y b]; simpl;
    try apply foreign_ok.
  apply foreign_bind; [apply IH | intros rest]. repeat foreign_step.
Qed.

Lemma broadcast_foreign (a b : shape) : foreign (broadcast a b).
Proof.
  unfold broadcast. apply foreign_bind; [apply broadcast_rev_foreign|].
  intros r. apply foreign_ok.
Qed.

Lemma view_rows_foreign (n d : Z) : foreign (view_rows n d).
Proof. unfold view_rows. repeat foreign_step. Qed.

Lemma mm_foreign (a b : shape) : foreign (mm a b).
Proof. unfold mm. repeat foreign_step. Qed.

Lemma reduce1_keepdim_foreign (s : shape) : foreign (reduce1_keepdim s).
Proof. unfold reduce1_keepdim. repeat foreign_step. Qed.

Lemma sum1_foreign (s : shape) : foreign (sum1 s).
Proof. unfold sum1. repeat foreign_step. Qed.

Lemma cat1_foreign (a b : shape) : foreign (cat1 a b).
Proof. unfold cat1. repeat foreign_step. Qed.

Lemma adaptive_pool1_foreign (x : shape) : foreign (adaptive_pool1 x).
Proof. unfold adaptive_pool1. repeat foreign_step. Qed.

Create HintDb tame.

#[local] Hint Resolve broadcast_foreign view_rows_foreign mm_foreign
  reduce1_keepdim_foreign sum1_foreign cat1_foreign adaptive_pool1_foreign
  : tame.

(** ** Every forward pass is tame *)

Ltac tame_step :=
  first
    [ apply tame_ret
    | apply tame_call; [reflexivity |]
    | apply tame_rbind; [| intros ?]
    | apply tame_lift; first [solve [auto with tame] | repeat foreign_step] ].

Lemma Conv1d_forward_tame (c : Conv1d) (x : shape) :
  tame wired (Conv1d_forward c x).
Proof. unfold Conv1d_forward. repeat tame_step. Qed.

Lemma BatchNorm1d_forward_tame (b : BatchNorm1d) (x : shape) :
  tame wired (BatchNorm1d_forward b x).
Proof. unfold BatchNorm1d_forward. repeat tame_step. Qed.

Lemma ReLU_forward_tame (x : shape) : tame wired (ReLU_forward x).
Proof. unfold ReLU_forward. repeat tame_step. Qed.

Lemma Sigmoid_forward_tame (x : shape) : tame wired (Sigmoid_forward x).
Proof. unfold Sigmoid_forward. repeat tame_step. Qed.

Lemma MaxPool1d_forward_tame (p : MaxPool1d) (x : shape) :
  tame wired (MaxPool1d_forward p x).
Proof. unfold MaxPool1d_forward. repeat tame_step. Qed.

Lemma AdaptiveAvgPool1d_forward_tame (x : shape) :
  tame wired (AdaptiveAvgPool1d_forward x).
Proof. unfold AdaptiveAvgPool1d_forward. repeat tame_step. Qed.

Lemma Linear_forward_tame (l : Linear) (x : shape) :
  tame wired (Linear_forward l x).
Proof. unfold Linear_forward. repeat tame_step. Qed.

Lemma RNN_forward_tame (r : RNN) (x : shape) : tame wired (RNN_forward r x).
Proof.
  unfold RNN_forward. apply tame_call; [destruct (rnn_cls r); reflexivity|].
  repeat tame_step.
Qed.

#[local] Hint Resolve Conv1d_forward_tame BatchNorm1d_forward_tame
  ReLU_forward_tame Sigmoid_forward_tame MaxPool1d_forward_tame
  AdaptiveAvgPool1d_forward_tame Linear_forward_tame RNN_forward_tame : tame.

Ltac tame_auto := repeat first [solve [auto with tame] | tame_step].

Lemma SEModule_forward_tame (m : SEModule) (x : shape) :
  tame wired (SEModule_forward m x).
Proof. unfold SEModule_forward. tame_auto. Qed.

Lemma Downsample_forward_tame (d : Downsample) (x : shape) :
  tame wired (Downsample_forward d x).
Proof. unfold Downsample_forward. tame_auto. Qed.

#[local] Hint Resolve SEModule_forward_tame Downsample_forward_tame : tame.

Lemma Bottleneck_forward_tame (b : Bottleneck) (x : shape) :
  tame wired (Bottleneck_forward b x).
Proof.
  unfold Bottleneck_forward.
  apply tame_call; [destruct (bt_cls b); reflexivity|].
  destruct (downsample b); tame_auto.
Qed.

Lemma SEResNetBlock_forward_tame (b : SEResNetBlock) (x : shape) :
  tame wired (SEResNetBlock_forward b x).
Proof.
  unfold SEResNetBlock_forward. destruct (rb_downsample b); tame_auto.
Qed.

Lemma Block_forward_tame (b : Block) (x : shape) :
  tame wired (Block_forward b x).
Proof.
  destruct b; [apply Bottleneck_forward_tame | apply SEResNetBlock_forward_tame].
Qed.

Lemma Layer0_forward_tame (l : string * Layer0) (x : shape) :
  tame wired (Layer0_forward l x).
Proof. unfold Layer0_forward. destruct (snd l); auto with tame. Qed.

Lemma Sequential_forward_tame {L : Type} (fwd : L -> shape -> Run shape)
  (layers : list L) :
  (forall l x, tame wired (fwd l x)) ->
  forall x, tame wired (Sequential_forward fwd layers x).
Proof.
  intros Hf x. unfold Sequential_forward. apply tame_call; [reflexivity|].
  revert x. induction layers as [|l rest IH]; intros x; simpl.
  - apply tame_ret.
  - apply tame_rbind; [apply Hf | intros x'; apply IH].
Qed.

Lemma Attention_forward_tame (m : Attention) (x : shape) (mask : option shape) :
  tame wired (Attention_forward m x mask).
Proof.
  unfold Attention_forward. apply tame_call; [reflexivity|]. apply tame_lift.
  repeat first [solve [auto with tame] | foreign_step].
Qed.

Lemma SENet_forward_tame (m : SENet) (x : shape) :
  tame wired (SENet_forward m x).
Proof.
  unfold SENet_forward, forward_features, logits.
  repeat first
    [ apply Sequential_forward_tame;
      [first [exact Layer0_forward_tame | exact Block_forward_tame]]
    | apply Attention_forward_tame
    | solve [auto with tame]
    | tame_step ].
Qed.

(** ** Constructors: where an exception can come from *)

Lemma alloc_foreign (dims : shape) : foreign (alloc dims).
Proof. unfold alloc. repeat foreign_step. Qed.

Lemma floordiv_foreign (a b : Z) : foreign (floordiv a b).
Proof.
  unfold floordiv. destruct (b =? 0); [|apply foreign_ok].
  intros e H. inversion H. reflexivity.
Qed.

#[local] Hint Resolve alloc_foreign floordiv_foreign : tame.

Ltac foreign_auto := repeat first [solve [auto with tame] | foreign_step].

Lemma Conv1d_init_foreign (cin cout k stride padding groups : Z) (bias : bool) :
  foreign (Conv1d_init cin cout k stride padding groups bias).
Proof. unfold Conv1d_init. foreign_auto. Qed.

Lemma BatchNorm1d_init_foreign (n : Z) : foreign (BatchNorm1d_init n).
Proof. unfold BatchNorm1d_init. foreign_auto. Qed.

Lemma Linear_init_foreign (fin fout : Z) : foreign (Linear_init fin fout).
Proof. unfold Linear_init. foreign_auto. Qed.

#[local] Hint Resolve Conv1d_init_foreign BatchNorm1d_init_foreign
  Linear_init_foreign : tame.

Lemma Attention_init_foreign (feature_dim step_dim : Z) (bias : bool) :
  foreign (Attention_init feature_dim step_dim bias).
Proof. unfold Attention_init. foreign_auto. Qed.

Lemma HighwayMLP_init_foreign (input_size gate_bias : Z) (f g : Activation) :
  foreign (HighwayMLP_init input_size gate_bias f g).
Proof. unfold HighwayMLP_init. foreign_auto. Qed.

Lemma CBAM_Module_init_foreign (channels reduction : Z) :
  foreign (CBAM_Module_init channels reduction).
Proof. unfold CBAM_Module_init. foreign_auto. Qed.

Lemma SCSEModule_init_foreign (channels reduction : Z) :
  foreign (SCSEModule_init channels reduction).
Proof. unfold SCSEModule_init. foreign_auto. Qed.

(** The assertion of [SEModule.__init__] is the one check of the file. *)
Lemma SEModule_init_assertion (channels reduction : Z) :
  (exists e, SEModule_init channels reduction = Err e /\ repo_defined e = true)
  <-> channels <= reduction.
Proof.
  unfold SEModule_init. destruct (channels >? reduction) eqn:E; simpl.
  - split.
    + intros [e [H He]].
      assert (F : foreign (cr <- floordiv channels reduction ;;
                           fc1 <- Conv1d_init channels cr 1 1 0 1 true ;;
                           cr' <- floordiv channels reduction ;;
                           fc2 <- Conv1d_init cr' channels 1 1 0 1 true ;;
                           Ok (mkSEModule fc1 fc2))) by foreign_auto.
      rewrite (F e H) in He. discriminate.
    + intros H. apply Z.gtb_lt in E. lia.
  - split.
    + intros _. rewrite Z.gtb_ltb in E. apply Z.ltb_ge in E. exact E.
    + intros _. exists (AssertionError reduction). auto.
Qed.

Lemma SEModule_init_repo_error (channels reduction : Z) (e : Error) :
  SEModule_init channels reduction = Err e -> repo_defined e = true ->
  channels <= reduction.
Proof. intros H He. apply SEModule_init_assertion. eauto. Qed.

(** A block constructor fails with the repository's own exception only
    through the [SEModule] it builds. *)
Lemma block_init_repo_error (block : BlockClass)
  (inplanes planes groups reduction stride : Z) (d : option Downsample)
  (e : Error) :
  block_init block inplanes planes groups reduction stride d = Err e ->
  repo_defined e = true ->
  planes * expansion block <= reduction.
Proof.
  intros H He.
  assert (K : forall c, SEModule_init c reduction = Err e -> c <= reduction)
    by (intros c Hc; eapply SEModule_init_repo_error; eauto).
  destruct block; simpl in H;
    match type of H with
    | bind ?c _ = Err _ => destruct c eqn:B; simpl in H; [discriminate|]
    end;
    inversion H; subst; clear H; rename B into H;
    unfold SEBottleneck_init, SEResNetBottleneck_init,
      SEResNeXtBottleneck_init, SEResNetBlock_init in H;
    repeat match type of H with
      | bind (SEModule_init ?c ?r) _ = Err _ =>
          destruct (SEModule_init c r) eqn:S; simpl in H;
          [discriminate | inversion H; subst; apply K in S; simpl; lia]
      | bind ?c _ = Err _ =>
          let F := fresh "F" in
          assert (F : foreign c) by auto with tame;
          destruct c; simpl in H;
          [ clear F
          | inversion H; subst; rewrite (F e eq_refl) in He; discriminate ]
      end.
Qed.

(** What a successful construction says about the arguments; these are the
    conditions under which the value level speaks of an [SEModule]. *)
Lemma SEModule_init_ok_sizes (channels reduction : Z) (m : SEModule) :
  SEModule_init channels reduction = Ok m ->
  reduction < channels /\ reduction <> 0 /\
  0 <= channels /\ 0 <= channels / reduction.
Proof.
  unfold SEModule_init, floordiv, Conv1d_init, alloc.
  destruct (channels >? reduction) eqn:E; simpl; [|discriminate].
  destruct (reduction =? 0) eqn:Z0; simpl; [discriminate|].
  destruct (channels mod 1 =? 0); simpl; [|discriminate].
  destruct ((channels / reduction) mod 1 =? 0); simpl; [|discriminate].
  destruct (0 <=? channels / reduction) eqn:Q; simpl; [|discriminate].
  destruct (0 <=? channels / 1) eqn:C; simpl; [|discriminate].
  intros _. apply Z.gtb_lt in E. apply Z.eqb_neq in Z0.
  apply Z.leb_le in Q, C. rewrite Z.div_1_r in C. lia.
Qed.

(** C4, as stated, fails: constructing [SEModule(16, 16)] raises the
    assertion that [SEModule.__init__] itself makes. *)
Lemma SEModule_init_16_16_raises_own_assertion :
  exists e, SEModule_init 16 16 = Err e /\ repo_defined e = true.
Proof. exists (AssertionError 16). split; reflexivity. Qed.

(** C4, amended: the assertion of [SEModule.__init__] is the only check the
    file makes itself.  Constructing an [SEModule] fails with it exactly when
    [channels <= reduction]; the constructors of [Attention], [HighwayMLP],
    [CBAM_Module] and [SCSEModule] and every forward pass of [SENet] fail, if
    they fail, with an exception of the runtime or the tensor framework. *)
Theorem only_SEModule_checks_its_arguments :
  (forall channels reduction,
      (exists e, SEModule_init channels reduction = Err e /\
                 repo_defined e = true)
      <-> channels <= reduction) /\
  (forall feature_dim step_dim bias e,
      Attention_init feature_dim step_dim bias = Err e ->
      repo_defined e = false) /\
  (forall input_size gate_bias f g e,
      HighwayMLP_init input_size gate_bias f g = Err e ->
      repo_defined e = false) /\
  (forall channels reduction e,
      CBAM_Module_init channels reduction = Err e -> repo_defined e = false) /\
  (forall channels reduction e,
      SCSEModule_init channels reduction = Err e -> repo_defined e = false) /\
  (forall m x e, fst (SENet_forward m x) = Err e -> repo_defined e = false).
Proof.
  split; [exact SEModule_init_assertion|].
  split; [intros; eapply Attention_init_foreign; eauto|].
  split; [intros; eapply HighwayMLP_init_foreign; eauto|].
  split; [intros; eapply CBAM_Module_init_foreign; eauto|].
  split; [intros; eapply SCSEModule_init_foreign; eauto|].
  intros m x e H. exact (proj2 (SENet_forward_tame m x) e H).
Qed.

(** ** What the constructor of SENet fixes *)

Ltac inv_bind H :=
  repeat match type of H with
    | bind ?c _ = Ok _ =>
        let E := fresh "E" in
        destruct c eqn:E; cbn [bind] in H; [| discriminate H]
    | (let (_, _) := ?p in _) = Ok _ => destruct p
    end.

Lemma _make_layer_nonempty (i : Z) (block : BlockClass)
  (planes blocks groups reduction stride dks dpad : Z)
  (l : list Block) (i' : Z) :
  _make_layer i block planes blocks groups reduction stride dks dpad = Ok (l, i') ->
  l <> [].
Proof.
  unfold _make_layer. intros H. inv_bind H. inversion H. discriminate.
Qed.

Lemma replicateM_length {A : Type} (n : nat) (f : result A) (l : list A) :
  replicateM n f = Ok l -> length l = n.
Proof.
  revert l. induction n as [|n IH]; simpl; intros l H.
  - inversion H. reflexivity.
  - inv_bind H. inversion H. simpl. f_equal. apply IH. reflexivity.
Qed.

Section Built.

Variable pool : string -> result Mod.
Variables (block : BlockClass) (layers : list Z).
Variables (groups reduction in_chans inplanes0 : Z) (input_3x3 : bool).
Variables (downsample_kernel_size downsample_padding declared_classes : Z).
Variable global_pool : string.
Variable m : SENet.

Hypothesis built :
  SENet_build pool block layers groups reduction in_chans inplanes0 input_3x3
    downsample_kernel_size downsample_padding declared_classes global_pool
  = Ok m.

Lemma SENet_build_fields :
  num_classes m = declared_classes /\
  last_linear m = mkLinear 256 9 /\
  gru m = mkRNN GRU 400 128 /\
  lstm m = mkRNN LSTM 400 128 /\
  attention_layer m = mkAttention true 256 2048 /\
  layer1 m <> [] /\
  length (highway_layers m) = 2%nat /\
  pool global_pool = Ok (avg_pool m).
Proof.
  pose proof built as H. unfold SENet_build in H.
  inv_bind H. inversion H; subst; clear H. cbn [num_classes last_linear gru
    lstm attention_layer layer1 highway_layers avg_pool].
  repeat match goal with
    | E : Linear_init _ _ = Ok _ |- _ => vm_compute in E; inversion E; clear E
    | E : LSTM_init _ _ = Ok _ |- _ => vm_compute in E; inversion E; clear E
    | E : GRU_init _ _ = Ok _ |- _ => vm_compute in E; inversion E; clear E
    | E : Attention_init _ _ _ = Ok _ |- _ => vm_compute in E; inversion E; clear E
    end.
  repeat split; try reflexivity.
  - eapply _make_layer_nonempty; eassumption.
  - match goal with
    | E : replicateM _ _ = Ok ?l |- length ?l = _ =>
        apply replicateM_length in E; exact E
    end.
Qed.

End Built.

(** ** Which modules a forward pass calls *)




Ltac run_inv :=
  repeat match goal with
    | H : call _ _ = (Ok _, _) |- _ =>
        apply call_ok in H; destruct H as (? & H & ->)
    | H : rbind _ _ = (Ok _, _) |- _ =>
        let H1 := fresh "Step" in
        apply rbind_ok in H; destruct H as (? & ? & ? & H1 & H & ->)
    | H : ret _ = (Ok _, _) |- _ => inversion H; subst; clear H
    end.






Lemma Linear_forward_width (l : Linear) (x s : shape) (t : list Kind) :
  Linear_forward l x = (Ok s, t) -> last s 0 = lin_out l.
Proof.
  unfold Linear_forward, call, lift. destruct (rev x) as [|d front].
  - intros H. inversion H.
  - destruct (d =? lin_in l); intros H; inversion H.
    simpl. apply last_last.
Qed.

Lemma forward_width (m : SENet) (x s : shape) (t : list Kind) :
  SENet_forward m x = (Ok s, t) -> last s 0 = lin_out (last_linear m).
Proof.
  intros H. unfold SENet_forward, forward_features, logits in H. run_inv.
  eapply Linear_forward_width; eassumption.
Qed.

(** C1: the width of the output is not the declared number of classes.
    [num_classes] is stored on the model, but the classifier is
    [nn.Linear(256, 9)]: whatever was declared, an output that is returned
    has 9 as its last dimension. *)
Theorem forward_output_width_is_always_9
  (pool : string -> result Mod) (block : BlockClass) (layers : list Z)
  (groups reduction in_chans inplanes0 : Z) (input_3x3 : bool)
  (downsample_kernel_size downsample_padding declared_classes : Z)
  (global_pool : string) (m : SENet) (store : Mod)
  (x s : shape) (t : list Kind) :
  SENet_init pool block layers groups reduction in_chans inplanes0 input_3x3
    downsample_kernel_size downsample_padding declared_classes global_pool
  = Ok (m, store) ->
  SENet_forward m x = (Ok s, t) ->
  num_classes m = declared_classes /\ last s 0 = 9.
Proof.
  unfold SENet_init. intros H Hf. inv_bind H. inversion H; subst; clear H.
  destruct (SENet_build_fields _ _ _ _ _ _ _ _ _ _ _ _ _ E)
    as (Hn & Hl & _).
  split; [exact Hn|].
  rewrite (forward_width _ _ _ _ Hf), Hl. reflexivity.
Qed.

(** [senet154()] declares 1000 classes by default; on a batch of one 12-lead
    signal of 12800 samples it returns a tensor of shape (1, 9). *)
Lemma forward_output_width_is_always_9_witness :
  exists m store,
    senet154 sample_pool 1000 12 "max" = Ok (m, store) /\
    fst (SENet_forward m [1; 12; 12800]) = Ok [1; 9] /\
    num_classes m = 1000 /\
    last [1; 9] 0 = 9.
Proof.
  destruct (senet154 sample_pool 1000 12 "max") as [[m store]|e] eqn:E;
    [| vm_compute in E; discriminate E].
  exists m, store.
  assert (F : fst (SENet_forward m [1; 12; 12800]) = Ok [1; 9]).
  { vm_compute in E. inversion E. vm_compute. reflexivity. }
  destruct (SENet_forward m [1; 12; 12800]) as [r t] eqn:R. simpl in F. subst r.
  destruct (forward_output_width_is_always_9 _ _ _ _ _ _ _ _ _ _ _ _ _ _ _ _ _ E R)
    as [Hn Hw].
  repeat split; assumption.
Defined.




(** ** The loop over self.modules() *)

Lemma _weight_init_other (m : Mod) (d : nat) :
  is_2d (cls_of m) = false -> _weight_init m d = Ok (m, d).
Proof.
  destruct m as [k ps cs]. destruct k; simpl; intros H;
    first [reflexivity | discriminate H].
Qed.

Lemma init_param_foreign (name : string) (i : Init)
  (ps : list (string * Param)) : foreign (init_param name i ps).
Proof. unfold init_param. foreign_auto. Qed.

Lemma _weight_init_foreign (m : Mod) (d : nat) : foreign (_weight_init m d).
Proof.
  destruct m as [k ps cs]. destruct k; simpl;
    first [apply foreign_ok | foreign_step; [apply init_param_foreign|]];
    intros; first [apply foreign_ok | foreign_step];
    first [apply init_param_foreign | intros; apply foreign_ok].
Qed.

Lemma weight_init_over_foreign (ps : list path) :
  forall store d, foreign (weight_init_over ps store d).
Proof.
  induction ps as [|p ps IH]; intros store d; cbn [weight_init_over].
  - apply foreign_ok.
  - destruct (get_at p store) as [m|]; [|apply IH].
    apply foreign_bind; [apply _weight_init_foreign|].
    intros r. apply IH.
Qed.

Lemma get_at_no_2d (p : path) :
  forall m c, no_2d m = true -> get_at p m = Some c -> no_2d c = true.
Proof.
  induction p as [|i p IH]; intros [k ps cs] c H G; cbn [get_at] in G.
  - inversion G; subst. exact H.
  - cbn [children_of] in G.
    destruct (nth_error cs i) as [c'|] eqn:N; [|discriminate G].
    simpl in H. apply andb_true_iff in H. destruct H as [_ Hcs].
    rewrite forallb_forall in Hcs.
    apply (IH c' c); [apply Hcs; eapply nth_error_In; exact N | exact G].
Qed.

Lemma update_nth_same {A : Type} (f : A -> A) (l : list A) (i : nat) (a : A) :
  nth_error l i = Some a -> f a = a -> update_nth i f l = l.
Proof.
  revert i. induction l as [|b l IH]; intros [|i] N F; simpl in *;
    try discriminate N.
  - inversion N; subst. rewrite F. reflexivity.
  - f_equal. apply IH; assumption.
Qed.

(** Writing back the module that was read changes nothing. *)
Lemma update_at_same (p : path) :
  forall m c, get_at p m = Some c -> update_at p (fun _ => c) m = m.
Proof.
  induction p as [|i p IH]; intros [k ps cs] c G; cbn [get_at] in G.
  - inversion G. reflexivity.
  - cbn [children_of] in G.
    destruct (nth_error cs i) as [c'|] eqn:N; [|discriminate G].
    cbn [update_at]. f_equal.
    apply (update_nth_same _ _ _ c' N). apply IH. exact G.
Qed.

Lemma weight_init_over_no_2d (ps : list path) (m : Mod) (d : nat) :
  no_2d m = true -> weight_init_over ps m d = Ok (m, d).
Proof.
  intros H. induction ps as [|p ps IH]; cbn [weight_init_over];
    [reflexivity|].
  destruct (get_at p m) as [c|] eqn:G; [|exact IH].
  pose proof (get_at_no_2d p m c H G) as Hc.
  rewrite _weight_init_other
    by (destruct c as [k ? ?]; simpl in Hc; apply andb_true_iff in Hc;
        destruct Hc as [Hk _]; apply negb_true_iff; exact Hk).
  cbn [bind fst snd]. rewrite (update_at_same p m c G). exact IH.
Qed.


Lemma weight_init_over_app (ps1 ps2 : list path) :
  forall store d,
    weight_init_over (ps1 ++ ps2) store d
    = (r <- weight_init_over ps1 store d ;;
       weight_init_over ps2 (fst r) (snd r)).
Proof.
  induction ps1 as [|p ps1 IH]; intros store d;
    cbn [app weight_init_over]; [reflexivity|].
  destruct (get_at p store) as [m|]; [|apply IH].
  destruct (_weight_init m d) as [r|e]; cbn [bind]; [apply IH | reflexivity].
Qed.

Lemma update_nth_middle {A : Type} (f : A -> A) (done rest : list A) (a : A) :
  update_nth (length done) f (done ++ a :: rest) = done ++ f a :: rest.
Proof.
  induction done as [|b done IH]; simpl; [reflexivity|]. f_equal. exact IH.
Qed.

Lemma nth_error_middle {A : Type} (done rest : list A) (a : A) :
  nth_error (done ++ a :: rest) (length done) = Some a.
Proof. induction done as [|b done IH]; simpl; [reflexivity | exact IH]. Qed.

(** The loop over modules below one child is the loop in that child. *)
Lemma weight_init_over_child (k : Kind) (ps : list (string * Param))
  (done rest : list Mod) (qs : list path) :
  forall c d,
    weight_init_over (map (cons (length done)) qs)
      (Node k ps (done ++ c :: rest)) d
    = (r <- weight_init_over qs c d ;;
       Ok (Node k ps (done ++ fst r :: rest), snd r)).
Proof.
  induction qs as [|q qs IH]; intros c d; cbn [map weight_init_over];
    [reflexivity|].
  cbn [get_at children_of]. rewrite nth_error_middle.
  destruct (get_at q c) as [m|]; [|apply IH].
  destruct (_weight_init m d) as [[m' d']|e]; cbn [bind fst snd];
    [|reflexivity].
  cbn [update_at]. rewrite update_nth_middle. apply IH.
Qed.

Lemma modules_node (k : Kind) (ps : list (string * Param)) (cs : list Mod) :
  modules (Node k ps cs) = [] :: children_paths 0 cs.
Proof.
  reflexivity.
Qed.

Lemma app_cons_assoc {A : Type} (done rest : list A) (a : A) :
  done ++ a :: rest = (done ++ [a]) ++ rest.
Proof. rewrite <- app_assoc. reflexivity. Qed.

Lemma weight_init_over_children_no_2d (k : Kind) (ps : list (string * Param))
  (post : list Mod) :
  forall done d,
    forallb no_2d post = true ->
    weight_init_over (children_paths (length done) post)
      (Node k ps (done ++ post)) d
    = Ok (Node k ps (done ++ post), d).
Proof.
  induction post as [|c post IH]; intros done d H; cbn [children_paths];
    [reflexivity|].
  simpl in H. apply andb_true_iff in H. destruct H as [Hc Hpost].
  rewrite weight_init_over_app, weight_init_over_child.
  rewrite (weight_init_over_no_2d _ c d Hc). cbn [bind fst snd].
  rewrite (app_cons_assoc done post c).
  replace (S (length done)) with (length (done ++ [c]))
    by (rewrite length_app; simpl; lia).
  apply IH. exact Hpost.
Qed.

(** When one child alone may hold a 2-D layer, the loop over the children
    is the loop in that child. *)
Lemma weight_init_over_children (k : Kind) (ps : list (string * Param))
  (w : Mod) (post : list Mod) (pre : list Mod) :
  forall done d,
    forallb no_2d pre = true -> forallb no_2d post = true ->
    weight_init_over (children_paths (length done) (pre ++ w :: post))
      (Node k ps (done ++ pre ++ w :: post)) d
    = (r <- weight_init_loop w d ;;
       Ok (Node k ps (done ++ pre ++ fst r :: post), snd r)).
Proof.
  induction pre as [|c pre IH]; intros done d Hpre Hpost;
    cbn [app children_paths]; rewrite weight_init_over_app,
      weight_init_over_child.
  - unfold weight_init_loop.
    destruct (weight_init_over (modules w) w d) as [[w' d']|e];
      cbn [bind fst snd]; [|reflexivity].
    rewrite (app_cons_assoc done post w').
    replace (S (length done)) with (length (done ++ [w']))
      by (rewrite length_app; simpl; lia).
    apply weight_init_over_children_no_2d. exact Hpost.
  - simpl in Hpre. apply andb_true_iff in Hpre. destruct Hpre as [Hc Hpre].
    rewrite (weight_init_over_no_2d _ c d Hc). cbn [bind fst snd].
    rewrite (app_cons_assoc done (pre ++ w :: post) c).
    replace (S (length done)) with (length (done ++ [c]))
      by (rewrite length_app; simpl; lia).
    rewrite (IH (done ++ [c]) d Hpre Hpost).
    destruct (weight_init_loop w d) as [[w' d']|e]; cbn [bind fst snd];
      [|reflexivity].
    rewrite <- !app_cons_assoc. reflexivity.
Qed.

Lemma forallb_map_all {A B : Type} (P : B -> bool) (f : A -> B) (l : list A) :
  (forall a, P (f a) = true) -> forallb P (map f l) = true.
Proof. intros H. induction l as [|a l IH]; simpl; [reflexivity|]. rewrite H, IH. reflexivity. Qed.

Lemma Block_tree_no_2d (b : Block) : no_2d (Block_tree b) = true.
Proof.
  destruct b as [b|b]; simpl.
  - unfold Bottleneck_tree. destruct (bt_cls b), (downsample b); reflexivity.
  - unfold SEResNetBlock_tree. destruct (rb_downsample b); reflexivity.
Qed.

Lemma Layer0_tree_no_2d (l : string * Layer0) : no_2d (Layer0_tree l) = true.
Proof. unfold Layer0_tree. destruct (snd l); reflexivity. Qed.

Lemma SENet_tree_no_2d (m : SENet) :
  no_2d (avg_pool m) = true -> no_2d (SENet_tree m) = true.
Proof.
  intros Hp. unfold SENet_tree. cbn [no_2d is_2d negb andb forallb].
  rewrite Hp.
  rewrite (forallb_map_all no_2d Layer0_tree _ Layer0_tree_no_2d).
  rewrite !(forallb_map_all no_2d Block_tree _ Block_tree_no_2d).
  rewrite (forallb_map_all no_2d HighwayMLP_tree _ (fun h => eq_refl)).
  unfold RNN_tree. destruct (rnn_cls (lstm m)), (rnn_cls (gru m)); reflexivity.
Qed.

(** The loop over the modules of an [SENet] is the loop over the modules of
    its pooling wrapper: no other module is touched. *)
Lemma weight_init_loop_SENet (m : SENet) (d : nat) :
  weight_init_loop (SENet_tree m) d
  = (r <- weight_init_loop (avg_pool m) d ;;
     Ok (SENet_tree (with_avg_pool m (fst r)), snd r)).
Proof.
  unfold weight_init_loop at 1. unfold SENet_tree at 1 2.
  rewrite modules_node. cbn [weight_init_over get_at].
  rewrite _weight_init_other by reflexivity. cbn [bind fst snd update_at].
  match goal with
  | |- weight_init_over (children_paths 0 [?c0; ?c1; ?c2; ?c3; ?c4; ?w; ?c6;
                                           ?c7; ?c8; ?c9; ?c10]) _ _ = _ =>
      pose proof (weight_init_over_children KSENet [] w [c6; c7; c8; c9; c10]
                    [c0; c1; c2; c3; c4] [] d) as W
  end.
  cbn [length app] in W. rewrite W; clear W.
  - destruct (weight_init_loop (avg_pool m) d) as [[w' d']|e];
      reflexivity.
  - cbn [forallb no_2d is_2d negb andb].
    rewrite (forallb_map_all no_2d Layer0_tree _ Layer0_tree_no_2d).
    rewrite !(forallb_map_all no_2d Block_tree _ Block_tree_no_2d).
    reflexivity.
  - cbn [forallb no_2d is_2d negb andb].
    rewrite (forallb_map_all no_2d HighwayMLP_tree _ (fun h => eq_refl)).
    unfold RNN_tree. destruct (rnn_cls (lstm m)), (rnn_cls (gru m));
      reflexivity.
Qed.








End ShapeProofs.

(** * Properties of the value level *)

Module ValueProofs.

Import Value.
Local Open Scope R_scope.

(** C3: [SENet.forward] is the composition of [layer0] to [layer4], the
    GRU, the first output of the GRU, the attention layer and the linear
    classifier, with nothing in between. *)
Theorem forward_is_the_claimed_pipeline (self : SENet) (x : T3) :
  SENet_forward self x = claimed_pipeline self x.
Proof.
  unfold SENet_forward, forward_features, logits, claimed_pipeline, and_then.
  repeat match goal with
    | |- context [bind ?c _] =>
        lazymatch c with
        | context [bind] => fail
        | _ => destruct c; cbn [bind]; try reflexivity
        end
    end.
Qed.

(** C6: [Bottleneck.forward] runs the three convolutions, each followed by
    its batch norm, and returns [relu(se_module(main_path(x)) + residual)],
    the residual being [downsample(x)] when a downsample is set and [x]
    otherwise. *)
Theorem Bottleneck_forward_is_residual_block (self : Bottleneck) (x : T3) :
  Bottleneck_forward self x = claimed_block self x.
Proof.
  unfold Bottleneck_forward, claimed_block, main_path, skip_connection,
    and_then, pure.
  destruct (downsample self) as [d|];
  repeat match goal with
    | |- context [bind ?c _] =>
        lazymatch c with
        | context [bind] => fail
        | _ => destruct c; cbn [bind]; try reflexivity
        end
    end.
Qed.

(** ** Lists, shapes and broadcasting *)

Lemma has_shape1_spec (n : nat) (v : T1) :
  has_shape1 n v = true <-> length v = n.
Proof. unfold has_shape1. apply Nat.eqb_eq. Qed.

Lemma has_shape2_spec (n m : nat) (x : T2) :
  has_shape2 n m x = true <->
  length x = n /\ forall row, In row x -> length row = m.
Proof.
  unfold has_shape2. rewrite andb_true_iff, Nat.eqb_eq, forallb_forall.
  split; intros [H1 H2]; split; auto; intros row Hr;
    apply has_shape1_spec; auto.
Qed.

Lemma has_shape3_spec (b c l : nat) (x : T3) :
  has_shape3 b c l x = true <->
  length x = b /\ forall xb, In xb x -> has_shape2 c l xb = true.
Proof.
  unfold has_shape3. rewrite andb_true_iff, Nat.eqb_eq, forallb_forall.
  reflexivity.
Qed.

Lemma zipWith_length {A B C : Type} (f : A -> B -> C) (xs : list A) (ys : list B) :
  length xs = length ys -> length (zipWith f xs ys) = length xs.
Proof.
  intros H. unfold zipWith. rewrite length_map, length_combine, H.
  apply Nat.min_id.
Qed.

Lemma zipWith_nth {A B C : Type} (f : A -> B -> C) (xs : list A) (ys : list B)
  (i : nat) (da : A) (db : B) (dc : C) :
  (i < length xs)%nat -> (i < length ys)%nat ->
  nth i (zipWith f xs ys) dc = f (nth i xs da) (nth i ys db).
Proof.
  revert ys i. induction xs as [|x xs IH]; intros [|y ys] i Hx Hy;
    simpl in *; try lia.
  destruct i as [|i]; [reflexivity|]. apply IH; lia.
Qed.

Lemma zipWith_in {A B C : Type} (f : A -> B -> C) (xs : list A) (ys : list B)
  (c : C) :
  In c (zipWith f xs ys) -> exists x y, In x xs /\ In y ys /\ c = f x y.
Proof.
  unfold zipWith. intros H. apply in_map_iff in H.
  destruct H as [[x y] [E Hin]]. exists x, y. simpl in E.
  split; [eapply in_combine_l; eauto|].
  split; [eapply in_combine_r; eauto | auto].
Qed.

Lemma map_nth_in {A B : Type} (f : A -> B) (l : list A) (i : nat) (da : A) (db : B) :
  (i < length l)%nat -> nth i (map f l) db = f (nth i l da).
Proof.
  intros H. rewrite (nth_indep _ db (f da)) by (rewrite length_map; exact H).
  apply map_nth.
Qed.

Lemma mapM_ok {A C : Type} (f : A -> result C) (g : A -> C) (xs : list A) :
  (forall x, In x xs -> f x = Ok (g x)) -> mapM f xs = Ok (map g xs).
Proof.
  induction xs as [|x xs IH]; intros H; simpl; [reflexivity|].
  rewrite (H x (or_introl eq_refl)). simpl.
  rewrite IH by (intros y Hy; apply H; right; exact Hy). reflexivity.
Qed.

Lemma zipM_ok {A B C : Type} (f : A -> B -> result C) (g : A -> B -> C)
  (xs : list A) (ys : list B) :
  (forall x y, In (x, y) (combine xs ys) -> f x y = Ok (g x y)) ->
  zipM f xs ys = Ok (zipWith g xs ys).
Proof.
  revert ys. induction xs as [|x xs IH]; intros [|y ys] H; simpl;
    try reflexivity.
  rewrite (H x y (or_introl eq_refl)). simpl.
  rewrite (IH ys) by (intros a b Hab; apply H; right; exact Hab).
  reflexivity.
Qed.

Lemma bzip_same {A B C : Type} (f : A -> B -> result C) (g : A -> B -> C)
  (xs : list A) (ys : list B) :
  length xs = length ys ->
  (forall x y, In (x, y) (combine xs ys) -> f x y = Ok (g x y)) ->
  bzip f xs ys = Ok (zipWith g xs ys).
Proof.
  intros Hl H. unfold bzip. rewrite (proj2 (Nat.eqb_eq _ _) Hl).
  apply zipM_ok. exact H.
Qed.

Lemma bop1_same (op : R -> R -> R) (u v : T1) :
  length u = length v -> bop1 op u v = Ok (zipWith op u v).
Proof. intros H. apply bzip_same; [exact H | reflexivity]. Qed.

(** An operand with a single entry is repeated along the other one. *)
Lemma bop1_scalar_right (op : R -> R -> R) (u : T1) (y : R) :
  bop1 op u [y] = Ok (map (fun v => op v y) u).
Proof.
  unfold bop1, bzip. destruct (Nat.eqb (length u) (length [y])) eqn:E.
  - apply Nat.eqb_eq in E. destruct u as [|v [|w u]]; simpl in E; try discriminate.
    reflexivity.
  - apply mapM_ok. reflexivity.
Qed.

Lemma bop2_same (op : R -> R -> R) (n m : nat) (a b : T2) :
  has_shape2 n m a = true -> has_shape2 n m b = true ->
  bop2 op a b = Ok (zipWith (zipWith op) a b) /\
  has_shape2 n m (zipWith (zipWith op) a b) = true.
Proof.
  intros Ha Hb. apply has_shape2_spec in Ha, Hb.
  destruct Ha as [La Ra], Hb as [Lb Rb]. split.
  - apply bzip_same; [exact (eq_trans La (eq_sym Lb))|].
    intros u v Huv. apply bop1_same.
    rewrite (Ra u), (Rb v); eauto using in_combine_l, in_combine_r.
  - apply has_shape2_spec. split.
    + rewrite zipWith_length; [exact La | exact (eq_trans La (eq_sym Lb))].
    + intros row Hr. apply zipWith_in in Hr. destruct Hr as (u & v & Hu & Hv & ->).
      rewrite zipWith_length; rewrite (Ra u Hu); [reflexivity|].
      symmetry. apply Rb. exact Hv.
Qed.

Lemma map2_shape (f : R -> R) (n m : nat) (a : T2) :
  has_shape2 n m a = true -> has_shape2 n m (map2 f a) = true.
Proof.
  intros H. apply has_shape2_spec in H. destruct H as [L Hr].
  apply has_shape2_spec. unfold map2, map1. split.
  - rewrite length_map. exact L.
  - intros row Hin. apply in_map_iff in Hin. destruct Hin as (r & <- & Hin).
    rewrite length_map. apply Hr. exact Hin.
Qed.

Lemma entry2_zipWith (op : R -> R -> R) (n m : nat) (a b : T2) (i j : nat) :
  has_shape2 n m a = true -> has_shape2 n m b = true ->
  (i < n)%nat -> (j < m)%nat ->
  entry2 (zipWith (zipWith op) a b) i j = op (entry2 a i j) (entry2 b i j).
Proof.
  intros Ha Hb Hi Hj. apply has_shape2_spec in Ha, Hb.
  destruct Ha as [La Ra], Hb as [Lb Rb].
  unfold entry2, entry1.
  rewrite (zipWith_nth (zipWith op) a b i [] [] []) by lia.
  apply zipWith_nth.
  - rewrite (Ra (nth i a [])); [exact Hj | apply nth_In; lia].
  - rewrite (Rb (nth i b [])); [exact Hj | apply nth_In; lia].
Qed.

Lemma entry2_map2 (f : R -> R) (n m : nat) (a : T2) (i j : nat) :
  has_shape2 n m a = true -> (i < n)%nat -> (j < m)%nat ->
  entry2 (map2 f a) i j = f (entry2 a i j).
Proof.
  intros Ha Hi Hj. apply has_shape2_spec in Ha. destruct Ha as [La Ra].
  unfold entry2, entry1, map2, map1.
  rewrite (map_nth_in (map f) a i [] []) by lia.
  apply map_nth_in. rewrite (Ra (nth i a [])); [exact Hj | apply nth_In; lia].
Qed.

(** ** HighwayMLP *)

Lemma hd_length_square (n : nat) (w : T2) :
  has_shape2 n n w = true -> length (hd [] w) = n.
Proof.
  intros H. apply has_shape2_spec in H. destruct H as [L Hr].
  destruct w as [|r w]; simpl in *; [exact L|].
  apply Hr. left. reflexivity.
Qed.

Lemma Linear_forward_square (n B : nat) (l : Linear) (x : T2) :
  Linear_wf n n l = true -> has_shape2 B n x = true ->
  exists y, Linear_forward l x = Ok y /\ has_shape2 B n y = true.
Proof.
  unfold Linear_wf. intros Hl Hx. apply andb_true_iff in Hl.
  destruct Hl as [Hw Hb]. pose proof (hd_length_square _ _ Hw) as Hhd.
  apply has_shape2_spec in Hw, Hx. apply has_shape1_spec in Hb.
  destruct Hw as [Lw _], Hx as [Lx Rx].
  unfold Linear_forward.
  assert (C : forallb (fun row : list R =>
                         Nat.eqb (length row) (length (hd [] (lin_weight l))))
                      x = true).
  { apply forallb_forall. intros row Hr. apply Nat.eqb_eq.
    rewrite Hhd. apply Rx. exact Hr. }
  rewrite C. eexists. split; [reflexivity|].
  apply has_shape2_spec. split.
  - rewrite length_map. exact Lx.
  - intros row Hr. apply in_map_iff in Hr. destruct Hr as (r & <- & _).
    rewrite length_map, length_combine, Lw, Hb. apply Nat.min_id.
Qed.

Lemma mix_weights_sum (g : R) : fst (mix_weights g) + snd (mix_weights g) = 1.
Proof. unfold mix_weights. simpl. ring. Qed.

(** C7: on a batch of [B] rows of [n] features, a [HighwayMLP] of input size
    [n] whose two activations keep the shape returns, entry by entry,
    [g * H(x) + (1 - g) * x], where [H(x)] is the activated normal layer and
    [g] the activated gate layer; the two weights, [g] and [1 - g], add up
    to 1. *)
Theorem HighwayMLP_forward_mixes (self : HighwayMLP) (n B : nat) (x : T2) :
  Linear_wf n n (normal_layer self) = true ->
  Linear_wf n n (gate_layer self) = true ->
  (forall y, has_shape2 B n y = true ->
             has_shape2 B n (activation_function self y) = true) ->
  (forall y, has_shape2 B n y = true ->
             has_shape2 B n (gate_activation self y) = true) ->
  has_shape2 B n x = true ->
  exists h g y,
    transformed self x = Ok h /\
    gate self x = Ok g /\
    HighwayMLP_forward self x = Ok y /\
    has_shape2 B n y = true /\
    forall i j, (i < B)%nat -> (j < n)%nat ->
      entry2 y i j = entry2 g i j * entry2 h i j
                     + (1 - entry2 g i j) * entry2 x i j /\
      entry2 y i j = mix (entry2 g i j) (entry2 h i j) (entry2 x i j) /\
      fst (mix_weights (entry2 g i j)) + snd (mix_weights (entry2 g i j)) = 1.
Proof.
  intros Hn Hg Hact Hgact Hx.
  destruct (Linear_forward_square n B _ x Hn Hx) as (yn & En & Sn).
  destruct (Linear_forward_square n B _ x Hg Hx) as (yg & Eg & Sg).
  pose proof (Hact _ Sn) as Sh. pose proof (Hgact _ Sg) as Sgate.
  set (h := activation_function self yn) in *.
  set (g := gate_activation self yg) in *.
  pose proof (map2_shape (fun v => 1 - v) B n g Sgate) as Sneg.
  destruct (bop2_same Rmult B n h g Sh Sgate) as [E1 S1].
  destruct (bop2_same Rmult B n _ x Sneg Hx) as [E2 S2].
  destruct (bop2_same Rplus B n _ _ S1 S2) as [E3 S3].
  exists h, g. eexists.
  unfold transformed, gate, HighwayMLP_forward. rewrite En, Eg. cbn [bind].
  fold h. fold g. rewrite E1. cbn [bind]. rewrite E2. cbn [bind].
  split; [reflexivity|]. split; [reflexivity|]. split; [exact E3|].
  split; [exact S3|].
  intros i j Hi Hj.
  assert (V : entry2
                (zipWith (zipWith Rplus) (zipWith (zipWith Rmult) h g)
                   (zipWith (zipWith Rmult) (map2 (fun v => 1 - v) g) x)) i j
              = entry2 g i j * entry2 h i j + (1 - entry2 g i j) * entry2 x i j).
  { rewrite (entry2_zipWith Rplus B n) by assumption.
    rewrite (entry2_zipWith Rmult B n) by assumption.
    rewrite (entry2_zipWith Rmult B n) by assumption.
    rewrite (entry2_map2 _ B n) by assumption. ring. }
  split; [exact V|]. split; [|apply mix_weights_sum].
  rewrite V. unfold mix, mix_weights. simpl. reflexivity.
Qed.

Lemma HighwayMLP_forward_mixes_witness :
  exists h g y,
    transformed sample_highway [[1; 2]] = Ok h /\
    gate sample_highway [[1; 2]] = Ok g /\
    HighwayMLP_forward sample_highway [[1; 2]] = Ok y /\
    has_shape2 1 2 y = true /\
    forall i j, (i < 1)%nat -> (j < 2)%nat ->
      entry2 y i j = entry2 g i j * entry2 h i j
                     + (1 - entry2 g i j) * entry2 [[1; 2]] i j /\
      entry2 y i j = mix (entry2 g i j) (entry2 h i j) (entry2 [[1; 2]] i j) /\
      fst (mix_weights (entry2 g i j)) + snd (mix_weights (entry2 g i j)) = 1.
Proof.
  apply (HighwayMLP_forward_mixes sample_highway 2 1 [[1; 2]]).
  - reflexivity.
  - reflexivity.
  - intros y Hy. apply map2_shape. exact Hy.
  - intros y Hy. apply map2_shape. exact Hy.
  - reflexivity.
Defined.

(** ** SEModule *)

Lemma hd_length (n m : nat) (w : T2) :
  has_shape2 n m w = true -> (1 <= n)%nat -> length (hd [] w) = m.
Proof.
  intros H Hn. apply has_shape2_spec in H. destruct H as [L Hr].
  destruct w as [|r w]; simpl in *; [lia|]. apply Hr. left. reflexivity.
Qed.

Lemma map3_shape (f : R -> R) (b c l : nat) (x : T3) :
  has_shape3 b c l x = true -> has_shape3 b c l (map3 f x) = true.
Proof.
  intros H. apply has_shape3_spec in H. destruct H as [L Hr].
  apply has_shape3_spec. unfold map3. split.
  - rewrite length_map. exact L.
  - intros xb Hin. apply in_map_iff in Hin. destruct Hin as (r & <- & Hin).
    apply map2_shape. apply Hr. exact Hin.
Qed.

Lemma AdaptiveAvgPool1d_1_shape (B C L : nat) (x : T3) :
  has_shape3 B C L x = true -> (1 <= L)%nat ->
  exists p, AdaptiveAvgPool1d_1 x = Ok p /\ has_shape3 B C 1 p = true.
Proof.
  intros Hx HL. apply has_shape3_spec in Hx. destruct Hx as [Lx Rx].
  unfold AdaptiveAvgPool1d_1.
  assert (N : forallb (forallb (fun row : list R =>
                                  negb (Nat.eqb (length row) 0))) x = true).
  { apply forallb_forall. intros xb Hxb. apply forallb_forall. intros row Hr.
    specialize (Rx xb Hxb). apply has_shape2_spec in Rx.
    destruct Rx as [_ Rr]. rewrite (Rr row Hr).
    apply negb_true_iff, Nat.eqb_neq. lia. }
  rewrite N. eexists. split; [reflexivity|].
  apply has_shape3_spec. split; [rewrite length_map; exact Lx|].
  intros pb Hpb. apply in_map_iff in Hpb. destruct Hpb as (xb & <- & Hxb).
  specialize (Rx xb Hxb). apply has_shape2_spec in Rx. destruct Rx as [Lb _].
  apply has_shape2_spec. split; [rewrite length_map; exact Lb|].
  intros row Hr. apply in_map_iff in Hr. destruct Hr as (r & <- & _).
  reflexivity.
Qed.

Lemma hd_length_or (n m : nat) (w : T2) :
  has_shape2 n m w = true -> (1 <= n)%nat \/ m = O -> length (hd [] w) = m.
Proof.
  intros H [Hn|Hm]; [eapply hd_length; eauto|].
  apply has_shape2_spec in H. destruct H as [_ Hr].
  destruct w as [|r w]; simpl; [auto|]. apply Hr. left. reflexivity.
Qed.

Lemma PointwiseConv_forward_shape (cin cout B L : nat) (c : PointwiseConv)
  (x : T3) :
  PointwiseConv_wf cin cout c = true ->
  (1 <= cin /\ 1 <= cout)%nat \/ (cin = O /\ cout = O) ->
  has_shape3 B cin L x = true ->
  exists y, PointwiseConv_forward c x = Ok y /\ has_shape3 B cout L y = true.
Proof.
  unfold PointwiseConv_wf. intros Hc Hio Hx.
  apply andb_true_iff in Hc. destruct Hc as [Hw Hb].
  assert (Hhd : length (hd [] (pw_weight c)) = cin)
    by (apply (hd_length_or _ _ _ Hw); lia).
  apply has_shape2_spec in Hw. apply has_shape1_spec in Hb.
  destruct Hw as [Lw _].
  apply has_shape3_spec in Hx. destruct Hx as [Lx Rx].
  unfold PointwiseConv_forward.
  assert (K : forallb (fun xb : list (list R) =>
                         Nat.eqb (length xb) (length (hd [] (pw_weight c))))
                      x = true).
  { apply forallb_forall. intros xb Hxb. apply Nat.eqb_eq. rewrite Hhd.
    specialize (Rx xb Hxb). apply has_shape2_spec in Rx. apply Rx. }
  rewrite K. eexists. split; [reflexivity|].
  apply has_shape3_spec. split; [rewrite length_map; exact Lx|].
  intros yb Hyb. apply in_map_iff in Hyb. destruct Hyb as (xb & <- & Hxb).
  specialize (Rx xb Hxb).
  apply has_shape2_spec. split.
  - rewrite length_map, length_combine, Lw, Hb. apply Nat.min_id.
  - intros row Hr. apply in_map_iff in Hr. destruct Hr as (wb & <- & Hwb).
    rewrite length_map, length_seq.
    destruct Hio as [[Hin _]|[_ Hout]]; [exact (hd_length _ _ _ Rx Hin)|].
    destruct wb as [w b]. apply in_combine_l in Hwb. subst cout.
    destruct (pw_weight c); [contradiction | discriminate].
Qed.

(** Multiplying by a tensor with one entry per channel rescales the
    channels. *)
Lemma bop3_rescale (B C L : nat) (x g : T3) :
  has_shape3 B C L x = true -> has_shape3 B C 1 g = true ->
  exists y,
    bop3 Rmult x g = Ok y /\ has_shape3 B C L y = true /\
    forall b c l, (b < B)%nat -> (c < C)%nat -> (l < L)%nat ->
      entry3 y b c l = entry3 x b c l * entry3 g b c 0.
Proof.
  intros Hx Hg. apply has_shape3_spec in Hx, Hg.
  destruct Hx as [Lx Rx], Hg as [Lg Rg].
  set (rowf := fun (row gc : list R) => map (fun v => v * hd 0 gc) row).
  exists (zipWith (zipWith rowf) x g).
  assert (Inner : forall xb gb, In xb x -> In gb g ->
            bop2 Rmult xb gb = Ok (zipWith rowf xb gb)).
  { intros xb gb Hxb Hgb.
    specialize (Rx xb Hxb). specialize (Rg gb Hgb).
    apply has_shape2_spec in Rx, Rg. destruct Rx as [Lxb _], Rg as [Lgb Rgb].
    apply bzip_same; [exact (eq_trans Lxb (eq_sym Lgb))|].
    intros row gc Hin. apply in_combine_r in Hin. specialize (Rgb gc Hin).
    destruct gc as [|y [|z gc]]; simpl in Rgb; try discriminate.
    apply bop1_scalar_right. }
  split; [| split].
  - apply bzip_same; [exact (eq_trans Lx (eq_sym Lg))|].
    intros xb gb Hin. apply Inner;
      eauto using in_combine_l, in_combine_r.
  - apply has_shape3_spec. split.
    + rewrite zipWith_length; [exact Lx | exact (eq_trans Lx (eq_sym Lg))].
    + intros yb Hyb. apply zipWith_in in Hyb.
      destruct Hyb as (xb & gb & Hxb & Hgb & ->).
      specialize (Rx xb Hxb). specialize (Rg gb Hgb).
      apply has_shape2_spec in Rx, Rg. destruct Rx as [Lxb Rxb], Rg as [Lgb _].
      apply has_shape2_spec. split.
      * rewrite zipWith_length; [exact Lxb | exact (eq_trans Lxb (eq_sym Lgb))].
      * intros row Hr. apply zipWith_in in Hr.
        destruct Hr as (r & gc & Hr & _ & ->). unfold rowf.
        rewrite length_map. apply Rxb. exact Hr.
  - intros b c l Hb Hc Hl. unfold entry3, entry2, entry1.
    rewrite (zipWith_nth (zipWith rowf) x g b [] [] []) by lia.
    assert (Hxb : In (nth b x []) x) by (apply nth_In; lia).
    assert (Hgb : In (nth b g []) g) by (apply nth_In; lia).
    specialize (Rx _ Hxb). specialize (Rg _ Hgb).
    apply has_shape2_spec in Rx, Rg. destruct Rx as [Lxb Rxb], Rg as [Lgb Rgb].
    rewrite (zipWith_nth rowf _ _ c [] [] []) by lia.
    unfold rowf.
    assert (Hrow : In (nth c (nth b x []) []) (nth b x []))
      by (apply nth_In; lia).
    assert (Hgc : In (nth c (nth b g []) []) (nth b g []))
      by (apply nth_In; lia).
    rewrite (map_nth_in _ _ l 0 0) by (rewrite (Rxb _ Hrow); exact Hl).
    specialize (Rgb _ Hgc).
    destruct (nth c (nth b g []) []) as [|y [|z gc]]; simpl in Rgb;
      try discriminate.
    reflexivity.
Qed.

(** A tensor of shape (batch, n, 1) given by its (batch, n) entries. *)
Lemma AdaptiveAvgPool1d_1_closed (B C L : nat) (x : T3) :
  has_shape3 B C L x = true -> (1 <= L)%nat ->
  AdaptiveAvgPool1d_1 x
  = Ok (map (fun v : T1 => map (fun a => [a]) v)
          (map (map (fun row : T1 => sum row / INR (length row))) x)).
Proof.
  intros Hx HL. apply has_shape3_spec in Hx. destruct Hx as [Lx Rx].
  unfold AdaptiveAvgPool1d_1.
  assert (N : forallb (forallb (fun row : list R =>
                                  negb (Nat.eqb (length row) 0))) x = true).
  { apply forallb_forall. intros xb Hxb. apply forallb_forall. intros row Hr.
    specialize (Rx xb Hxb). apply has_shape2_spec in Rx.
    destruct Rx as [_ Rr]. rewrite (Rr row Hr).
    apply negb_true_iff, Nat.eqb_neq. lia. }
  rewrite N. f_equal. rewrite map_map. apply map_ext. intros xb.
  rewrite map_map. reflexivity.
Qed.

Lemma column_of_units (v : T1) : column 0 (map (fun a => [a]) v) = v.
Proof.
  unfold column. rewrite map_map. simpl. apply map_id.
Qed.

(** On a length of 1, a convolution of kernel size 1 is the affine map of
    the vector of channels. *)
Lemma PointwiseConv_forward_on_units (cin cout : nat) (c : PointwiseConv)
  (vs : list T1) :
  PointwiseConv_wf cin cout c = true ->
  (1 <= cin /\ 1 <= cout)%nat \/ (cin = O /\ cout = O) ->
  (forall v, In v vs -> length v = cin) ->
  PointwiseConv_forward c (map (fun v : T1 => map (fun a => [a]) v) vs)
  = Ok (map (fun v : T1 => map (fun a => [a]) v) (map (affine c) vs)).
Proof.
  unfold PointwiseConv_wf. intros Hc Hio Hvs.
  apply andb_true_iff in Hc. destruct Hc as [Hw Hb].
  assert (Hhd : length (hd [] (pw_weight c)) = cin)
    by (apply (hd_length_or _ _ _ Hw); lia).
  apply has_shape2_spec in Hw. destruct Hw as [Lw _].
  unfold PointwiseConv_forward.
  assert (K : forallb (fun xb : list (list R) =>
                         Nat.eqb (length xb) (length (hd [] (pw_weight c))))
                      (map (fun v : T1 => map (fun a => [a]) v) vs) = true).
  { apply forallb_forall. intros xb Hxb. apply in_map_iff in Hxb.
    destruct Hxb as (v & <- & Hv). apply Nat.eqb_eq.
    rewrite length_map, Hhd. apply Hvs. exact Hv. }
  rewrite K. f_equal. rewrite !map_map. apply map_ext_in. intros v Hv.
  unfold affine. rewrite map_map.
  destruct Hio as [[Hin _]|[_ Hout]].
  - specialize (Hvs v Hv).
    assert (Hone : length (hd [] (map (fun a : R => [a]) v)) = 1%nat)
      by (destruct v; [simpl in Hvs; lia | reflexivity]).
    apply map_ext. intros wb. rewrite Hone. cbn [seq map].
    rewrite column_of_units. reflexivity.
  - rewrite Hout in Lw. destruct (pw_weight c); [reflexivity | discriminate Lw].
Qed.

Lemma map3_on_units (f : R -> R) (vs : list T1) :
  map3 f (map (fun v : T1 => map (fun a => [a]) v) vs)
  = map (fun v : T1 => map (fun a => [a]) v) (map (map f) vs).
Proof.
  unfold map3, map2, map1. rewrite !map_map. apply map_ext. intros v.
  rewrite !map_map. reflexivity.
Qed.

Lemma affine_length (cin cout : nat) (c : PointwiseConv) (v : T1) :
  PointwiseConv_wf cin cout c = true -> length (affine c v) = cout.
Proof.
  unfold PointwiseConv_wf, affine. intros Hc.
  apply andb_true_iff in Hc. destruct Hc as [Hw Hb].
  apply has_shape2_spec in Hw. apply has_shape1_spec in Hb.
  destruct Hw as [Lw _].
  rewrite length_map, length_combine, Lw, Hb. apply Nat.min_id.
Qed.

(** The gate that [SEModule.forward] computes, in closed form. *)
Lemma SEModule_gate_closed (self : SEModule) (C Cr B L : nat) (x : T3) :
  PointwiseConv_wf C Cr (fc1 self) = true ->
  PointwiseConv_wf Cr C (fc2 self) = true ->
  (1 <= C /\ 1 <= Cr)%nat ->
  has_shape3 B C L x = true -> (1 <= L)%nat ->
  SEModule_gate self x
  = Ok (map (fun v : T1 => map (fun a => [a]) v)
          (map (fun xb : T2 =>
                  map sigmoid
                    (affine (fc2 self)
                       (map relu
                          (affine (fc1 self)
                             (map (fun row : T1 => sum row / INR (length row))
                                xb))))) x)).
Proof.
  intros H1 H2 Hsizes Hx HL.
  unfold SEModule_gate.
  rewrite (AdaptiveAvgPool1d_1_closed B C L x Hx HL). cbn [bind].
  pose proof Hx as Hx'. apply has_shape3_spec in Hx'. destruct Hx' as [_ Rx].
  rewrite (PointwiseConv_forward_on_units C Cr (fc1 self)); [| exact H1 | lia |].
  2:{ intros v Hv. apply in_map_iff in Hv. destruct Hv as (xb & <- & Hxb).
      rewrite length_map. specialize (Rx xb Hxb).
      apply has_shape2_spec in Rx. apply Rx. }
  cbn [bind]. rewrite map3_on_units.
  rewrite (PointwiseConv_forward_on_units Cr C (fc2 self)); [| exact H2 | lia |].
  2:{ intros v Hv. apply in_map_iff in Hv. destruct Hv as (u & <- & Hu).
      apply in_map_iff in Hu. destruct Hu as (w & <- & _).
      rewrite length_map. apply (affine_length C Cr). exact H1. }
  cbn [bind]. rewrite map3_on_units. f_equal. f_equal.
  rewrite !map_map. reflexivity.
Qed.

(** C5: for an [SEModule(channels, reduction)] (so [channels > reduction])
    and an input of shape (batch, channels, length), the gate that
    [SEModule.forward] computes is sigmoid(fc2(relu(fc1(avg_pool(x))))),
    with avg_pool the average over the whole length: it holds one number
    per batch element and channel, and [SEModule.forward] multiplies every
    entry of a channel by the number of that channel; the shape of the
    input is kept. *)
Theorem SEModule_forward_rescales_channels (self : SEModule)
  (channels reduction : Z) (B L : nat) (x : T3) :
  SEModule_wf channels reduction self = true ->
  has_shape3 B (Z.to_nat channels) L x = true ->
  (1 <= L)%nat ->
  exists g y,
    SEModule_gate self x = Ok g /\
    has_shape3 B (Z.to_nat channels) 1 g = true /\
    SEModule_forward self x = Ok y /\
    has_shape3 B (Z.to_nat channels) L y = true /\
    forall b c l, (b < B)%nat -> (c < Z.to_nat channels)%nat -> (l < L)%nat ->
      entry3 y b c l = entry3 x b c l * entry3 g b c 0 /\
      entry3 g b c 0 = claimed_gate self x b c /\
      entry3 y b c l = entry3 x b c l * claimed_gate self x b c.
Proof.
  unfold SEModule_wf. intros Hwf Hx HL.
  repeat (apply andb_true_iff in Hwf; destruct Hwf as [Hwf ?]).
  apply Z.ltb_lt in Hwf.
  repeat match goal with
    | H : negb (_ =? _)%Z = true |- _ => apply negb_true_iff, Z.eqb_neq in H
    | H : (_ <=? _)%Z = true |- _ => apply Z.leb_le in H
    end.
  set (C := Z.to_nat channels) in *.
  set (Cr := Z.to_nat (channels / reduction)) in *.
  assert (Hsizes : (1 <= C /\ 1 <= Cr)%nat \/ (C = O /\ Cr = O)).
  { destruct (Z.eq_dec channels 0) as [->|Hnz].
    - right. subst C Cr. rewrite Zdiv_0_l. split; reflexivity.
    - left. assert (0 < reduction)%Z.
      { destruct (Z_lt_le_dec 0 reduction) as [Hp|Hn]; [exact Hp|].
        assert (Hr : (reduction < 0)%Z) by lia.
        pose proof (Z_mult_div_ge_neg channels reduction Hr). nia. }
      assert (1 <= channels / reduction)%Z
        by (apply Z.div_le_lower_bound; lia).
      subst C Cr. lia. }
  destruct (AdaptiveAvgPool1d_1_shape B C L x Hx HL) as (p & Ep & Sp).
  destruct (PointwiseConv_forward_shape C Cr B 1 (fc1 self) p)
    as (y1 & E1 & S1); try assumption.
  pose proof (map3_shape relu _ _ _ _ S1) as S1'.
  destruct (PointwiseConv_forward_shape Cr C B 1 (fc2 self) (map3 relu y1))
    as (y2 & E2 & S2); try assumption; [lia|].
  pose proof (map3_shape sigmoid _ _ _ _ S2) as Sg.
  destruct (bop3_rescale B C L x (map3 sigmoid y2) Hx Sg)
    as (y & Ey & Sy & Hy).
  exists (map3 sigmoid y2), y.
  assert (G : SEModule_gate self x = Ok (map3 sigmoid y2)).
  { unfold SEModule_gate. rewrite Ep. cbn [bind]. rewrite E1. cbn [bind].
    rewrite E2. reflexivity. }
  split; [exact G|]. split; [exact Sg|].
  split; [unfold SEModule_forward; rewrite G; exact Ey|].
  split; [exact Sy|].
  intros b c l Hb Hc Hl.
  assert (Gate : entry3 (map3 sigmoid y2) b c 0 = claimed_gate self x b c).
  { destruct Hsizes as [Hpos|[HC _]]; [|lia].
    pose proof (SEModule_gate_closed self C Cr B L x) as Closed.
    rewrite G in Closed. specialize (Closed ltac:(assumption)
      ltac:(assumption) Hpos Hx HL).
    injection Closed as Closed'. rewrite Closed'. clear Closed'.
    apply has_shape3_spec in Hx. destruct Hx as [Lx _].
    unfold entry3, entry2, entry1, claimed_gate, global_average, entry1.
    rewrite (map_nth_in (fun v : T1 => map (fun a => [a]) v) _ b [] [])
      by (rewrite length_map; lia).
    rewrite (map_nth_in _ x b [] []) by lia.
    set (u := affine (fc2 self) _).
    assert (Lu : length u = C)
      by (apply (affine_length Cr C); assumption).
    rewrite (map_nth_in (fun a => [a]) _ c 0 [])
      by (rewrite length_map; lia).
    rewrite (map_nth_in sigmoid u c 0 0) by lia.
    reflexivity. }
  split; [exact (Hy b c l Hb Hc Hl)|]. split; [exact Gate|].
  rewrite (Hy b c l Hb Hc Hl), Gate. reflexivity.
Qed.

Lemma SEModule_forward_rescales_channels_witness :
  exists g y,
    SEModule_gate sample_se [[[1; 2; 3]; [4; 5; 6]]] = Ok g /\
    has_shape3 1 2 1 g = true /\
    SEModule_forward sample_se [[[1; 2; 3]; [4; 5; 6]]] = Ok y /\
    has_shape3 1 2 3 y = true /\
    forall b c l, (b < 1)%nat -> (c < 2)%nat -> (l < 3)%nat ->
      entry3 y b c l
      = entry3 [[[1; 2; 3]; [4; 5; 6]]] b c l * entry3 g b c 0 /\
      entry3 g b c 0
      = claimed_gate sample_se [[[1; 2; 3]; [4; 5; 6]]] b c /\
      entry3 y b c l
      = entry3 [[[1; 2; 3]; [4; 5; 6]]] b c l
        * claimed_gate sample_se [[[1; 2; 3]; [4; 5; 6]]] b c.
Proof.
  apply (SEModule_forward_rescales_channels sample_se 2%Z 1%Z 1 3
           [[[1; 2; 3]; [4; 5; 6]]]).
  - reflexivity.
  - reflexivity.
  - lia.
Defined.

(** ** Attention: view, mm and the coefficients *)

Lemma length_concat_uniform (d : nat) (rows : T2) :
  (forall r, In r rows -> length r = d) ->
  length (concat rows) = (length rows * d)%nat.
Proof.
  induction rows as [|r rows IH]; intros H; simpl; [reflexivity|].
  rewrite length_app, (H r (or_introl eq_refl)), IH; [reflexivity|].
  intros r' Hr'. apply H. right. exact Hr'.
Qed.

Lemma chunks_concat (d : nat) (rows : T2) :
  (forall r, In r rows -> length r = d) ->
  chunks (length rows) d (concat rows) = rows.
Proof.
  induction rows as [|r rows IH]; intros H; simpl; [reflexivity|].
  pose proof (H r (or_introl eq_refl)) as Hr. subst d.
  rewrite firstn_app, firstn_all, Nat.sub_diag, firstn_O, app_nil_r.
  rewrite skipn_app, skipn_all, Nat.sub_diag, skipn_O, app_nil_l.
  f_equal. apply IH. intros r' Hr'. apply H. right. exact Hr'.
Qed.

(** Viewing the data of consecutive rows of [d] entries as rows of [d]
    entries gives the rows back. *)
Lemma view_rows_concat (d : nat) (rows : T2) :
  (1 <= d)%nat -> (forall r, In r rows -> length r = d) ->
  view_rows (concat rows) d = Ok rows.
Proof.
  intros Hd H. unfold view_rows.
  destruct (Nat.eqb d 0) eqn:E; [apply Nat.eqb_eq in E; lia|].
  rewrite (length_concat_uniform d rows H).
  rewrite Nat.Div0.mod_mul, Nat.eqb_refl, Nat.div_mul by lia.
  rewrite (chunks_concat d rows H). reflexivity.
Qed.

Lemma in_concat_shape3 (B S F : nat) (x : T3) (r : list R) :
  has_shape3 B S F x = true -> In r (concat x) -> length r = F.
Proof.
  intros Hx Hr. apply has_shape3_spec in Hx. destruct Hx as [_ Rx].
  apply in_concat in Hr. destruct Hr as (xb & Hxb & Hr).
  specialize (Rx xb Hxb). apply has_shape2_spec in Rx. apply Rx. exact Hr.
Qed.

Lemma concat_singletons {A : Type} (f : A -> R) (l : list A) :
  concat (map (fun r => [f r]) l) = map f l.
Proof. induction l as [|a l IH]; simpl; [reflexivity|]. rewrite IH. reflexivity. Qed.

Lemma mm_column (F : nat) (v w : T2) :
  (1 <= F)%nat -> has_shape2 F 1 w = true ->
  (forall r, In r v -> length r = F) ->
  mm v w = Ok (map (fun row => [dot row (column 0 w)]) v).
Proof.
  intros HF Hw Hv. pose proof (hd_length _ _ _ Hw HF) as Hhd.
  apply has_shape2_spec in Hw. destruct Hw as [Lw _].
  unfold mm.
  assert (K : forallb (fun row : list R =>
                         Nat.eqb (length row) (length w)) v = true).
  { apply forallb_forall. intros row Hr. apply Nat.eqb_eq.
    rewrite Lw. apply Hv. exact Hr. }
  rewrite K, Hhd. reflexivity.
Qed.

Lemma zipWith_map_self {A B C : Type} (g : A -> B -> C) (h : A -> B)
  (l : list A) :
  zipWith g l (map h l) = map (fun r => g r (h r)) l.
Proof.
  unfold zipWith. induction l as [|a l IH]; simpl; [reflexivity|].
  rewrite IH. reflexivity.
Qed.

Lemma scores_length (self : Attention) (S : nat) (xb : T2) :
  Attention_wf self = true -> step_dim self = S -> length xb = S ->
  length (scores self xb) = S.
Proof.
  unfold Attention_wf, scores. intros Hwf HS Hxb.
  apply andb_true_iff in Hwf. destruct Hwf as [_ Hb].
  rewrite !length_map. destruct (att_bias self).
  - apply has_shape1_spec in Hb. unfold zipWith.
    rewrite length_map, length_combine, length_map, Hxb, Hb, HS.
    apply Nat.min_id.
  - rewrite length_map. exact Hxb.
Qed.

Lemma scores_positive (self : Attention) (xb : T2) (v : R) :
  In v (scores self xb) -> 0 < v.
Proof.
  unfold scores. intros H. apply in_map_iff in H.
  destruct H as (e & <- & _). apply exp_pos.
Qed.

(** The coefficients in closed form. *)
Lemma Attention_coefficients_closed (self : Attention) (B : nat) (x : T3) :
  Attention_wf self = true ->
  has_shape3 B (step_dim self) (feature_dim self) x = true ->
  (1 <= step_dim self)%nat -> (1 <= feature_dim self)%nat ->
  Attention_coefficients self x None
  = Ok (map (fun xb => normalise (scores self xb)) x).
Proof.
  intros Hwf Hx HS HF. pose proof Hwf as Hwf'. unfold Attention_wf in Hwf'.
  apply andb_true_iff in Hwf'. destruct Hwf' as [Hw Hb].
  set (dotw := fun row : list R => dot row (column 0 (att_weight self))).
  unfold Attention_coefficients.
  rewrite (view_rows_concat (feature_dim self) (concat x) HF)
    by (intros r Hr; eapply in_concat_shape3; eauto).
  cbn [bind].
  rewrite (mm_column (feature_dim self) (concat x) _ HF Hw)
    by (intros r Hr; eapply in_concat_shape3; eauto).
  cbn [bind]. fold dotw.
  rewrite (concat_singletons dotw), concat_map.
  pose proof Hx as Hx'. apply has_shape3_spec in Hx'. destruct Hx' as [Lx Rx].
  rewrite (view_rows_concat (step_dim self) (map (map dotw) x) HS).
  2:{ intros r Hr. apply in_map_iff in Hr. destruct Hr as (xb & <- & Hxb).
      rewrite length_map. specialize (Rx xb Hxb).
      apply has_shape2_spec in Rx. apply Rx. }
  cbn [bind].
  set (addb := fun e : list R =>
                 if att_bias self then zipWith Rplus e (att_b self) else e).
  assert (Eb : (if att_bias self
                then bop2_1 Rplus (map (map dotw) x) (att_b self)
                else Ok (map (map dotw) x))
               = Ok (map (fun xb => addb (map dotw xb)) x)).
  { unfold addb. destruct (att_bias self).
    - unfold bop2_1. rewrite <- (map_map (map dotw) (fun e => zipWith Rplus e (att_b self))).
      apply mapM_ok. intros e He. apply bop1_same.
      apply in_map_iff in He. destruct He as (xb & <- & Hxb).
      rewrite length_map. specialize (Rx xb Hxb).
      apply has_shape2_spec in Rx. destruct Rx as [Lxb _].
      apply has_shape1_spec in Hb. rewrite Lxb, Hb. reflexivity.
    - reflexivity. }
  rewrite Eb. cbn [bind].
  assert (Ea : map2 exp (map2 tanh (map (fun xb => addb (map dotw xb)) x))
               = map (scores self) x).
  { unfold map2, map1. rewrite !map_map. reflexivity. }
  rewrite Ea.
  set (a := map (scores self) x).
  assert (Eq : bop2 Rdiv a (sum1_keepdim a)
               = Ok (map (fun r => map (fun v => v / sum r) r) a)).
  { unfold sum1_keepdim.
    transitivity
      (Ok (zipWith (fun (r s : list R) => map (fun v => v / hd 0 s) r)
                   a (map (fun r => [sum r]) a))).
    - apply bzip_same; [rewrite length_map; reflexivity|].
      intros r s Hin. apply in_combine_r in Hin. apply in_map_iff in Hin.
      destruct Hin as (r' & <- & _). apply bop1_scalar_right.
    - rewrite zipWith_map_self. reflexivity. }
  rewrite Eq. cbn [bind]. f_equal.
  unfold a, map2, map1, normalise. rewrite !map_map.
  apply map_ext. intros xb. rewrite map_map. reflexivity.
Qed.

(** ** Attention: the coefficients add up to more than 1 *)

Lemma sum_affine (r : list R) (T c : R) :
  sum (map (fun v => v / T + c) r) = sum r / T + INR (length r) * c.
Proof.
  induction r as [|v r IH].
  - simpl. unfold Rdiv. ring.
  - change (sum (map (fun v => v / T + c) (v :: r)))
      with (v / T + c + sum (map (fun v => v / T + c) r)).
    change (sum (v :: r)) with (v + sum r).
    change (length (v :: r)) with (S (length r)).
    rewrite IH, S_INR. unfold Rdiv. ring.
Qed.

Lemma sum_positive (r : list R) :
  (forall v, In v r -> 0 < v) -> r <> [] -> 0 < sum r.
Proof.
  intros H Hne. destruct r as [|v r]; [contradiction|]. clear Hne.
  revert v H. induction r as [|w r IH]; intros v H.
  - simpl. pose proof (H v (or_introl eq_refl)). lra.
  - change (sum (v :: w :: r)) with (v + sum (w :: r)).
    pose proof (H v (or_introl eq_refl)).
    assert (0 < sum (w :: r)) by (apply IH; intros u Hu; apply H; right; exact Hu).
    lra.
Qed.

Lemma sum_normalise (r : list R) :
  (forall v, In v r -> 0 < v) -> r <> [] ->
  sum (normalise r) = 1 + INR (length r) * 1e-10.
Proof.
  intros Hpos Hne. unfold normalise. rewrite sum_affine.
  pose proof (sum_positive r Hpos Hne). field. lra.
Qed.

Lemma map_seq_nth {A : Type} (l : list A) (d : A) :
  map (fun t => nth t l d) (seq 0 (length l)) = l.
Proof.
  induction l as [|a l IH]; simpl; [reflexivity|].
  f_equal. rewrite <- seq_shift, map_map. exact IH.
Qed.

Lemma sum_upto_entries (n : nat) (r : list R) :
  length r = n -> sum_upto n (entry1 r) = sum r.
Proof.
  intros <-. unfold sum_upto, entry1. rewrite map_seq_nth. reflexivity.
Qed.

Lemma normalised_scores_length (self : Attention) (B : nat) (x : T3)
  (xb : T2) :
  Attention_wf self = true ->
  has_shape3 B (step_dim self) (feature_dim self) x = true ->
  In xb x ->
  length (scores self xb) = step_dim self /\
  length (normalise (scores self xb)) = step_dim self.
Proof.
  intros Hwf Hx Hxb. apply has_shape3_spec in Hx. destruct Hx as [_ Rx].
  specialize (Rx xb Hxb). apply has_shape2_spec in Rx. destruct Rx as [Lxb _].
  unfold normalise. rewrite length_map.
  split; apply scores_length; auto.
Qed.

Lemma normalised_scores_shape (self : Attention) (B : nat) (x : T3) :
  Attention_wf self = true ->
  has_shape3 B (step_dim self) (feature_dim self) x = true ->
  has_shape2 B (step_dim self)
    (map (fun xb => normalise (scores self xb)) x) = true.
Proof.
  intros Hwf Hx. pose proof Hx as Hx'. apply has_shape3_spec in Hx'.
  destruct Hx' as [Lx _]. apply has_shape2_spec.
  split; [rewrite length_map; exact Lx|].
  intros row Hr. apply in_map_iff in Hr. destruct Hr as (xb & <- & Hxb).
  apply (normalised_scores_length self B x xb Hwf Hx Hxb).
Qed.

(** C10: with [mask = None], the coefficients used in the weighted sum add
    up, over the step dimension, to exactly [1 + step_dim * 1e-10], and so
    not to 1: the constant is added after the division. *)
Theorem Attention_coefficients_sum_exceeds_1 (self : Attention) (B : nat)
  (x : T3) :
  Attention_wf self = true ->
  has_shape3 B (step_dim self) (feature_dim self) x = true ->
  (1 <= step_dim self)%nat -> (1 <= feature_dim self)%nat ->
  exists a,
    Attention_coefficients self x None = Ok a /\
    has_shape2 B (step_dim self) a = true /\
    forall b, (b < B)%nat ->
      sum_upto (step_dim self) (fun t => entry2 a b t)
      = 1 + INR (step_dim self) * 1e-10 /\
      sum_upto (step_dim self) (fun t => entry2 a b t) <> 1.
Proof.
  intros Hwf Hx HS HF.
  exists (map (fun xb => normalise (scores self xb)) x).
  split; [apply (Attention_coefficients_closed self B); assumption|].
  split; [apply normalised_scores_shape; assumption|].
  assert (Len : forall xb, In xb x ->
            length (normalise (scores self xb)) = step_dim self)
    by (intros xb Hxb; apply (normalised_scores_length self B x xb Hwf Hx Hxb)).
  assert (Lens : forall xb, In xb x ->
            length (scores self xb) = step_dim self)
    by (intros xb Hxb; apply (normalised_scores_length self B x xb Hwf Hx Hxb)).
  apply has_shape3_spec in Hx. destruct Hx as [Lx Rx].
  intros b Hb.
  assert (Hxb : In (nth b x []) x) by (apply nth_In; lia).
  assert (E : sum_upto (step_dim self)
                (fun t => entry2
                            (map (fun xb => normalise (scores self xb)) x) b t)
              = 1 + INR (step_dim self) * 1e-10).
  { unfold entry2.
    rewrite (map_nth_in (fun xb => normalise (scores self xb)) x b [] [])
      by lia.
    rewrite (sum_upto_entries (step_dim self)) by (apply Len; exact Hxb).
    assert (Ls : length (scores self (nth b x [])) = step_dim self)
      by (apply Lens; exact Hxb).
    rewrite sum_normalise; [rewrite Ls; reflexivity | |].
    - intros v Hv. eapply scores_positive. exact Hv.
    - intros Hnil. rewrite Hnil in Ls. simpl in Ls. lia. }
  split; [exact E|]. rewrite E.
  assert (0 < INR (step_dim self)) by (apply lt_0_INR; lia).
  nra.
Qed.

Lemma Attention_coefficients_sum_exceeds_1_witness :
  exists a,
    Attention_coefficients sample_attention
      [[[1; 2]; [3; 4]; [5; 6]]; [[0; 1]; [1; 0]; [2; 2]]] None = Ok a /\
    has_shape2 2 3 a = true /\
    forall b, (b < 2)%nat ->
      sum_upto 3 (fun t => entry2 a b t) = 1 + INR 3 * 1e-10 /\
      sum_upto 3 (fun t => entry2 a b t) <> 1.
Proof.
  apply (Attention_coefficients_sum_exceeds_1 sample_attention 2
           [[[1; 2]; [3; 4]; [5; 6]]; [[0; 1]; [1; 0]; [2; 2]]]).
  - reflexivity.
  - reflexivity.
  - simpl. lia.
  - simpl. lia.
Defined.

(** ** Attention: the weighted sum *)

Lemma sum_upto_ext (n : nat) (f g : nat -> R) :
  (forall t, (t < n)%nat -> f t = g t) -> sum_upto n f = sum_upto n g.
Proof.
  intros H. unfold sum_upto. f_equal. apply map_ext_in.
  intros t Ht. apply in_seq in Ht. apply H. lia.
Qed.

Lemma fold_vadd_entries (F : nat) (rest : T2) :
  forall acc : list R,
    length acc = F -> (forall r, In r rest -> length r = F) ->
    length (fold_left vadd rest acc) = F /\
    forall f, (f < F)%nat ->
      nth f (fold_left vadd rest acc) 0
      = nth f acc 0 + sum (map (fun r => nth f r 0) rest).
Proof.
  induction rest as [|r rest IH]; intros acc Hacc Hrest; simpl.
  - split; [exact Hacc | intros f _; ring].
  - pose proof (Hrest r (or_introl eq_refl)) as Hr.
    assert (Hv : length (vadd acc r) = F).
    { unfold vadd. rewrite length_map, length_combine, Hacc, Hr.
      apply Nat.min_id. }
    destruct (IH (vadd acc r) Hv
                (fun r' Hr' => Hrest r' (or_intror Hr'))) as [L E].
    split; [exact L|]. intros f Hf. rewrite (E f Hf).
    change (vadd acc r) with (zipWith Rplus acc r).
    rewrite (zipWith_nth Rplus acc r f 0 0 0) by lia.
    change (sum (nth f r 0 :: map (fun r0 => nth f r0 0) rest))
      with (nth f r 0 + sum (map (fun r0 => nth f r0 0) rest)).
    ring.
Qed.

Lemma sum_rows_entries (S F : nat) (rows : T2) :
  has_shape2 S F rows = true -> (1 <= S)%nat ->
  length (sum_rows rows) = F /\
  forall f, (f < F)%nat ->
    entry1 (sum_rows rows) f = sum_upto S (fun t => entry2 rows t f).
Proof.
  intros H HS. apply has_shape2_spec in H. destruct H as [L Hr].
  destruct rows as [|r rest]; [simpl in L; lia|].
  destruct (fold_vadd_entries F rest r (Hr r (or_introl eq_refl))
              (fun r' Hr' => Hr r' (or_intror Hr'))) as [Len E].
  split; [exact Len|]. intros f Hf. unfold entry1, sum_rows.
  rewrite (E f Hf). unfold sum_upto, entry2, entry1.
  rewrite <- L.
  rewrite <- (map_map (fun t => nth t (r :: rest) []) (fun row => nth f row 0)).
  rewrite map_seq_nth. reflexivity.
Qed.

Lemma unsqueeze_last_shape (B S : nat) (a : T2) :
  has_shape2 B S a = true -> has_shape3 B S 1 (unsqueeze_last a) = true.
Proof.
  intros H. apply has_shape2_spec in H. destruct H as [L Hr].
  apply has_shape3_spec. unfold unsqueeze_last. split.
  - rewrite length_map. exact L.
  - intros ub Hub. apply in_map_iff in Hub. destruct Hub as (row & <- & Hrow).
    apply has_shape2_spec. split.
    + rewrite length_map. apply Hr. exact Hrow.
    + intros u Hu. apply in_map_iff in Hu. destruct Hu as (v & <- & _).
      reflexivity.
Qed.

Lemma unsqueeze_last_entry (B S : nat) (a : T2) (b t : nat) :
  has_shape2 B S a = true -> (b < B)%nat -> (t < S)%nat ->
  entry3 (unsqueeze_last a) b t 0 = entry2 a b t.
Proof.
  intros H Hb Ht. apply has_shape2_spec in H. destruct H as [L Hr].
  unfold entry3, entry2, entry1, unsqueeze_last.
  rewrite (map_nth_in (map (fun v => [v])) a b [] []) by lia.
  rewrite (map_nth_in (fun v => [v]) (nth b a []) t 0 []).
  - reflexivity.
  - rewrite (Hr (nth b a [])); [exact Ht | apply nth_In; lia].
Qed.

(** C8: with [mask = None], an [Attention(feature_dim, step_dim)] maps an
    input of shape (batch, step_dim, feature_dim) to an output of shape
    (batch, feature_dim), the sum over the steps [t] of [a_t * x[:, t, :]];
    the coefficient [a_t] is the score [exp(tanh(x_t . weight + b_t))]
    divided by the sum of the scores over the steps (plus the constant
    1e-10 that the code adds after the division). *)
Theorem Attention_forward_is_weighted_sum (self : Attention) (B : nat)
  (x : T3) :
  Attention_wf self = true ->
  att_bias self = true ->
  has_shape3 B (step_dim self) (feature_dim self) x = true ->
  (1 <= step_dim self)%nat -> (1 <= feature_dim self)%nat ->
  exists a out,
    Attention_coefficients self x None = Ok a /\
    Attention_forward self x None = Ok out /\
    has_shape2 B (feature_dim self) out = true /\
    (forall b f, (b < B)%nat -> (f < feature_dim self)%nat ->
       entry2 out b f
       = sum_upto (step_dim self) (fun t => entry2 a b t * entry3 x b t f)) /\
    (forall b t, (b < B)%nat -> (t < step_dim self)%nat ->
       entry2 a b t
       = claimed_score self x b t
         / sum_upto (step_dim self) (claimed_score self x b)
         + 1e-10).
Proof.
  intros Hwf Hbias Hx HS HF.
  pose proof (Attention_coefficients_closed self B x Hwf Hx HS HF) as Ea.
  pose proof (normalised_scores_shape self B x Hwf Hx) as Sa.
  set (a := map (fun xb => normalise (scores self xb)) x) in *.
  destruct (bop3_rescale B (step_dim self) (feature_dim self) x
              (unsqueeze_last a) Hx (unsqueeze_last_shape _ _ _ Sa))
    as (y & Ey & Sy & Hy).
  exists a, (sum1 y).
  split; [exact Ea|].
  split; [unfold Attention_forward; rewrite Ea; cbn [bind]; rewrite Ey;
          reflexivity|].
  pose proof Sy as Sy'. apply has_shape3_spec in Sy'. destruct Sy' as [Ly Ry].
  pose proof Hx as Hx'. apply has_shape3_spec in Hx'. destruct Hx' as [Lx Rx].
  split; [| split].
  - apply has_shape2_spec. unfold sum1. split; [rewrite length_map; exact Ly|].
    intros row Hr. apply in_map_iff in Hr. destruct Hr as (yb & <- & Hyb).
    apply (sum_rows_entries (step_dim self)); [apply Ry; exact Hyb | exact HS].
  - intros b f Hb Hf. unfold entry2 at 1, sum1.
    rewrite (map_nth_in sum_rows y b [] []) by lia.
    assert (Hyb : In (nth b y []) y) by (apply nth_In; lia).
    destruct (sum_rows_entries (step_dim self) (feature_dim self) _
                (Ry _ Hyb) HS) as [_ E].
    rewrite (E f Hf). apply sum_upto_ext. intros t Ht.
    change (entry2 (nth b y []) t f) with (entry3 y b t f).
    rewrite (Hy b t f Hb Ht Hf).
    rewrite (unsqueeze_last_entry B (step_dim self)) by assumption.
    ring.
  - intros b t Hb Ht.
    assert (Hxb : In (nth b x []) x) by (apply nth_In; lia).
    pose proof (Rx _ Hxb) as Sxb. apply has_shape2_spec in Sxb.
    destruct Sxb as [Lxb _].
    assert (Ls : length (scores self (nth b x [])) = step_dim self)
      by (apply scores_length; [assumption | reflexivity | exact Lxb]).
    assert (Score : forall t', (t' < step_dim self)%nat ->
              entry1 (scores self (nth b x [])) t' = claimed_score self x b t').
    { intros t' Ht'. unfold entry1, scores, claimed_score. rewrite Hbias.
      unfold Attention_wf in Hwf. rewrite Hbias in Hwf.
      apply andb_true_iff in Hwf. destruct Hwf as [_ Hb'].
      apply has_shape1_spec in Hb'.
      assert (Lz : length (zipWith Rplus
                             (map (fun x_t => dot x_t (column 0 (att_weight self)))
                                  (nth b x []))
                             (att_b self)) = step_dim self).
      { rewrite zipWith_length; rewrite length_map; [exact Lxb|].
        rewrite Lxb, Hb'. reflexivity. }
      rewrite (map_nth_in exp _ t' 0 0) by (rewrite length_map, Lz; exact Ht').
      rewrite (map_nth_in tanh _ t' 0 0) by (rewrite Lz; exact Ht').
      rewrite (zipWith_nth Rplus _ _ t' 0 0 0)
        by (rewrite ?length_map; lia).
      rewrite (map_nth_in _ (nth b x []) t' [] 0) by lia.
      reflexivity. }
    unfold a, entry2.
    rewrite (map_nth_in (fun xb => normalise (scores self xb)) x b [] [])
      by lia.
    unfold normalise, entry1.
    rewrite (map_nth_in _ (scores self (nth b x [])) t 0 0)
      by (rewrite Ls; exact Ht).
    fold (entry1 (scores self (nth b x [])) t). rewrite (Score t Ht).
    rewrite <- (sum_upto_entries (step_dim self) _ Ls).
    rewrite (sum_upto_ext _ _ _ Score). reflexivity.
Qed.

Lemma Attention_forward_is_weighted_sum_witness :
  exists a out,
    Attention_coefficients sample_attention [[[1; 2]; [3; 4]; [5; 6]]] None
    = Ok a /\
    Attention_forward sample_attention [[[1; 2]; [3; 4]; [5; 6]]] None
    = Ok out /\
    has_shape2 1 2 out = true /\
    (forall b f, (b < 1)%nat -> (f < 2)%nat ->
       entry2 out b f
       = sum_upto 3 (fun t =>
           entry2 a b t * entry3 [[[1; 2]; [3; 4]; [5; 6]]] b t f)) /\
    (forall b t, (b < 1)%nat -> (t < 3)%nat ->
       entry2 a b t
       = claimed_score sample_attention [[[1; 2]; [3; 4]; [5; 6]]] b t
         / sum_upto 3
             (claimed_score sample_attention [[[1; 2]; [3; 4]; [5; 6]]] b)
         + 1e-10).
Proof.
  apply (Attention_forward_is_weighted_sum sample_attention 1
           [[[1; 2]; [3; 4]; [5; 6]]]).
  - reflexivity.
  - reflexivity.
  - reflexivity.
  - simpl. lia.
  - simpl. lia.
Defined.

End ValueProofs.

(** * Further properties of the shape level *)

Module ShapeExtra.

Import Shape.
Import ShapeProofs.
Local Open Scope Z_scope.

#[local] Hint Resolve broadcast_foreign view_rows_foreign mm_foreign
  reduce1_keepdim_foreign sum1_foreign cat1_foreign adaptive_pool1_foreign
  alloc_foreign floordiv_foreign Conv1d_init_foreign BatchNorm1d_init_foreign
  Linear_init_foreign : tame.

(** ** SENet._make_layer *)

Lemma replicateM_all {A : Type} (n : nat) (f : result A) (l : list A) :
  replicateM n f = Ok l -> forall a, In a l -> f = Ok a.
Proof.
  revert l. induction n as [|n IH]; simpl; intros l H a Ha.
  - inversion H; subst. contradiction.
  - inv_bind H. inversion H; subst. destruct Ha as [<-|Ha].
    + reflexivity.
    + eapply IH; [reflexivity | exact Ha].
Qed.

Lemma block_init_attributes (block : BlockClass)
  (inplanes planes groups reduction stride : Z) (d : option Downsample)
  (b : Block) :
  block_init block inplanes planes groups reduction stride d = Ok b ->
  block_downsample b = d /\ block_stride b = stride.
Proof.
  destruct block; simpl; intros H; inv_bind H; inversion H; subst; clear H;
    match goal with
    | E : _ = Ok ?r |- _ =>
        unfold SEBottleneck_init, SEResNetBottleneck_init,
          SEResNeXtBottleneck_init, SEResNetBlock_init in E;
        inv_bind E; inversion E; subst; clear E
    end;
    split; reflexivity.
Qed.

Lemma _make_layer_length (self_inplanes : Z)
  (block : BlockClass) (planes blocks groups reduction stride dks dpad : Z)
  (layer : list Block) (new_inplanes : Z) :
  _make_layer self_inplanes block planes blocks groups reduction stride
    dks dpad = Ok (layer, new_inplanes) ->
  Z.of_nat (length layer) = Z.max 1 blocks /\
  new_inplanes = planes * expansion block.
Proof.
  unfold _make_layer. intros H. inv_bind H. inversion H; subst; clear H.
  split; [|reflexivity].
  match goal with
  | E : replicateM _ _ = Ok _ |- _ => apply replicateM_length in E
  end.
  simpl length. lia.
Qed.

(** X1: [_make_layer] always builds the first block, so a layer holds
    [max(1, blocks)] blocks, also for [blocks] zero or negative, and it
    leaves [self.inplanes] at [planes * block.expansion]. *)
Theorem _make_layer_builds_at_least_one_block (self_inplanes : Z)
  (block : BlockClass) (planes blocks groups reduction stride dks dpad : Z)
  (layer : list Block) (new_inplanes : Z) :
  _make_layer self_inplanes block planes blocks groups reduction stride
    dks dpad = Ok (layer, new_inplanes) ->
  Z.of_nat (length layer) = Z.max 1 blocks /\
  new_inplanes = planes * expansion block.
Proof.
  unfold _make_layer. intros H. inv_bind H. inversion H; subst; clear H.
  split; [|reflexivity].
  match goal with
  | E : replicateM _ _ = Ok _ |- _ => apply replicateM_length in E
  end.
  simpl length. lia.
Qed.

Lemma _make_layer_builds_at_least_one_block_witness :
  exists layer new_inplanes,
    _make_layer 64 SEResNetBottleneck 64 0 1 16 1 1 0 = Ok (layer, new_inplanes) /\
    Z.of_nat (length layer) = Z.max 1 0 /\
    new_inplanes = 64 * expansion SEResNetBottleneck.
Proof.
  destruct (_make_layer 64 SEResNetBottleneck 64 0 1 16 1 1 0)
    as [[layer new_inplanes]|e] eqn:E; [| vm_compute in E; discriminate E].
  exists layer, new_inplanes. split; [reflexivity|].
  exact (_make_layer_builds_at_least_one_block _ _ _ _ _ _ _ _ _ _ _ E).
Defined.

(** X2: in a layer built by [_make_layer] only the first block can have a
    [downsample], and it has one exactly when the layer changes the stride
    or the number of channels; that block gets the layer's stride, every
    later block has stride 1 and no [downsample]. *)
Theorem _make_layer_downsamples_first_block_only (self_inplanes : Z)
  (block : BlockClass) (planes blocks groups reduction stride dks dpad : Z)
  (layer : list Block) (new_inplanes : Z) :
  _make_layer self_inplanes block planes blocks groups reduction stride
    dks dpad = Ok (layer, new_inplanes) ->
  exists first rest,
    layer = first :: rest /\
    block_stride first = stride /\
    (block_downsample first = None <->
     stride = 1 /\ self_inplanes = planes * expansion block) /\
    (forall d, block_downsample first = Some d ->
       ds_conv d = mkConv1d self_inplanes (planes * expansion block)
                     dks stride dpad 1 false /\
       ds_bn d = mkBatchNorm1d (planes * expansion block)) /\
    forall b, In b rest ->
      block_downsample b = None /\ block_stride b = 1.
Proof.
  unfold _make_layer. intros H. inv_bind H. inversion H; subst; clear H.
  match goal with
  | E : block_init _ _ _ _ _ _ _ = Ok ?b |- _ =>
      destruct (block_init_attributes _ _ _ _ _ _ _ _ E) as [Hd Hs]
  end.
  eexists. eexists. split; [reflexivity|]. split; [exact Hs|].
  rewrite Hd.
  match goal with
  | E : (if ?c then _ else _) = Ok _ |- _ => destruct c eqn:C
  end.
  - inv_bind E. inversion E; subst; clear E.
    split; [| split].
    + split; [discriminate|]. intros [Hs1 Hi].
      apply orb_true_iff in C. destruct C as [C|C];
        apply negb_true_iff, Z.eqb_neq in C; contradiction.
    + intros d Hd'. inversion Hd'; subst; clear Hd'. simpl.
      split.
      * match goal with
        | E : Conv1d_init _ _ _ _ _ _ _ = Ok _ |- _ =>
            unfold Conv1d_init in E;
            repeat match type of E with
              | (if ?c then _ else _) = Ok _ => destruct c; [discriminate E|]
              end;
            inv_bind E; inversion E; reflexivity
        end.
      * match goal with
        | E : BatchNorm1d_init _ = Ok _ |- _ =>
            unfold BatchNorm1d_init in E; inv_bind E; inversion E; reflexivity
        end.
    + intros b Hb.
      match goal with
      | R : replicateM _ _ = Ok _ |- _ =>
          pose proof (replicateM_all _ _ _ R b Hb) as Hb'
      end.
      exact (block_init_attributes _ _ _ _ _ _ _ _ Hb').
  - inversion E; subst; clear E.
    apply orb_false_iff in C. destruct C as [C1 C2].
    apply negb_false_iff, Z.eqb_eq in C1, C2.
    split; [| split].
    + split; auto.
    + intros d Hd'. discriminate Hd'.
    + intros b Hb.
      match goal with
      | R : replicateM _ _ = Ok _ |- _ =>
          pose proof (replicateM_all _ _ _ R b Hb) as Hb'
      end.
      exact (block_init_attributes _ _ _ _ _ _ _ _ Hb').
Qed.

Lemma _make_layer_downsamples_first_block_only_witness :
  exists layer new_inplanes first rest,
    _make_layer 256 SEResNetBottleneck 128 4 1 16 2 1 0
    = Ok (layer, new_inplanes) /\
    layer = first :: rest /\
    block_stride first = 2 /\
    (block_downsample first = None <->
     2 = 1 /\ 256 = 128 * expansion SEResNetBottleneck) /\
    (forall d, block_downsample first = Some d ->
       ds_conv d = mkConv1d 256 (128 * expansion SEResNetBottleneck)
                     1 2 0 1 false /\
       ds_bn d = mkBatchNorm1d (128 * expansion SEResNetBottleneck)) /\
    forall b, In b rest ->
      block_downsample b = None /\ block_stride b = 1.
Proof.
  destruct (_make_layer 256 SEResNetBottleneck 128 4 1 16 2 1 0)
    as [[layer new_inplanes]|e] eqn:E; [| vm_compute in E; discriminate E].
  destruct (_make_layer_downsamples_first_block_only _ _ _ _ _ _ _ _ _ _ _ E)
    as (first & rest & H).
  exists layer, new_inplanes, first, rest. split; [reflexivity | exact H].
Defined.

(** ** SENet.__init__ *)

Lemma index_ok (layers : list Z) (i : nat) (v : Z) :
  index layers i = Ok v -> nth_error layers i = Some v.
Proof.
  unfold index. destruct (nth_error layers i); intros H; inversion H.
  reflexivity.
Qed.

(** X3: the constructor reads exactly the first four entries of [layers].
    It returns only if there are at least four; [layer1] to [layer4] then
    hold [max(1, layers[i])] blocks each, further entries are ignored, and
    [self.inplanes] ends at [512 * block.expansion], which is
    [num_features]. *)
Theorem SENet_reads_four_layer_counts
  (pool : string -> result Mod) (block : BlockClass) (layers : list Z)
  (groups reduction in_chans inplanes0 : Z) (input_3x3 : bool)
  (downsample_kernel_size downsample_padding declared_classes : Z)
  (global_pool : string) (m : SENet) :
  SENet_build pool block layers groups reduction in_chans inplanes0 input_3x3
    downsample_kernel_size downsample_padding declared_classes global_pool
  = Ok m ->
  exists n0 n1 n2 n3 more,
    layers = n0 :: n1 :: n2 :: n3 :: more /\
    Z.of_nat (length (layer1 m)) = Z.max 1 n0 /\
    Z.of_nat (length (layer2 m)) = Z.max 1 n1 /\
    Z.of_nat (length (layer3 m)) = Z.max 1 n2 /\
    Z.of_nat (length (layer4 m)) = Z.max 1 n3 /\
    inplanes m = 512 * expansion block /\
    num_features m = 512 * expansion block /\
    SENet_build pool block [n0; n1; n2; n3] groups reduction in_chans
      inplanes0 input_3x3 downsample_kernel_size downsample_padding
      declared_classes global_pool = Ok m.
Proof.
  intros H. pose proof H as H0. unfold SENet_build in H. inv_bind H.
  inversion H; subst; clear H.
  repeat match goal with
    | E : index _ _ = Ok _ |- _ => apply index_ok in E
    | E : _make_layer _ _ _ _ _ _ _ _ _ = Ok _ |- _ =>
        apply _make_layer_length in E
    end.
  destruct layers as [|n0 [|n1 [|n2 [|n3 more]]]];
    repeat match goal with
      | E : nth_error _ _ = Some _ |- _ =>
          simpl in E; first [discriminate E | inversion E; clear E]
      end.
  subst. do 5 eexists. split; [reflexivity|].
  cbn [layer1 layer2 layer3 layer4 inplanes num_features].
  repeat match goal with
    | E : _ /\ _ |- _ => destruct E
    end.
  subst. repeat split; assumption.
Qed.

Lemma SENet_reads_four_layer_counts_witness :
  exists m n0 n1 n2 n3 more,
    SENet_build sample_pool SEResNetBottleneck [2; 0; 1; -1; 7] 1 16 12 64
      false 1 0 9 "max" = Ok m /\
    [2; 0; 1; -1; 7] = n0 :: n1 :: n2 :: n3 :: more /\
    Z.of_nat (length (layer1 m)) = Z.max 1 n0 /\
    Z.of_nat (length (layer2 m)) = Z.max 1 n1 /\
    Z.of_nat (length (layer3 m)) = Z.max 1 n2 /\
    Z.of_nat (length (layer4 m)) = Z.max 1 n3 /\
    inplanes m = 512 * expansion SEResNetBottleneck /\
    num_features m = 512 * expansion SEResNetBottleneck /\
    SENet_build sample_pool SEResNetBottleneck [n0; n1; n2; n3] 1 16 12 64
      false 1 0 9 "max" = Ok m.
Proof.
  destruct (SENet_build sample_pool SEResNetBottleneck [2; 0; 1; -1; 7] 1 16
              12 64 false 1 0 9 "max") as [m|e] eqn:E;
    [| vm_compute in E; discriminate E].
  destruct (SENet_reads_four_layer_counts _ _ _ _ _ _ _ _ _ _ _ _ _ E)
    as (n0 & n1 & n2 & n3 & more & H).
  exists m, n0, n1, n2, n3, more. split; [reflexivity | exact H].
Defined.

Lemma replicateM_err {A : Type} (n : nat) (f : result A) (e : Error) :
  replicateM n f = Err e -> f = Err e.
Proof.
  induction n as [|n IH]; simpl; intros H; [discriminate H|].
  destruct f as [a|e'] eqn:F; simpl in H;
    [| inversion H; subst; reflexivity].
  destruct (replicateM n (Ok a)) eqn:R; simpl in H; [discriminate H|].
  inversion H; subst. apply IH. reflexivity.
Qed.

Lemma _make_layer_repo_error (self_inplanes : Z)
  (block : BlockClass) (planes blocks groups reduction stride dks dpad : Z)
  (e : Error) :
  _make_layer self_inplanes block planes blocks groups reduction stride
    dks dpad = Err e ->
  repo_defined e = true ->
  planes * expansion block <= reduction.
Proof.
  unfold _make_layer. intros H He.
  match type of H with
  | bind ?c _ = _ =>
      assert (F : foreign c) by foreign_auto; destruct c as [d|e0] eqn:D
  end; cbn [bind] in H.
  2:{ inversion H; subst. rewrite (F e eq_refl) in He. discriminate He. }
  clear F.
  match type of H with
  | bind ?c _ = _ => destruct c as [first|e0] eqn:B
  end; cbn [bind] in H.
  2:{ inversion H; subst. eapply block_init_repo_error; eauto. }
  match type of H with
  | bind ?c _ = _ => destruct c as [rest|e0] eqn:R
  end; cbn [bind] in H; [discriminate H|].
  inversion H; subst. apply replicateM_err in R.
  eapply block_init_repo_error; eauto.
Qed.

Lemma index_foreign (layers : list Z) (i : nat) : foreign (index layers i).
Proof.
  unfold index. destruct (nth_error layers i); [apply foreign_ok|].
  intros e H. inversion H. reflexivity.
Qed.

Lemma RNN_init_foreign (cls : RNNClass) (input hidden : Z) :
  foreign (RNN_init cls input hidden).
Proof. unfold RNN_init. foreign_auto. Qed.

Lemma replicateM_foreign {A : Type} (n : nat) (f : result A) :
  foreign f -> foreign (replicateM n f).
Proof. intros F e H. apply replicateM_err in H. exact (F e H). Qed.

(** X4: the constructor of [SENet] can fail with the assertion of
    [SEModule] only when [reduction] is at least [64 * block.expansion],
    the channels of the modules of [layer1]; every other failure it has
    comes from the runtime, the framework or the pooling wrapper. *)
Theorem SENet_assertion_needs_large_reduction
  (pool : string -> result Mod) (block : BlockClass) (layers : list Z)
  (groups reduction in_chans inplanes0 : Z) (input_3x3 : bool)
  (downsample_kernel_size downsample_padding declared_classes : Z)
  (global_pool : string) (e : Error) :
  (forall pool_type e', pool pool_type = Err e' -> repo_defined e' = false) ->
  SENet_init pool block layers groups reduction in_chans inplanes0 input_3x3
    downsample_kernel_size downsample_padding declared_classes global_pool
  = Err e ->
  repo_defined e = true ->
  64 * expansion block <= reduction.
Proof.
  intros Hpool H He. unfold SENet_init in H.
  match type of H with
  | bind ?c _ = _ => destruct c as [m|e0] eqn:B
  end; cbn [bind] in H.
  { match type of H with
    | bind ?c _ = _ =>
        pose proof (weight_init_over_foreign (modules (SENet_tree m))
                      (SENet_tree m) 0) as F;
        destruct c as [after|e0] eqn:W
    end; cbn [bind] in H; [discriminate H|].
    inversion H; subst. rewrite (F e W) in He. discriminate He. }
  inversion H; subst; clear H. rename B into H. unfold SENet_build in H.
  assert (Hexp : 1 <= expansion block) by (destruct block; simpl; lia).
  repeat match type of H with
    | (let (_, _) := ?p in _) = Err _ => destruct p
    | bind (_make_layer ?i ?b ?p ?n ?g ?r ?s ?k ?d) _ = Err _ =>
        let L := fresh "L" in
        destruct (_make_layer i b p n g r s k d) eqn:L; cbn [bind] in H;
        [| inversion H; subst;
           pose proof (_make_layer_repo_error _ _ _ _ _ _ _ _ _ _ L He); nia]
    | bind ?c _ = Err _ =>
        let F := fresh "F" in
        assert (F : foreign c)
          by first [ exact (Hpool _)
                   | apply index_foreign
                   | apply RNN_init_foreign
                   | apply replicateM_foreign; apply HighwayMLP_init_foreign
                   | apply Attention_init_foreign
                   | foreign_auto ];
        destruct c; cbn [bind] in H;
        [ clear F
        | inversion H; subst; rewrite (F e eq_refl) in He; discriminate He ]
    end.
  discriminate H.
Qed.

Lemma SENet_assertion_needs_large_reduction_witness :
  seresnet50_with_reduction_256 = Err (AssertionError 256) /\
  64 * expansion SEResNetBottleneck <= 256.
Proof.
  assert (E : seresnet50_with_reduction_256 = Err (AssertionError 256))
    by (vm_compute; reflexivity).
  split; [exact E|].
  apply (SENet_assertion_needs_large_reduction sample_pool SEResNetBottleneck
           [3; 4; 6; 3] 1 256 12 64 false 1 0 9 "max" (AssertionError 256)).
  - intros pool_type e' H. discriminate H.
  - exact E.
  - reflexivity.
Defined.

(** ** Shapes through the framework's operations *)

Lemma outcome_ret {A : Type} (a : A) : outcome (ret a) = Ok a.
Proof. reflexivity. Qed.

Lemma outcome_lift {A : Type} (r : result A) : outcome (lift r) = r.
Proof. reflexivity. Qed.

Lemma outcome_call {A : Type} (k : Kind) (body : Run A) :
  outcome (call k body) = outcome body.
Proof. unfold outcome, call. destruct body. reflexivity. Qed.

Lemma outcome_rbind {A B : Type} (m : Run A) (f : A -> Run B) (a : A) :
  outcome m = Ok a -> outcome (rbind m f) = outcome (f a).
Proof.
  unfold outcome, rbind. destruct m as [r t]. simpl. intros ->.
  destruct (f a). reflexivity.
Qed.

Lemma outcome_rbind_err {A B : Type} (m : Run A) (f : A -> Run B) (e : Error) :
  outcome m = Err e -> outcome (rbind m f) = Err e.
Proof. unfold outcome, rbind. destruct m as [r t]. simpl. intros ->. reflexivity. Qed.

Lemma view_rows_multiple (q d : Z) :
  1 <= d -> view_rows (q * d) d = Ok [q; d].
Proof.
  intros Hd. unfold view_rows.
  destruct (d <? 0) eqn:E1; [apply Z.ltb_lt in E1; lia|].
  destruct (d =? 0) eqn:E2; [apply Z.eqb_eq in E2; lia|].
  rewrite Z.mod_mul, Z.div_mul by lia. reflexivity.
Qed.

Lemma broadcast_same3 (n c l : Z) : broadcast [n; c; l] [n; c; l] = Ok [n; c; l].
Proof. unfold broadcast. simpl. rewrite !Z.eqb_refl. reflexivity. Qed.

(** A last dimension of size 1 is repeated. *)
Lemma broadcast_last1 (n c l : Z) :
  broadcast [n; c; l] [n; c; 1] = Ok [n; c; l].
Proof.
  unfold broadcast. simpl. rewrite !Z.eqb_refl. simpl.
  destruct (l =? 1) eqn:E; reflexivity.
Qed.

(** A channel dimension of size 1 is repeated. *)
Lemma broadcast_middle1 (n c l : Z) :
  broadcast [n; c; l] [n; 1; l] = Ok [n; c; l].
Proof.
  unfold broadcast. simpl. rewrite !Z.eqb_refl. simpl.
  destruct (c =? 1) eqn:E; reflexivity.
Qed.

Lemma broadcast_bias (n s : Z) : broadcast [n; s] [s] = Ok [n; s].
Proof. unfold broadcast. simpl. rewrite Z.eqb_refl. reflexivity. Qed.

Lemma broadcast_same2 (n s : Z) : broadcast [n; s] [n; s] = Ok [n; s].
Proof. unfold broadcast. simpl. rewrite !Z.eqb_refl. reflexivity. Qed.

Lemma broadcast_sum (n s : Z) : broadcast [n; s] [n; 1] = Ok [n; s].
Proof.
  unfold broadcast. simpl. rewrite !Z.eqb_refl. simpl.
  destruct (s =? 1) eqn:E; reflexivity.
Qed.

(** ** Attention.forward *)

(** X5: on an input of shape (N, step_dim, feature_dim), with no mask or
    with a mask of shape (N, step_dim), [Attention.forward] returns a tensor
    of shape (N, feature_dim), for every batch size N >= 1, provided both
    dimensions of the layer are at least 1. *)
Theorem Attention_forward_collapses_steps (m : Attention) (n : Z)
  (mask : option shape) :
  1 <= feature_dim m -> 1 <= step_dim m -> 1 <= n ->
  mask = None \/ mask = Some [n; step_dim m] ->
  Attention_forward m [n; step_dim m; feature_dim m] mask
  = (Ok [n; feature_dim m], [KAttention]).
Proof.
  intros HF HS _ Hmask. unfold Attention_forward, call, lift. f_equal.
  set (fd := feature_dim m) in *. set (sd := step_dim m) in *.
  replace (numel [n; sd; fd]) with ((n * sd) * fd) by (unfold numel; simpl; ring).
  rewrite (view_rows_multiple _ _ HF). cbn [bind].
  unfold mm. rewrite Z.eqb_refl. cbn [bind].
  replace (numel [n * sd; 1]) with (n * sd) by (unfold numel; simpl; ring).
  rewrite (view_rows_multiple _ _ HS). cbn [bind].
  destruct (att_bias m); rewrite ?broadcast_bias; cbn [bind];
    (destruct Hmask as [->| ->]; rewrite ?broadcast_same2;
     cbn [bind reduce1_keepdim];
     rewrite broadcast_sum; cbn [bind unsqueeze_last app];
     rewrite broadcast_last1; reflexivity).
Qed.

Lemma Attention_forward_collapses_steps_witness :
  Attention_forward (mkAttention true 256 2048) [7; 2048; 256] None
  = (Ok [7; 256], [KAttention]).
Proof.
  apply (Attention_forward_collapses_steps (mkAttention true 256 2048) 7 None).
  - simpl. lia.
  - simpl. lia.
  - lia.
  - left. reflexivity.
Defined.

(** ** Shapes through the layers of the framework *)

Lemma strided_1 (l : Z) : strided 1 l = l.
Proof. unfold strided. rewrite Z.div_1_r. lia. Qed.

Lemma strided_positive (s l : Z) : 0 < s -> 1 <= l -> 1 <= strided s l.
Proof.
  intros Hs Hl. unfold strided.
  assert (0 <= (l - 1) / s) by (apply Z.div_pos; lia). lia.
Qed.

Lemma single_value_strided (n s l : Z) :
  0 < s -> 1 <= l -> n * l = 1 -> n * strided s l = 1.
Proof.
  intros Hs Hl E. rewrite Z.mul_comm in E.
  apply Z.eq_mul_1_nonneg in E; [|lia]. destruct E as [-> ->].
  unfold strided. change (1 - 1) with 0. rewrite Z.div_0_l by lia.
  reflexivity.
Qed.

Lemma Conv1d_outcome (c : Conv1d) (n ch l : Z) :
  ch = conv_in c -> 0 < conv_stride c ->
  conv_kernel c = 2 * conv_padding c + 1 -> 1 <= l ->
  outcome (Conv1d_forward c [n; ch; l])
  = Ok [n; conv_out c; strided (conv_stride c) l].
Proof.
  intros Hc Hs Hk Hl. unfold Conv1d_forward.
  rewrite outcome_call, outcome_lift. subst ch. rewrite Z.eqb_refl.
  cbn [negb].
  destruct (conv_stride c <=? 0) eqn:E1; [apply Z.leb_le in E1; lia|].
  destruct (l + 2 * conv_padding c <? conv_kernel c) eqn:E2;
    [apply Z.ltb_lt in E2; lia|].
  unfold strided.
  replace (l + 2 * conv_padding c - conv_kernel c) with (l - 1) by lia.
  reflexivity.
Qed.

Lemma BatchNorm1d_outcome (b : BatchNorm1d) (n ch l : Z) :
  ch = bn_features b ->
  outcome (BatchNorm1d_forward b [n; ch; l])
  = if n * l =? 1 then Err single_value_error else Ok [n; ch; l].
Proof.
  intros Hc. unfold BatchNorm1d_forward.
  rewrite outcome_call, outcome_lift. subst ch. rewrite Z.eqb_refl.
  reflexivity.
Qed.

Lemma Conv1d_init_ok (cin cout k stride padding groups : Z) (bias : bool)
  (c : Conv1d) :
  Conv1d_init cin cout k stride padding groups bias = Ok c ->
  c = mkConv1d cin cout k stride padding groups bias.
Proof.
  unfold Conv1d_init. intros H.
  repeat match type of H with
    | (if ?c then _ else _) = Ok _ => destruct c; [discriminate H|]
    end.
  inv_bind H. inversion H. reflexivity.
Qed.

Lemma BatchNorm1d_init_ok (n : Z) (b : BatchNorm1d) :
  BatchNorm1d_init n = Ok b -> b = mkBatchNorm1d n.
Proof. unfold BatchNorm1d_init. intros H. inv_bind H. inversion H. reflexivity. Qed.

Lemma SEModule_init_ok (channels reduction : Z) (m : SEModule) :
  SEModule_init channels reduction = Ok m ->
  m = mkSEModule
        (mkConv1d channels (channels / reduction) 1 1 0 1 true)
        (mkConv1d (channels / reduction) channels 1 1 0 1 true).
Proof.
  unfold SEModule_init, floordiv. intros H.
  destruct (negb (channels >? reduction)); [discriminate H|].
  destruct (reduction =? 0); [discriminate H|]. cbn [bind] in H.
  inv_bind H. inversion H; subst; clear H.
  repeat match goal with
    | E : Conv1d_init _ _ _ _ _ _ _ = Ok _ |- _ =>
        apply Conv1d_init_ok in E; subst
    end.
  reflexivity.
Qed.

(** A squeeze-and-excitation module keeps the shape of its input. *)
Lemma SEModule_outcome (channels reduction : Z) (m : SEModule) (n l : Z) :
  SEModule_init channels reduction = Ok m -> 1 <= l ->
  outcome (SEModule_forward m [n; channels; l]) = Ok [n; channels; l].
Proof.
  intros H Hl. apply SEModule_init_ok in H. subst m.
  unfold SEModule_forward. rewrite outcome_call.
  assert (Epool : outcome (AdaptiveAvgPool1d_forward [n; channels; l])
                  = Ok [n; channels; 1]).
  { unfold AdaptiveAvgPool1d_forward, adaptive_pool1.
    rewrite outcome_call, outcome_lift.
    destruct (0 <? l) eqn:E; [reflexivity | apply Z.ltb_ge in E; lia]. }
  rewrite (outcome_rbind _ _ _ Epool).
  erewrite outcome_rbind
    by (apply Conv1d_outcome; simpl; first [reflexivity | lia]).
  cbn [conv_out conv_stride]. rewrite strided_1.
  rewrite (outcome_rbind _ _ [n; channels / reduction; 1])
    by reflexivity.
  erewrite outcome_rbind
    by (apply Conv1d_outcome; simpl; first [reflexivity | lia]).
  cbn [conv_out conv_stride]. rewrite strided_1.
  rewrite (outcome_rbind _ _ [n; channels; 1]) by reflexivity.
  rewrite outcome_lift. apply broadcast_last1.
Qed.

Lemma Downsample_outcome (cin cout stride : Z) (d : Downsample) (n l : Z) :
  downsample_fits cin cout stride (Some d) -> 0 < stride -> 1 <= l ->
  outcome (Downsample_forward d [n; cin; l])
  = if n * strided stride l =? 1 then Err single_value_error
    else Ok [n; cout; strided stride l].
Proof.
  simpl. intros (Hin & Hout & Hs & Hk & Hbn) Hst Hl.
  unfold Downsample_forward. rewrite outcome_call.
  erewrite outcome_rbind
    by (apply Conv1d_outcome; first [congruence | lia]).
  rewrite Hout, Hs. rewrite BatchNorm1d_outcome by congruence. reflexivity.
Qed.

(** ** Shapes through the residual blocks *)

Ltac conv_step :=
  erewrite outcome_rbind
    by (apply Conv1d_outcome;
        cbn [conv_in conv_stride conv_kernel conv_padding];
        first [reflexivity | lia | apply strided_positive; lia]);
  cbv beta; cbn [conv_out conv_stride]; rewrite ?strided_1.

Ltac relu_step := erewrite outcome_rbind by reflexivity; cbv beta.

Ltac bn_step Hs Hl :=
  match goal with
  | Known : (?n * ?len =? 1) = false
    |- outcome (rbind (BatchNorm1d_forward ?b [?n; ?c; ?len]) _) = _ =>
      let E0 := fresh "Norm" in
      pose proof (BatchNorm1d_outcome b n c len eq_refl) as E0;
      rewrite Known in E0;
      rewrite (outcome_rbind _ _ _ E0); clear E0; cbv beta
  | |- outcome (rbind (BatchNorm1d_forward ?b [?n; ?c; ?len]) _) = _ =>
      let E := fresh "Single" in
      let E0 := fresh "Norm" in
      pose proof (BatchNorm1d_outcome b n c len eq_refl) as E0;
      destruct (n * len =? 1) eqn:E;
      [ rewrite (outcome_rbind_err _ _ _ E0);
        first
          [ reflexivity
          | apply Z.eqb_eq in E;
            rewrite (proj2 (Z.eqb_eq _ _)
                       (single_value_strided _ _ _ Hs Hl E));
            reflexivity ]
      | rewrite (outcome_rbind _ _ _ E0); clear E0; cbv beta ]
  end.

Ltac residual_step Hfit Hs Hl :=
  match goal with
  | |- outcome (rbind (match ?ds with
                       | Some d => Downsample_forward d [?n; _; _]
                       | None => ret ?r
                       end) _) = _ =>
      destruct ds as [d|];
      [ let D := fresh "D" in
        pose proof (Downsample_outcome _ _ _ d n _ Hfit Hs Hl) as D;
        match goal with
        | E : (_ * strided _ _ =? 1) = false |- _ => rewrite E in D
        end;
        rewrite (outcome_rbind _ _ _ D); clear D; cbv beta
      | simpl in Hfit; destruct Hfit as [Hfit1 Hfit2];
        rewrite (outcome_rbind _ _ _ (outcome_ret _)); cbv beta ]
  end.

Ltac se_step Hs Hl :=
  erewrite outcome_rbind
    by (eapply SEModule_outcome;
        [eassumption | first [exact Hl | apply strided_positive; lia]]);
  cbv beta.

Ltac add_step :=
  subst; rewrite ?strided_1;
  erewrite outcome_rbind by (rewrite outcome_lift; apply broadcast_same3);
  reflexivity.

Ltac invert_block_init H :=
  unfold SEBottleneck_init, SEResNetBottleneck_init,
    SEResNeXtBottleneck_init, SEResNetBlock_init in H;
  inv_bind H; inversion H; subst; clear H;
  repeat match goal with
    | E : Conv1d_init _ _ _ _ _ _ _ = Ok _ |- _ =>
        apply Conv1d_init_ok in E; subst
    | E : BatchNorm1d_init _ = Ok _ |- _ =>
        apply BatchNorm1d_init_ok in E; subst
    end.

(** A block built by one of the four block classes, with the [downsample]
    that [_make_layer] would pass, takes (N, inplanes, L) to
    (N, planes * expansion, (L - 1) // stride + 1); the one way it can fail
    on such an input is the batch norm in training mode, when the output
    would hold a single value per channel. *)
Lemma Block_forward_outcome (block : BlockClass)
  (inplanes planes groups reduction stride : Z) (ds : option Downsample)
  (b : Block) (n l : Z) :
  block_init block inplanes planes groups reduction stride ds = Ok b ->
  downsample_fits inplanes (planes * expansion block) stride ds ->
  0 < stride -> 1 <= l ->
  outcome (Block_forward b [n; inplanes; l])
  = if n * strided stride l =? 1 then Err single_value_error
    else Ok [n; planes * expansion block; strided stride l].
Proof.
  intros H Hfit Hs Hl.
  destruct block; simpl in H; inv_bind H; inversion H; subst; clear H;
    match goal with
    | E : _ = Ok ?r |- _ => invert_block_init E
    end;
    cbn [Block_forward expansion] in *;
    unfold Bottleneck_forward, SEResNetBlock_forward;
    cbn [conv1 bn1 conv2 bn2 conv3 bn3 se_module downsample bt_cls
         rb_conv1 rb_bn1 rb_conv2 rb_bn2 rb_se_module rb_downsample];
    rewrite outcome_call.
  - conv_step. bn_step Hs Hl. relu_step.
    conv_step. bn_step Hs Hl. relu_step.
    conv_step. bn_step Hs Hl.
    residual_step Hfit Hs Hl.
    all: se_step Hs Hl; add_step.
  - conv_step. bn_step Hs Hl. relu_step.
    conv_step. bn_step Hs Hl. relu_step.
    conv_step. bn_step Hs Hl.
    residual_step Hfit Hs Hl.
    all: se_step Hs Hl; add_step.
  - conv_step. bn_step Hs Hl. relu_step.
    conv_step. bn_step Hs Hl. relu_step.
    conv_step. bn_step Hs Hl.
    residual_step Hfit Hs Hl.
    all: se_step Hs Hl; add_step.
  - rewrite Z.mul_1_r in *.
    conv_step. bn_step Hs Hl. relu_step.
    conv_step. bn_step Hs Hl. relu_step.
    residual_step Hfit Hs Hl.
    all: se_step Hs Hl; add_step.
Qed.

Lemma outcome_rbind_guard {A B : Type} (m : Run A) (f : A -> Run B)
  (c : bool) (e : Error) (a : A) :
  outcome m = (if c then Err e else Ok a) ->
  outcome (rbind m f) = if c then Err e else outcome (f a).
Proof.
  destruct c; intros H;
    [apply outcome_rbind_err | apply outcome_rbind]; exact H.
Qed.

(** The later blocks of a layer keep the shape. *)
Lemma run_in_order_later_blocks (block : BlockClass)
  (planes groups reduction : Z) (rest : list Block) (n l : Z) :
  (forall b, In b rest ->
     block_init block (planes * expansion block) planes groups reduction 1 None
     = Ok b) ->
  1 <= l -> (n * l =? 1) = false ->
  outcome (run_in_order Block_forward rest [n; planes * expansion block; l])
  = Ok [n; planes * expansion block; l].
Proof.
  intros Hall Hl Hn. induction rest as [|b rest IH]; [reflexivity|].
  cbn [run_in_order].
  assert (Hb : outcome (Block_forward b [n; planes * expansion block; l])
               = Ok [n; planes * expansion block; l]).
  { rewrite (Block_forward_outcome block _ planes groups reduction 1 None b n l);
      [ rewrite strided_1, Hn; reflexivity
      | apply Hall; left; reflexivity
      | split; reflexivity
      | lia
      | exact Hl ]. }
  rewrite (outcome_rbind _ _ _ Hb).
  apply IH. intros b' Hb'. apply Hall. right. exact Hb'.
Qed.

(** A layer built by [_make_layer] takes (N, inplanes, L) to
    (N, planes * expansion, (L - 1) // stride + 1). *)
Lemma layer_outcome (self_inplanes : Z) (block : BlockClass)
  (planes blocks groups reduction stride dks dpad : Z)
  (layer : list Block) (new_inplanes : Z) (n l : Z) :
  _make_layer self_inplanes block planes blocks groups reduction stride
    dks dpad = Ok (layer, new_inplanes) ->
  (dks = 1 /\ dpad = 0) \/ (dks = 3 /\ dpad = 1) ->
  0 < stride -> 1 <= l ->
  outcome (Sequential_forward Block_forward layer [n; self_inplanes; l])
  = if n * strided stride l =? 1 then Err single_value_error
    else Ok [n; planes * expansion block; strided stride l].
Proof.
  unfold _make_layer. intros H Hd Hs Hl.
  inv_bind H. inversion H; subst; clear H.
  unfold Sequential_forward. rewrite outcome_call. cbn [run_in_order].
  match goal with
  | E : block_init _ _ _ _ _ _ ?d = Ok ?b |- _ =>
      assert (Hfit : downsample_fits self_inplanes (planes * expansion block)
                       stride d)
  end.
  { match goal with
    | E : (if ?c then _ else _) = Ok _ |- _ => destruct c eqn:C
    end.
    - inv_bind E. inversion E; subst; clear E.
      repeat match goal with
        | E : Conv1d_init _ _ _ _ _ _ _ = Ok _ |- _ =>
            apply Conv1d_init_ok in E; subst
        | E : BatchNorm1d_init _ = Ok _ |- _ =>
            apply BatchNorm1d_init_ok in E; subst
        end.
      simpl. repeat split; try reflexivity. exact Hd.
    - inversion E; subst; clear E.
      apply orb_false_iff in C. destruct C as [C1 C2].
      apply negb_false_iff, Z.eqb_eq in C1, C2. split; assumption. }
  match goal with
  | E : block_init _ _ _ _ _ _ _ = Ok ?b |- _ =>
      pose proof (Block_forward_outcome _ _ _ _ _ _ _ _ n l E Hfit Hs Hl) as Hb
  end.
  rewrite (outcome_rbind_guard _ _ _ _ _ Hb).
  destruct (n * strided stride l =? 1) eqn:Hn; [reflexivity|].
  apply run_in_order_later_blocks with (groups := groups) (reduction := reduction).
  - match goal with
    | R : replicateM _ _ = Ok _ |- _ => exact (replicateM_all _ _ _ R)
    end.
  - apply strided_positive; assumption.
  - exact Hn.
Qed.



(** X7: a layer built by [_make_layer], with one of the two settings of the
    downsampling convolution the factory functions use, takes
    (N, inplanes, L) to (N, planes * expansion, (L - 1) // stride + 1):
    only its first block changes the shape.  In training mode it returns
    unless the output holds a single value per channel. *)
Theorem _make_layer_forward_shape (self_inplanes : Z) (block : BlockClass)
  (planes blocks groups reduction stride dks dpad : Z)
  (layer : list Block) (new_inplanes : Z) (n l : Z) :
  _make_layer self_inplanes block planes blocks groups reduction stride
    dks dpad = Ok (layer, new_inplanes) ->
  (dks = 1 /\ dpad = 0) \/ (dks = 3 /\ dpad = 1) ->
  1 <= self_inplanes -> 16 <= planes ->
  0 < stride -> 1 <= l -> 1 <= n ->
  (forall s,
     outcome (Sequential_forward Block_forward layer [n; self_inplanes; l])
     = Ok s <->
     s = [n; new_inplanes; strided stride l] /\ n * strided stride l <> 1) /\
  (forall e,
     outcome (Sequential_forward Block_forward layer [n; self_inplanes; l])
     = Err e -> e = single_value_error).
Proof.
  intros H Hd _ _ Hs Hl _.
  rewrite (layer_outcome _ _ _ _ _ _ _ _ _ _ _ n l H Hd Hs Hl).
  apply _make_layer_length in H. destruct H as [_ ->].
  destruct (n * strided stride l =? 1) eqn:E.
  - apply Z.eqb_eq in E. split.
    + intros s. split; [discriminate|]. intros [_ C]. contradiction.
    + intros e He. inversion He. reflexivity.
  - apply Z.eqb_neq in E. split.
    + intros s. split.
      * intros Hok. inversion Hok. split; [reflexivity | exact E].
      * intros [-> _]. reflexivity.
    + intros e He. discriminate He.
Qed.

Lemma _make_layer_forward_shape_witness :
  exists layer,
    _make_layer 256 SEResNetBottleneck 128 4 1 16 2 1 0 = Ok (layer, 512) /\
    outcome (Sequential_forward Block_forward layer [1; 256; 2])
    = Err single_value_error.
Proof.
  destruct (_make_layer 256 SEResNetBottleneck 128 4 1 16 2 1 0)
    as [[layer new_inplanes]|e] eqn:E; [| vm_compute in E; discriminate E].
  assert (new_inplanes = 512) as ->.
  { apply _make_layer_length in E. destruct E as [_ ->]. reflexivity. }
  exists layer. split; [reflexivity|].
  destruct (outcome (Sequential_forward Block_forward layer [1; 256; 2]))
    as [s|e] eqn:R.
  - exfalso.
    apply (proj1 (_make_layer_forward_shape 256 SEResNetBottleneck 128 4 1 16
                    2 1 0 layer 512 1 2 E
                    (or_introl (conj eq_refl eq_refl))
                    ltac:(lia) ltac:(lia) ltac:(lia) ltac:(lia)
                    ltac:(lia))) in R.
    destruct R as [_ R]. apply R. reflexivity.
  - f_equal.
    exact (proj2 (_make_layer_forward_shape 256 SEResNetBottleneck 128 4 1 16
                    2 1 0 layer 512 1 2 E
                    (or_introl (conj eq_refl eq_refl))
                    ltac:(lia) ltac:(lia) ltac:(lia) ltac:(lia)
                    ltac:(lia)) e R).
Defined.

(** ** Shapes through layer0 *)

Ltac dlia := Z.to_euclidean_division_equations; lia.

Lemma pooled_half (l : Z) : 2 <= l -> pooled l = l / 2.
Proof.
  intros H. unfold pooled. cbv zeta.
  destruct (l <=? ((l - 3 + 2 - 1) / 2 + 1 - 1) * 2) eqn:E.
  - apply Z.leb_le in E. dlia.
  - apply Z.leb_gt in E. dlia.
Qed.


Lemma MaxPool1d_outcome (n ch l : Z) :
  outcome (MaxPool1d_forward (mkMaxPool1d 3 2 true) [n; ch; l])
  = if pooled l <=? 0 then Err output_size_error else Ok [n; ch; pooled l].
Proof.
  unfold MaxPool1d_forward. rewrite outcome_call, outcome_lift.
  cbn [pool_stride pool_kernel pool_ceil andb].
  change (2 <=? 0) with false. cbv iota zeta. reflexivity.
Qed.

Lemma Conv1d_rejects (c : Conv1d) (x : shape) :
  conv_kernel c = 2 * conv_padding c + 1 ->
  (forall n l, 1 <= l -> x <> [n; conv_in c; l]) ->
  exists e, outcome (Conv1d_forward c x) = Err e.
Proof.
  intros Hk Hx. unfold Conv1d_forward. rewrite outcome_call, outcome_lift.
  destruct x as [|n [|ch [|l [|]]]]; try (eexists; reflexivity).
  destruct (ch =? conv_in c) eqn:E1; cbn [negb]; [|eexists; reflexivity].
  destruct (conv_stride c <=? 0); [eexists; reflexivity|].
  destruct (l + 2 * conv_padding c <? conv_kernel c) eqn:E2;
    [eexists; reflexivity|].
  apply Z.eqb_eq in E1. apply Z.ltb_ge in E2. subst ch.
  exfalso. apply (Hx n l); [lia | reflexivity].
Qed.

Lemma pooled_positive (l : Z) :
  1 <= l -> (pooled l <=? 0) = (l <=? 1).
Proof.
  intros H. destruct (Z_lt_le_dec l 2) as [C|C].
  - replace l with 1 by lia. reflexivity.
  - rewrite pooled_half by exact C.
    destruct (l <=? 1) eqn:E; [apply Z.leb_le in E; lia|].
    apply Z.leb_gt. dlia.
Qed.


Lemma long_product (n l : Z) : 2 <= l -> (n * l =? 1) = false.
Proof.
  intros H. apply Z.eqb_neq. intros E. rewrite Z.mul_comm in E.
  apply Z.eq_mul_1 in E. lia.
Qed.

Lemma reduced_length_400 (L : Z) :
  reduced_length L = 400 <-> 12771 <= L <= 12802.
Proof.
  unfold reduced_length. split.
  - intros H.
    assert (2 <= strided 2 L).
    { destruct (Z_lt_le_dec (strided 2 L) 2) as [C|C]; [|exact C]. exfalso.
      unfold pooled in H. cbv zeta in H.
      destruct (strided 2 L <=? _) in H; unfold strided in *; dlia. }
    rewrite pooled_half in H by assumption. unfold strided in *. dlia.
  - intros H. rewrite pooled_half by (unfold strided; dlia).
    unfold strided. dlia.
Qed.

(** The attention layer of [SENet] on the output of its GRU. *)
Lemma Attention_outcome_2048 (n : Z) :
  outcome (Attention_forward (mkAttention true 256 2048) [n; 2048; 256] None)
  = Ok [n; 256].
Proof.
  unfold Attention_forward. rewrite outcome_call, outcome_lift.
  cbn [feature_dim step_dim att_bias].
  replace (numel [n; 2048; 256]) with ((n * 2048) * 256)
    by (unfold numel; simpl; ring).
  rewrite view_rows_multiple by lia. cbn [bind].
  unfold mm. rewrite Z.eqb_refl. cbn [bind].
  replace (numel [n * 2048; 1]) with (n * 2048) by (unfold numel; simpl; ring).
  rewrite view_rows_multiple by lia. cbn [bind].
  rewrite broadcast_bias. cbn [bind reduce1_keepdim].
  rewrite broadcast_sum. cbn [bind unsqueeze_last app].
  rewrite broadcast_last1. reflexivity.
Qed.


Section Forward.

Variable pool : string -> result Mod.
Variables (block : BlockClass) (layers : list Z).
Variables (groups reduction in_chans inplanes0 : Z) (input_3x3 : bool).
Variables (dks dpad declared_classes : Z).
Variable global_pool : string.
Variable m : SENet.

Hypothesis built :
  SENet_build pool block layers groups reduction in_chans inplanes0 input_3x3
    dks dpad declared_classes global_pool = Ok m.

Hypothesis fits : (dks = 1 /\ dpad = 0) \/ (dks = 3 /\ dpad = 1).

Lemma SENet_build_layer0 :
  exists c b stem,
    layer0 m
    = ("conv1"%string, L0Conv c) :: ("bn1"%string, L0BatchNorm b) :: stem /\
    bn_features b = conv_out c /\
    conv_in c = in_chans /\ conv_stride c = 2 /\
    conv_kernel c = 2 * conv_padding c + 1 /\
    forall n l, 1 <= l -> (n * l =? 1) = false ->
      outcome (run_in_order Layer0_forward stem [n; conv_out c; l])
      = if pooled l <=? 0 then Err output_size_error
        else Ok [n; inplanes0; pooled l].
Proof.
  pose proof built as H. unfold SENet_build in H.
  inv_bind H. inversion H; subst; clear H. cbn [layer0].
  match goal with
  | E : (if input_3x3 then _ else _) = Ok _ |- _ =>
      destruct input_3x3; inv_bind E; inversion E; subst; clear E
  end;
    repeat match goal with
      | E : Conv1d_init _ _ _ _ _ _ _ = Ok _ |- _ =>
          apply Conv1d_init_ok in E; subst
      | E : BatchNorm1d_init _ = Ok _ |- _ =>
          apply BatchNorm1d_init_ok in E; subst
      end;
    cbn [app]; do 3 eexists; (split; [reflexivity|]);
    cbn [conv_in conv_stride conv_kernel conv_padding conv_out bn_features];
    do 4 (split; [reflexivity|]);
    intros n len Hl Hn; cbn [run_in_order]; unfold Layer0_forward; cbn [snd].
  - relu_step. conv_step. bn_step Hl Hl. relu_step.
    conv_step. bn_step Hl Hl. relu_step.
    rewrite (outcome_rbind_guard _ _ _ _ _ (MaxPool1d_outcome _ _ _)).
    destruct (pooled len <=? 0); reflexivity.
  - relu_step.
    rewrite (outcome_rbind_guard _ _ _ _ _ (MaxPool1d_outcome _ _ _)).
    destruct (pooled len <=? 0); reflexivity.
Qed.

Lemma SENet_build_layers :
  exists n0 n1 n2 n3,
    _make_layer inplanes0 block 64 n0 groups reduction 1 1 0
    = Ok (layer1 m, 64 * expansion block) /\
    _make_layer (64 * expansion block) block 128 n1 groups reduction 2
      dks dpad = Ok (layer2 m, 128 * expansion block) /\
    _make_layer (128 * expansion block) block 256 n2 groups reduction 2
      dks dpad = Ok (layer3 m, 256 * expansion block) /\
    _make_layer (256 * expansion block) block 512 n3 groups reduction 2
      dks dpad = Ok (layer4 m, 512 * expansion block).
Proof.
  pose proof built as H. unfold SENet_build in H.
  inv_bind H. inversion H; subst; clear H. cbn [layer1 layer2 layer3 layer4].
  repeat match goal with
    | E : _make_layer _ _ _ _ _ _ _ _ _ = Ok (_, ?z) |- _ =>
        is_var z;
        let Hz := fresh "Hz" in
        destruct (_make_layer_length _ _ _ _ _ _ _ _ _ _ _ E) as [_ Hz];
        subst z
    end.
  do 4 eexists. repeat split; eassumption.
Qed.

(** The shape [forward_features] returns on (N, in_chans, L), and the
    failures it stops at, stage by stage. *)
Lemma forward_features_outcome (n L : Z) :
  1 <= L ->
  outcome (forward_features m [n; in_chans; L])
  = let l0 := strided 2 L in
    let l1 := pooled l0 in
    let l2 := strided 2 l1 in
    let l3 := strided 2 l2 in
    let l4 := strided 2 l3 in
    if n * l0 =? 1 then Err single_value_error
    else if l1 <=? 0 then Err output_size_error
    else if n * l1 =? 1 then Err single_value_error
    else if n * l2 =? 1 then Err single_value_error
    else if n * l3 =? 1 then Err single_value_error
    else if n * l4 =? 1 then Err single_value_error
    else Ok [n; 512 * expansion block; l4].
Proof.
  intros HL. cbv zeta.
  destruct SENet_build_layer0
    as (c & b & stem & H0 & Hb & Hin & Hst & Hk & Hstem).
  destruct SENet_build_layers as (n0 & n1 & n2 & n3 & M1 & M2 & M3 & M4).
  assert (H1 : 1 <= 1) by lia.
  unfold forward_features.
  assert (Hl0 : 1 <= strided 2 L) by (apply strided_positive; lia).
  (* layer0 *)
  assert (E0 : outcome (Sequential_forward Layer0_forward (layer0 m)
                          [n; in_chans; L])
               = if n * strided 2 L =? 1 then Err single_value_error
                 else if pooled (strided 2 L) <=? 0 then Err output_size_error
                 else Ok [n; inplanes0; pooled (strided 2 L)]).
  { unfold Sequential_forward. rewrite outcome_call, H0.
    cbn [run_in_order]. unfold Layer0_forward at 1 2. cbn [snd].
    erewrite outcome_rbind
      by (apply Conv1d_outcome; first [congruence | lia]).
    cbv beta. rewrite Hst.
    rewrite (outcome_rbind_guard _ _ _ _ _
               (BatchNorm1d_outcome b n _ _ (eq_sym Hb))).
    destruct (n * strided 2 L =? 1) eqn:N0; [reflexivity|].
    apply Hstem; assumption. }
  destruct (n * strided 2 L =? 1) eqn:N0;
    [rewrite (outcome_rbind_err _ _ _ E0); reflexivity|].
  destruct (pooled (strided 2 L) <=? 0) eqn:P;
    [rewrite (outcome_rbind_err _ _ _ E0); reflexivity|].
  rewrite (outcome_rbind _ _ _ E0). clear E0.
  apply Z.leb_gt in P.
  set (l1 := pooled (strided 2 L)) in *.
  assert (Hl1 : 1 <= l1) by lia.
  (* layer1 *)
  rewrite (outcome_rbind_guard _ _ _ _ _
             (layer_outcome _ _ _ _ _ _ _ _ _ _ _ n l1 M1
                (or_introl (conj eq_refl eq_refl)) Z.lt_0_1 Hl1)).
  rewrite strided_1.
  destruct (n * l1 =? 1); [reflexivity|].
  (* layer2 *)
  rewrite (outcome_rbind_guard _ _ _ _ _
             (layer_outcome _ _ _ _ _ _ _ _ _ _ _ n l1 M2 fits Z.lt_0_2 Hl1)).
  destruct (n * strided 2 l1 =? 1); [reflexivity|].
  set (l2 := strided 2 l1) in *.
  assert (Hl2 : 1 <= l2) by (apply strided_positive; lia).
  (* layer3 *)
  rewrite (outcome_rbind_guard _ _ _ _ _
             (layer_outcome _ _ _ _ _ _ _ _ _ _ _ n l2 M3 fits Z.lt_0_2 Hl2)).
  destruct (n * strided 2 l2 =? 1); [reflexivity|].
  set (l3 := strided 2 l2) in *.
  assert (Hl3 : 1 <= l3) by (apply strided_positive; lia).
  (* layer4 *)
  rewrite (outcome_rbind_guard _ _ _ _ _
             (layer_outcome _ _ _ _ _ _ _ _ _ _ _ n l3 M4 fits Z.lt_0_2 Hl3)).
  destruct (n * strided 2 l3 =? 1); reflexivity.
Qed.

Lemma forward_features_rejects (x : shape) :
  (forall n l, 1 <= l -> x <> [n; in_chans; l]) ->
  exists e, outcome (forward_features m x) = Err e.
Proof.
  intros Hx.
  destruct SENet_build_layer0
    as (c & b & stem & H0 & Hb & Hin & Hst & Hk & Hstem).
  destruct (Conv1d_rejects c x Hk) as [e He]; [rewrite Hin; exact Hx|].
  exists e. unfold forward_features. apply outcome_rbind_err.
  unfold Sequential_forward. rewrite outcome_call, H0. cbn [run_in_order].
  apply outcome_rbind_err. exact He.
Qed.

Lemma forward_features_shape (n L : Z) (s : shape) :
  1 <= L ->
  outcome (forward_features m [n; in_chans; L]) = Ok s ->
  s = [n; 512 * expansion block; reduced_length L].
Proof.
  intros HL. rewrite forward_features_outcome by exact HL. cbv zeta.
  repeat match goal with
    | |- context [if ?c then _ else _] => destruct c
    end; intros H; inversion H; reflexivity.
Qed.

Lemma forward_features_long (n L : Z) :
  2 <= reduced_length L ->
  outcome (forward_features m [n; in_chans; L])
  = Ok [n; 512 * expansion block; reduced_length L].
Proof.
  intros H.
  assert (H0 : 2 <= strided 2 L).
  { destruct (Z_lt_le_dec (strided 2 L) 2) as [C|C]; [|exact C]. exfalso.
    unfold reduced_length, pooled in H. cbv zeta in H.
    destruct (strided 2 L <=? _) in H; unfold strided in *; dlia. }
  assert (HL : 1 <= L) by (unfold strided in H0; dlia).
  rewrite forward_features_outcome by exact HL. cbv zeta.
  unfold reduced_length in *.
  rewrite pooled_positive by lia.
  rewrite pooled_half in * by exact H0.
  rewrite !long_product by (unfold strided in *; dlia).
  destruct (strided 2 L <=? 1) eqn:E; [apply Z.leb_le in E; lia|].
  reflexivity.
Qed.

Lemma logits_outcome_2048 (n r : Z) :
  outcome (logits m [n; 2048; r])
  = if r =? 400 then Ok [n; 9] else Err input_size_error.
Proof.
  destruct (SENet_build_fields _ _ _ _ _ _ _ _ _ _ _ _ _ built)
    as (_ & Hlin & Hgru & _ & Hatt & _).
  unfold logits. rewrite Hlin, Hgru, Hatt.
  assert (G : outcome (RNN_forward (mkRNN GRU 400 128) [n; 2048; r])
              = if r =? 400 then Ok ([n; 2048; 256], [2; n; 128])
                else Err input_size_error).
  { unfold RNN_forward. rewrite outcome_call, outcome_lift. reflexivity. }
  destruct (r =? 400);
    [rewrite (outcome_rbind _ _ _ G) | exact (outcome_rbind_err _ _ _ G)].
  cbn [fst].
  rewrite (outcome_rbind _ _ _ (Attention_outcome_2048 n)).
  erewrite outcome_rbind; [reflexivity|].
  unfold Linear_forward. rewrite outcome_call, outcome_lift. reflexivity.
Qed.


Lemma SENet_forward_outcome (x : shape) :
  outcome (SENet_forward m x)
  = match outcome (forward_features m x) with
    | Ok s => outcome (logits m s)
    | Err e => Err e
    end.
Proof.
  unfold SENet_forward. rewrite outcome_call.
  destruct (outcome (forward_features m x)) as [s|e] eqn:F.
  - rewrite (outcome_rbind _ _ _ F).
    destruct (outcome (logits m s)) as [y|e] eqn:G.
    + rewrite (outcome_rbind _ _ _ G). reflexivity.
    + apply outcome_rbind_err. exact G.
  - apply outcome_rbind_err. exact F.
Qed.

Lemma forward_returns_shape (n L : Z) (s : shape) :
  expansion block = 4 ->
  outcome (SENet_forward m [n; in_chans; L]) = Ok s ->
  s = [n; 9] /\ reduced_length L = 400.
Proof.
  intros Hexp. rewrite SENet_forward_outcome.
  destruct (outcome (forward_features m [n; in_chans; L])) as [f|e] eqn:F;
    [|discriminate].
  destruct (Z_lt_le_dec L 1) as [HL|HL].
  { destruct (forward_features_rejects [n; in_chans; L]) as [e He].
    - intros n' l' Hl' E. inversion E. lia.
    - rewrite He in F. discriminate F. }
  apply forward_features_shape in F; [|exact HL]. subst f.
  rewrite Hexp. change (512 * 4) with 2048. rewrite logits_outcome_2048.
  destruct (reduced_length L =? 400) eqn:R; [|discriminate].
  intros H. inversion H. split; [reflexivity | apply Z.eqb_eq, R].
Qed.

Lemma forward_returns_on_400 (n L : Z) :
  expansion block = 4 ->
  reduced_length L = 400 ->
  outcome (SENet_forward m [n; in_chans; L]) = Ok [n; 9].
Proof.
  intros Hexp HL. rewrite SENet_forward_outcome.
  rewrite forward_features_long by lia.
  rewrite Hexp. change (512 * 4) with 2048. rewrite logits_outcome_2048.
  rewrite HL. reflexivity.
Qed.




End Forward.




(** ** The factory functions *)

(** X11: each of the seven factory functions that pass a bottleneck class,
    whatever stem and downsampling convolution it selects, builds a network
    whose [forward] returns on (N, in_chans, L), N >= 1, exactly when
    12771 <= L <= 12802, and then with shape (N, 9), also for [senet154]
    and its default of 1000 classes. *)
Theorem bottleneck_factories_accept_one_length_range
  (pool : string -> result Mod) (declared_classes in_chans : Z)
  (global_pool : string) (m : SENet) (tree : Mod) (n L : Z) (s : shape) :
  In (Ok (m, tree))
     (bottleneck_factories pool declared_classes in_chans global_pool) ->
  1 <= in_chans -> 1 <= n ->
  outcome (SENet_forward m [n; in_chans; L]) = Ok s <->
  s = [n; 9] /\ 12771 <= L <= 12802.
Proof.
  intros Hin _ _. unfold bottleneck_factories in Hin.
  assert (B : exists block layers groups i3 dks dpad,
            SENet_build pool block layers groups 16 in_chans 64 i3 dks dpad
              declared_classes global_pool = Ok m /\
            expansion block = 4 /\
            ((dks = 1 /\ dpad = 0) \/ (dks = 3 /\ dpad = 1))).
  { repeat (destruct Hin as [Hin|Hin];
            [ unfold seresnet50, seresnet101, seresnet152, senet154,
                seresnext26_32x4d, seresnext50_32x4d, seresnext101_32x4d,
                SENet_init in Hin;
              inv_bind Hin; inversion Hin; subst; clear Hin;
              do 6 eexists; split; [eassumption|];
              split; [reflexivity|];
              first [left; split; reflexivity | right; split; reflexivity]
            | ]).
    contradiction Hin. }
  destruct B as (block & layers & groups & i3 & dks & dpad & B & Hexp & Hfit).
  split.
  - intros H.
    destruct (forward_returns_shape _ _ _ _ _ _ _ _ _ _ _ _ _ B Hfit n L s
                Hexp H) as [-> R].
    split; [reflexivity | apply reduced_length_400; exact R].
  - intros [-> HL]. apply reduced_length_400 in HL.
    exact (forward_returns_on_400 _ _ _ _ _ _ _ _ _ _ _ _ _ B Hfit n L
             Hexp HL).
Qed.

Lemma bottleneck_factories_accept_one_length_range_witness :
  exists m tree,
    senet154 sample_pool 1000 12 "avg" = Ok (m, tree) /\
    outcome (SENet_forward m [2; 12; 12771]) = Ok [2; 9].
Proof.
  destruct (senet154 sample_pool 1000 12 "avg") as [[m tree]|e] eqn:E;
    [| vm_compute in E; discriminate E].
  exists m, tree. split; [reflexivity|].
  apply (proj2 (bottleneck_factories_accept_one_length_range sample_pool
                  1000 12 "avg" m tree 2 12771 [2; 9]
                  ltac:(unfold bottleneck_factories; rewrite E; simpl; tauto)
                  ltac:(lia) ltac:(lia))).
  split; [reflexivity | lia].
Defined.

(** ** The script at the end of the file *)

(** X13: the call [m(x)] of the script never returns a value: when the
    pooling wrapper can be built and the initialisation loop passes over
    its modules, the input of length 2560 * 6 leaves 480 samples where the
    GRU takes 400, and the call raises the GRU's error. *)
Theorem main_raises (pool : string -> result Mod) :
  main pool = match pool "max"%string with
              | Ok wrapper =>
                  match weight_init_loop wrapper 0 with
                  | Ok _ => Err input_size_error
                  | Err e => Err e
                  end
              | Err e => Err e
              end.
Proof.
  unfold main, seresnet50, SENet_init.
  destruct (SENet_build pool SEResNetBottleneck [3; 4; 6; 3] 1 16 12 64 false
              1 0 9 "max") as [m|e] eqn:B; cbn [bind fst].
  - destruct (SENet_build_fields _ _ _ _ _ _ _ _ _ _ _ _ _ B)
      as (_ & _ & _ & _ & _ & _ & _ & ->).
    rewrite weight_init_loop_SENet.
    destruct (weight_init_loop (avg_pool m) 0) as [[w d]|e];
      cbn [bind fst]; [|reflexivity].
    rewrite SENet_forward_outcome.
    rewrite (forward_features_long _ _ _ _ _ _ _ _ _ _ _ _ _ B
               (or_introl (conj eq_refl eq_refl)))
      by (vm_compute; discriminate).
    change (512 * expansion SEResNetBottleneck) with 2048.
    rewrite (logits_outcome_2048 _ _ _ _ _ _ _ _ _ _ _ _ _ B).
    reflexivity.
  - vm_compute in B.
    destruct (pool _); [discriminate B | inversion B; reflexivity].
Qed.

(** ** The attention blocks no network uses *)

Lemma floordiv_ok (a b q : Z) : floordiv a b = Ok q -> q = a / b.
Proof.
  unfold floordiv. destruct (b =? 0); intros H; inversion H. reflexivity.
Qed.

Lemma adaptive_pool1_outcome (n ch l : Z) :
  1 <= l -> adaptive_pool1 [n; ch; l] = Ok [n; ch; 1].
Proof.
  intros H. unfold adaptive_pool1.
  destruct (0 <? l) eqn:E; [reflexivity | apply Z.ltb_ge in E; lia].
Qed.

Ltac pool_step Hl :=
  erewrite outcome_rbind
    by (try unfold AdaptiveAvgPool1d_forward;
        try unfold AdaptiveMaxPool1d_forward;
        rewrite outcome_call, outcome_lift;
        apply adaptive_pool1_outcome; exact Hl);
  cbv beta.

Ltac lift_step lem :=
  erewrite outcome_rbind by (rewrite outcome_lift; apply lem); cbv beta.

(** X14: [CBAM_Module.forward] keeps the shape (N, channels, L) of its
    input: the channel gate has shape (N, channels, 1), the spatial gate
    (N, 1, L), and both are broadcast against the input. *)
Theorem CBAM_Module_forward_keeps_shape (channels reduction : Z)
  (m : CBAM_Module) (n l : Z) :
  CBAM_Module_init channels reduction = Ok m ->
  1 <= channels / reduction -> 1 <= n -> 1 <= l ->
  outcome (CBAM_Module_forward m [n; channels; l]) = Ok [n; channels; l].
Proof.
  intros H _ _ Hl. unfold CBAM_Module_init in H. inv_bind H.
  inversion H; subst; clear H.
  repeat match goal with
    | E : floordiv _ _ = Ok _ |- _ => apply floordiv_ok in E; subst
    | E : Conv1d_init _ _ _ _ _ _ _ = Ok _ |- _ =>
        apply Conv1d_init_ok in E; subst
    end.
  unfold CBAM_Module_forward. rewrite outcome_call.
  cbv zeta. cbn [cbam_fc1 cbam_fc2 conv_after_concat].
  pool_step Hl. pool_step Hl.
  conv_step. conv_step. relu_step. relu_step. conv_step. conv_step.
  lift_step broadcast_same3.
  relu_step.
  lift_step broadcast_last1.
  erewrite outcome_rbind by reflexivity. cbv beta.
  erewrite outcome_rbind by reflexivity. cbv beta.
  erewrite outcome_rbind
    by (rewrite outcome_lift; unfold cat1; rewrite Z.eqb_refl;
        destruct (list_eq_dec Z.eq_dec [l] [l]) as [_|C];
        [reflexivity | contradiction C; reflexivity]).
  cbv beta. change (1 + 1) with 2.
  conv_step. relu_step.
  rewrite outcome_lift. apply broadcast_middle1.
Qed.

Lemma CBAM_Module_forward_keeps_shape_witness :
  exists m,
    CBAM_Module_init 64 16 = Ok m /\
    outcome (CBAM_Module_forward m [2; 64; 100]) = Ok [2; 64; 100].
Proof.
  destruct (CBAM_Module_init 64 16) as [m|e] eqn:E;
    [| vm_compute in E; discriminate E].
  exists m. split; [reflexivity|].
  apply (CBAM_Module_forward_keeps_shape 64 16 m 2 100 E);
    [vm_compute; discriminate | lia | lia].
Defined.

(** X15: [SCSEModule.forward] keeps the shape (N, channels, L) of its
    input: the channel gate (N, channels, 1) and the spatial gate
    (N, channels, L) are broadcast against the input and the two products
    are added. *)
Theorem SCSEModule_forward_keeps_shape (channels reduction : Z)
  (m : SCSEModule) (n l : Z) :
  SCSEModule_init channels reduction = Ok m ->
  1 <= channels / reduction -> 1 <= n -> 1 <= l ->
  outcome (SCSEModule_forward m [n; channels; l]) = Ok [n; channels; l].
Proof.
  intros H _ _ Hl. unfold SCSEModule_init in H. inv_bind H.
  inversion H; subst; clear H.
  repeat match goal with
    | E : floordiv _ _ = Ok _ |- _ => apply floordiv_ok in E; subst
    | E : Conv1d_init _ _ _ _ _ _ _ = Ok _ |- _ =>
        apply Conv1d_init_ok in E; subst
    end.
  unfold SCSEModule_forward. rewrite outcome_call.
  cbn [cSE_fc1 cSE_fc2 sSE_conv].
  erewrite outcome_rbind.
  2:{ rewrite outcome_call. pool_step Hl. conv_step. relu_step. conv_step.
      reflexivity. }
  cbv beta. lift_step broadcast_last1.
  erewrite outcome_rbind.
  2:{ rewrite outcome_call. conv_step. reflexivity. }
  cbv beta. lift_step broadcast_same3.
  rewrite outcome_lift. apply broadcast_same3.
Qed.

Lemma SCSEModule_forward_keeps_shape_witness :
  exists m,
    SCSEModule_init 64 16 = Ok m /\
    outcome (SCSEModule_forward m [2; 64; 100]) = Ok [2; 64; 100].
Proof.
  destruct (SCSEModule_init 64 16) as [m|e] eqn:E;
    [| vm_compute in E; discriminate E].
  exists m. split; [reflexivity|].
  apply (SCSEModule_forward_keeps_shape 64 16 m 2 100 E);
    [vm_compute; discriminate | lia | lia].
Defined.

End ShapeExtra.

(** * Further properties of the value level *)

Module ValueExtra.

Import Value.
Import ValueProofs.
Local Open Scope R_scope.

(** ** The final ReLU of the residual blocks *)

Lemma relu_nonnegative (v : R) : 0 <= relu v.
Proof. unfold relu. apply Rmax_l. Qed.

Lemma nth_map_nil {A B : Type} (f : list A -> list B) (l : list (list A))
  (i : nat) :
  f [] = [] -> nth i (map f l) [] = f (nth i l []).
Proof. intros H. rewrite <- (map_nth f l [] i), H. reflexivity. Qed.

Lemma entry3_map3_relu (x : T3) (i j k : nat) :
  0 <= entry3 (map3 relu x) i j k.
Proof.
  unfold entry3, entry2, entry1, map3, map2, map1.
  rewrite !nth_map_nil by reflexivity.
  destruct (Nat.lt_ge_cases k (length (nth j (nth i x []) []))) as [Hk|Hk].
  - rewrite (map_nth_in relu _ k 0 0) by exact Hk. apply relu_nonnegative.
  - rewrite nth_overflow by (rewrite length_map; exact Hk). apply Rle_refl.
Qed.

Lemma Block_forward_nonnegative (b : Block) (x y : T3) (i j k : nat) :
  Block_forward b x = Ok y -> 0 <= entry3 y i j k.
Proof.
  destruct b as [b|b]; simpl;
    unfold Bottleneck_forward, SEResNetBlock_forward; intros H;
    ShapeProofs.inv_bind H; inversion H; apply entry3_map3_relu.
Qed.

(** X16: every residual block ends in a ReLU, so a layer of at least one
    block, as [_make_layer] builds them, returns no negative entry, whatever
    the weights and the input. *)
Theorem layers_return_nonnegative (layer : list Block) (x y : T3)
  (i j k : nat) :
  layer <> [] ->
  Sequential_forward Block_forward layer x = Ok y ->
  0 <= entry3 y i j k.
Proof.
  revert x. induction layer as [|b rest IH]; intros x Hne H;
    [contradiction Hne; reflexivity|].
  cbn [Sequential_forward] in H. ShapeProofs.inv_bind H.
  destruct rest as [|b' rest'].
  - cbn [Sequential_forward] in H. inversion H; subst.
    eapply Block_forward_nonnegative; eassumption.
  - eapply IH; [discriminate | exact H].
Qed.

Lemma layers_return_nonnegative_witness :
  exists y,
    Sequential_forward Block_forward [sample_block; sample_block]
      [[[1; -2; 3]; [-4; 5; -6]]] = Ok y /\
    0 <= entry3 y 0 1 2.
Proof.
  destruct (Sequential_forward Block_forward [sample_block; sample_block]
              [[[1; -2; 3]; [-4; 5; -6]]]) as [y|e] eqn:E.
  - exists y. split; [reflexivity|].
    apply (layers_return_nonnegative [sample_block; sample_block]
             [[[1; -2; 3]; [-4; 5; -6]]] y 0 1 2);
      [discriminate | exact E].
  - exfalso. discriminate E.
Defined.

(** ** The gate of the squeeze-and-excitation module *)

Lemma sigmoid_range (v : R) : 0 < sigmoid v < 1.
Proof.
  unfold sigmoid. pose proof (exp_pos (- v)) as He.
  assert (Hd : 0 < 1 + exp (- v)) by lra.
  split.
  - apply Rdiv_lt_0_compat; lra.
  - apply (Rmult_lt_reg_r (1 + exp (- v))); [exact Hd|].
    unfold Rdiv. rewrite Rmult_assoc, Rinv_l by lra. lra.
Qed.

Lemma entry3_map3 (f : R -> R) (B C L : nat) (x : T3) (b c l : nat) :
  has_shape3 B C L x = true -> (b < B)%nat -> (c < C)%nat -> (l < L)%nat ->
  entry3 (map3 f x) b c l = f (entry3 x b c l).
Proof.
  intros Hx Hb Hc Hl. apply has_shape3_spec in Hx. destruct Hx as [Lx Rx].
  unfold entry3, map3. rewrite nth_map_nil by reflexivity.
  apply (entry2_map2 f C L); [|exact Hc | exact Hl].
  apply Rx. apply nth_In. lia.
Qed.

(** The gate is a tensor of sigmoids, one per batch element and channel. *)
Lemma SEModule_gate_sigmoid (self : SEModule) (channels reduction : Z)
  (B L : nat) (x : T3) :
  SEModule_wf channels reduction self = true ->
  has_shape3 B (Z.to_nat channels) L x = true ->
  (1 <= L)%nat ->
  exists z,
    SEModule_gate self x = Ok (map3 sigmoid z) /\
    has_shape3 B (Z.to_nat channels) 1 z = true.
Proof.
  unfold SEModule_wf. intros Hwf Hx HL.
  repeat (apply andb_true_iff in Hwf; destruct Hwf as [Hwf ?]).
  apply Z.ltb_lt in Hwf.
  repeat match goal with
    | H : negb (_ =? _)%Z = true |- _ => apply negb_true_iff, Z.eqb_neq in H
    | H : (_ <=? _)%Z = true |- _ => apply Z.leb_le in H
    end.
  set (C := Z.to_nat channels) in *.
  set (Cr := Z.to_nat (channels / reduction)) in *.
  assert (Hsizes : (1 <= C /\ 1 <= Cr)%nat \/ (C = O /\ Cr = O)).
  { destruct (Z.eq_dec channels 0) as [->|Hnz].
    - right. subst C Cr. rewrite Zdiv_0_l. split; reflexivity.
    - left. assert (0 < reduction)%Z.
      { destruct (Z_lt_le_dec 0 reduction) as [Hp|Hn]; [exact Hp|].
        assert (Hr : (reduction < 0)%Z) by lia.
        pose proof (Z_mult_div_ge_neg channels reduction Hr). nia. }
      assert (1 <= channels / reduction)%Z
        by (apply Z.div_le_lower_bound; lia).
      subst C Cr. lia. }
  destruct (AdaptiveAvgPool1d_1_shape B C L x Hx HL) as (p & Ep & Sp).
  destruct (PointwiseConv_forward_shape C Cr B 1 (fc1 self) p)
    as (y1 & E1 & S1); try assumption.
  pose proof (map3_shape relu _ _ _ _ S1) as S1'.
  destruct (PointwiseConv_forward_shape Cr C B 1 (fc2 self) (map3 relu y1))
    as (y2 & E2 & S2); try assumption; [lia|].
  exists y2. split; [|exact S2].
  unfold SEModule_gate. rewrite Ep. cbn [bind]. rewrite E1. cbn [bind].
  rewrite E2. reflexivity.
Qed.

(** X17: over the reals, an [SEModule] multiplies every entry of its input
    by a factor strictly between 0 and 1, the sigmoid gate of its channel:
    it keeps the sign of every entry and never increases its absolute
    value. *)
Theorem SEModule_forward_attenuates (self : SEModule)
  (channels reduction : Z) (B L : nat) (x : T3) :
  SEModule_wf channels reduction self = true ->
  has_shape3 B (Z.to_nat channels) L x = true ->
  (1 <= L)%nat ->
  exists y,
    SEModule_forward self x = Ok y /\
    forall b c l, (b < B)%nat -> (c < Z.to_nat channels)%nat -> (l < L)%nat ->
      (exists s, 0 < s < 1 /\ entry3 y b c l = entry3 x b c l * s) /\
      Rabs (entry3 y b c l) <= Rabs (entry3 x b c l) /\
      (0 < entry3 x b c l -> 0 < entry3 y b c l) /\
      (entry3 x b c l < 0 -> entry3 y b c l < 0).
Proof.
  intros Hwf Hx HL.
  destruct (SEModule_gate_sigmoid self channels reduction B L x Hwf Hx HL)
    as (z & G & Sz).
  pose proof (map3_shape sigmoid _ _ _ _ Sz) as Sg.
  destruct (bop3_rescale B _ L x (map3 sigmoid z) Hx Sg) as (y & Ey & _ & Hy).
  exists y. split; [unfold SEModule_forward; rewrite G; exact Ey|].
  intros b c l Hb Hc Hl. rewrite (Hy b c l Hb Hc Hl).
  rewrite (entry3_map3 sigmoid B _ 1 z b c 0 Sz Hb Hc) by lia.
  pose proof (sigmoid_range (entry3 z b c 0)) as [S0 S1].
  set (s := sigmoid (entry3 z b c 0)) in *.
  set (v := entry3 x b c l).
  split; [exists s; split; [split; assumption | reflexivity]|].
  split; [| split].
  - rewrite Rabs_mult, (Rabs_pos_eq s) by lra.
    pose proof (Rabs_pos v). nra.
  - intros Hv. nra.
  - intros Hv. nra.
Qed.

Lemma SEModule_forward_attenuates_witness :
  exists y,
    SEModule_forward sample_se [[[1; 2; 3]; [4; 5; 6]]] = Ok y /\
    forall b c l, (b < 1)%nat -> (c < 2)%nat -> (l < 3)%nat ->
      (exists s, 0 < s < 1 /\
         entry3 y b c l = entry3 [[[1; 2; 3]; [4; 5; 6]]] b c l * s) /\
      Rabs (entry3 y b c l) <= Rabs (entry3 [[[1; 2; 3]; [4; 5; 6]]] b c l) /\
      (0 < entry3 [[[1; 2; 3]; [4; 5; 6]]] b c l -> 0 < entry3 y b c l) /\
      (entry3 [[[1; 2; 3]; [4; 5; 6]]] b c l < 0 -> entry3 y b c l < 0).
Proof.
  apply (SEModule_forward_attenuates sample_se 2%Z 1%Z 1 3
           [[[1; 2; 3]; [4; 5; 6]]]).
  - reflexivity.
  - reflexivity.
  - lia.
Defined.

(** ** The coefficients of the attention layer *)






(** ** The attention layer with a mask *)

(** [Attention.forward] from the mask on, once the scores are computed. *)
Lemma Attention_coefficients_from_scores (self : Attention) (B : nat)
  (x : T3) (mask : option T2) :
  Attention_wf self = true ->
  has_shape3 B (step_dim self) (feature_dim self) x = true ->
  (1 <= step_dim self)%nat -> (1 <= feature_dim self)%nat ->
  Attention_coefficients self x mask
  = (a <- match mask with
          | Some k => bop2 Rmult (map (scores self) x) k
          | None => Ok (map (scores self) x)
          end ;;
     q <- bop2 Rdiv a (sum1_keepdim a) ;;
     Ok (map2 (fun v => v + 1e-10) q)).
Proof.
  intros Hwf Hx HS HF. pose proof Hwf as Hwf'. unfold Attention_wf in Hwf'.
  apply andb_true_iff in Hwf'. destruct Hwf' as [Hw Hb].
  set (dotw := fun row : list R => dot row (column 0 (att_weight self))).
  unfold Attention_coefficients.
  rewrite (view_rows_concat (feature_dim self) (concat x) HF)
    by (intros r Hr; eapply in_concat_shape3; eauto).
  cbn [bind].
  rewrite (mm_column (feature_dim self) (concat x) _ HF Hw)
    by (intros r Hr; eapply in_concat_shape3; eauto).
  cbn [bind]. fold dotw.
  rewrite (concat_singletons dotw), concat_map.
  pose proof Hx as Hx'. apply has_shape3_spec in Hx'. destruct Hx' as [Lx Rx].
  rewrite (view_rows_concat (step_dim self) (map (map dotw) x) HS).
  2:{ intros r Hr. apply in_map_iff in Hr. destruct Hr as (xb & <- & Hxb).
      rewrite length_map. specialize (Rx xb Hxb).
      apply has_shape2_spec in Rx. apply Rx. }
  cbn [bind].
  set (addb := fun e : list R =>
                 if att_bias self then zipWith Rplus e (att_b self) else e).
  assert (Eb : (if att_bias self
                then bop2_1 Rplus (map (map dotw) x) (att_b self)
                else Ok (map (map dotw) x))
               = Ok (map (fun xb => addb (map dotw xb)) x)).
  { unfold addb. destruct (att_bias self).
    - unfold bop2_1.
      rewrite <- (map_map (map dotw)
                    (fun e => zipWith Rplus e (att_b self))).
      apply mapM_ok. intros e He. apply bop1_same.
      apply in_map_iff in He. destruct He as (xb & <- & Hxb).
      rewrite length_map. specialize (Rx xb Hxb).
      apply has_shape2_spec in Rx. destruct Rx as [Lxb _].
      apply has_shape1_spec in Hb. rewrite Lxb, Hb. reflexivity.
    - reflexivity. }
  rewrite Eb. cbn [bind].
  assert (Ea : map2 exp (map2 tanh (map (fun xb => addb (map dotw xb)) x))
               = map (scores self) x).
  { unfold map2, map1. rewrite !map_map. reflexivity. }
  rewrite Ea. reflexivity.
Qed.

Lemma bop2_div_row_sums (a : T2) :
  bop2 Rdiv a (sum1_keepdim a)
  = Ok (map (fun r => map (fun v => v / sum r) r) a).
Proof.
  unfold sum1_keepdim.
  transitivity
    (Ok (zipWith (fun (r s : list R) => map (fun v => v / hd 0 s) r)
                 a (map (fun r => [sum r]) a))).
  - apply bzip_same; [rewrite length_map; reflexivity|].
    intros r s Hin. apply in_combine_r in Hin. apply in_map_iff in Hin.
    destruct Hin as (r' & <- & _). apply bop1_scalar_right.
  - rewrite zipWith_map_self. reflexivity.
Qed.

Lemma scores_shape (self : Attention) (B : nat) (x : T3) :
  Attention_wf self = true ->
  has_shape3 B (step_dim self) (feature_dim self) x = true ->
  has_shape2 B (step_dim self) (map (scores self) x) = true.
Proof.
  intros Hwf Hx. pose proof Hx as Hx'. apply has_shape3_spec in Hx'.
  destruct Hx' as [Lx _]. apply has_shape2_spec.
  split; [rewrite length_map; exact Lx|].
  intros row Hr. apply in_map_iff in Hr. destruct Hr as (xb & <- & Hxb).
  apply (normalised_scores_length self B x xb Hwf Hx Hxb).
Qed.

Lemma sum_nonnegative (r : list R) :
  (forall v, In v r -> 0 <= v) -> 0 <= sum r.
Proof.
  induction r as [|v r IH]; intros H; [simpl; lra|].
  change (sum (v :: r)) with (v + sum r).
  pose proof (H v (or_introl eq_refl)).
  assert (0 <= sum r) by (apply IH; intros u Hu; apply H; right; exact Hu).
  lra.
Qed.

Lemma sum_positive_entry (r : list R) (t : nat) :
  (forall v, In v r -> 0 <= v) -> (t < length r)%nat -> 0 < nth t r 0 ->
  0 < sum r.
Proof.
  revert t. induction r as [|v r IH]; intros t H Ht Hv; [simpl in Ht; lia|].
  change (sum (v :: r)) with (v + sum r).
  pose proof (H v (or_introl eq_refl)).
  assert (Hr : forall u, In u r -> 0 <= u) by (intros u Hu; apply H; right; exact Hu).
  pose proof (sum_nonnegative r Hr).
  destruct t as [|t]; simpl in Hv.
  - lra.
  - assert (0 < sum r) by (apply (IH t); [exact Hr | simpl in Ht; lia | exact Hv]).
    lra.
Qed.

(** X19: over the reals, with a mask of zeros and ones of shape
    (batch, step_dim) that keeps at least one step of every batch element,
    a masked step gets the coefficient 1e-10 exactly, not 0: the constant
    is added after the mask is applied; every kept step gets more. *)
Theorem Attention_masked_steps_keep_a_weight (self : Attention) (B : nat)
  (x : T3) (k : T2) :
  Attention_wf self = true ->
  has_shape3 B (step_dim self) (feature_dim self) x = true ->
  has_shape2 B (step_dim self) k = true ->
  (1 <= step_dim self)%nat -> (1 <= feature_dim self)%nat ->
  (forall b t, (b < B)%nat -> (t < step_dim self)%nat ->
     entry2 k b t = 0 \/ entry2 k b t = 1) ->
  (forall b, (b < B)%nat ->
     exists t, (t < step_dim self)%nat /\ entry2 k b t = 1) ->
  exists a,
    Attention_coefficients self x (Some k) = Ok a /\
    forall b t, (b < B)%nat -> (t < step_dim self)%nat ->
      (entry2 k b t = 0 -> entry2 a b t = 1e-10) /\
      (entry2 k b t = 1 -> 1e-10 < entry2 a b t).
Proof.
  intros Hwf Hx Hk HS HF H01 _.
  pose proof (scores_shape self B x Hwf Hx) as Ss.
  destruct (bop2_same Rmult B (step_dim self) _ k Ss Hk) as [Em Sm].
  set (am := zipWith (zipWith Rmult) (map (scores self) x) k) in *.
  exists (map normalise am).
  split.
  { rewrite (Attention_coefficients_from_scores self B x (Some k))
      by assumption.
    rewrite Em. cbn [bind]. rewrite bop2_div_row_sums. cbn [bind].
    f_equal. unfold map2, map1, normalise. rewrite map_map.
    apply map_ext. intros r. rewrite map_map. reflexivity. }
  pose proof Sm as Sm'. apply has_shape2_spec in Sm'. destruct Sm' as [Lm Rm].
  assert (Entry : forall b t, (b < B)%nat -> (t < step_dim self)%nat ->
            entry2 am b t = entry2 (map (scores self) x) b t * entry2 k b t)
    by (intros b t Hb Ht; apply (entry2_zipWith Rmult B (step_dim self));
        assumption).
  assert (Score : forall b t, (b < B)%nat -> (t < step_dim self)%nat ->
            0 < entry2 (map (scores self) x) b t).
  { intros b t Hb Ht. apply has_shape2_spec in Ss. destruct Ss as [Ls Rs].
    unfold entry2, entry1.
    assert (Hrow : In (nth b (map (scores self) x) [])
                      (map (scores self) x)) by (apply nth_In; lia).
    pose proof (Rs _ Hrow) as Lrow.
    apply in_map_iff in Hrow. destruct Hrow as (xb & E & _).
    rewrite <- E in *. apply (scores_positive self xb).
    apply nth_In. lia. }
  intros b t Hb Ht.
  assert (Hrow : In (nth b am []) am) by (apply nth_In; lia).
  pose proof (Rm _ Hrow) as Lrow.
  assert (Coef : entry2 (map normalise am) b t
                 = entry2 am b t / sum (nth b am []) + 1e-10).
  { unfold entry2, entry1.
    rewrite (map_nth_in normalise am b [] []) by lia.
    unfold normalise.
    rewrite (map_nth_in (fun v => v / sum (nth b am []) + 1e-10)
               (nth b am []) t 0 0) by lia.
    reflexivity. }
  rewrite Coef, (Entry b t Hb Ht).
  split.
  - intros ->. unfold Rdiv. rewrite Rmult_0_r, Rmult_0_l. lra.
  - intros E1. rewrite E1, Rmult_1_r.
    assert (Nonneg : forall v, In v (nth b am []) -> 0 <= v).
    { intros v Hv. apply In_nth with (d := 0) in Hv.
      destruct Hv as (t' & Ht' & <-). rewrite Lrow in Ht'.
      change (nth t' (nth b am []) 0) with (entry2 am b t').
      rewrite (Entry b t' Hb Ht').
      pose proof (Score b t' Hb Ht').
      destruct (H01 b t' Hb Ht') as [-> | ->]; lra. }
    pose proof (Score b t Hb Ht) as Hs.
    assert (Pos : 0 < sum (nth b am [])).
    { apply (sum_positive_entry _ t Nonneg); [lia|].
      change (nth t (nth b am []) 0) with (entry2 am b t).
      rewrite (Entry b t Hb Ht), E1. lra. }
    assert (0 < entry2 (map (scores self) x) b t / sum (nth b am []))
      by (apply Rdiv_lt_0_compat; assumption).
    lra.
Qed.

Lemma Attention_masked_steps_keep_a_weight_witness :
  exists a,
    Attention_coefficients sample_attention [[[1; 2]; [3; 4]; [5; 6]]]
      (Some [[1; 0; 1]]) = Ok a /\
    forall b t, (b < 1)%nat -> (t < 3)%nat ->
      (entry2 [[1; 0; 1]] b t = 0 -> entry2 a b t = 1e-10) /\
      (entry2 [[1; 0; 1]] b t = 1 -> 1e-10 < entry2 a b t).
Proof.
  apply (Attention_masked_steps_keep_a_weight sample_attention 1
           [[[1; 2]; [3; 4]; [5; 6]]] [[1; 0; 1]]).
  - reflexivity.
  - reflexivity.
  - reflexivity.
  - simpl. lia.
  - simpl. lia.
  - intros b t Hb Ht.
    destruct b as [|b]; [|lia].
    destruct t as [|[|[|t]]];
      [right | left | right | simpl in Ht; lia]; reflexivity.
  - intros b Hb. exists 0%nat. destruct b as [|b]; [|lia].
    split; [simpl; lia | reflexivity].
Defined.

(** ** The highway layers *)

Lemma HighwayMLP_forward_entries (self : HighwayMLP) (n B : nat) (x : T2) :
  Linear_wf n n (normal_layer self) = true ->
  Linear_wf n n (gate_layer self) = true ->
  (forall y, has_shape2 B n y = true ->
             has_shape2 B n (activation_function self y) = true) ->
  (forall y, has_shape2 B n y = true ->
             has_shape2 B n (gate_activation self y) = true) ->
  has_shape2 B n x = true ->
  exists yn yg y,
    Linear_forward (normal_layer self) x = Ok yn /\
    has_shape2 B n yn = true /\
    Linear_forward (gate_layer self) x = Ok yg /\
    has_shape2 B n yg = true /\
    HighwayMLP_forward self x = Ok y /\
    forall i j, (i < B)%nat -> (j < n)%nat ->
      entry2 y i j
      = entry2 (gate_activation self yg) i j
        * entry2 (activation_function self yn) i j
        + (1 - entry2 (gate_activation self yg) i j) * entry2 x i j.
Proof.
  intros Hn Hg Hact Hgact Hx.
  destruct (Linear_forward_square n B _ x Hn Hx) as (yn & En & Sn).
  destruct (Linear_forward_square n B _ x Hg Hx) as (yg & Eg & Sg).
  pose proof (Hact _ Sn) as Sh. pose proof (Hgact _ Sg) as Sgate.
  set (h := activation_function self yn) in *.
  set (g := gate_activation self yg) in *.
  pose proof (map2_shape (fun v => 1 - v) B n g Sgate) as Sneg.
  destruct (bop2_same Rmult B n h g Sh Sgate) as [E1 S1].
  destruct (bop2_same Rmult B n _ x Sneg Hx) as [E2 S2].
  destruct (bop2_same Rplus B n _ _ S1 S2) as [E3 S3].
  exists yn, yg. eexists.
  split; [exact En|]. split; [exact Sn|].
  split; [exact Eg|]. split; [exact Sg|].
  unfold HighwayMLP_forward. rewrite En, Eg. cbn [bind].
  fold h. fold g. rewrite E1. cbn [bind]. rewrite E2. cbn [bind].
  split; [exact E3|].
  intros i j Hi Hj.
  rewrite (entry2_zipWith Rplus B n) by assumption.
  rewrite (entry2_zipWith Rmult B n) by assumption.
  rewrite (entry2_zipWith Rmult B n) by assumption.
  rewrite (entry2_map2 _ B n) by assumption. ring.
Qed.

(** X20: over the reals, a highway layer with the activations [SENet]
    passes, [F.relu] and [F.sigmoid], returns at every position a value
    between the input and the rectified transform of the input: the gate
    lies strictly between 0 and 1.  A non-negative input entry so gives a
    non-negative output entry. *)
Theorem HighwayMLP_forward_interpolates (self : HighwayMLP) (n B : nat)
  (x : T2) :
  Linear_wf n n (normal_layer self) = true ->
  Linear_wf n n (gate_layer self) = true ->
  activation_function self = map2 relu ->
  gate_activation self = map2 sigmoid ->
  has_shape2 B n x = true ->
  exists yn y,
    Linear_forward (normal_layer self) x = Ok yn /\
    HighwayMLP_forward self x = Ok y /\
    forall i j, (i < B)%nat -> (j < n)%nat ->
      Rmin (relu (entry2 yn i j)) (entry2 x i j) <= entry2 y i j
      <= Rmax (relu (entry2 yn i j)) (entry2 x i j) /\
      (0 <= entry2 x i j -> 0 <= entry2 y i j).
Proof.
  intros Hn Hg Hact Hgact Hx.
  destruct (HighwayMLP_forward_entries self n B x Hn Hg) as
    (yn & yg & y & En & Sn & Eg & Sg & Ey & Hy).
  - intros z Hz. rewrite Hact. apply map2_shape. exact Hz.
  - intros z Hz. rewrite Hgact. apply map2_shape. exact Hz.
  - exact Hx.
  - exists yn, y. split; [exact En|]. split; [exact Ey|].
    intros i j Hi Hj. rewrite (Hy i j Hi Hj), Hact, Hgact.
    rewrite (entry2_map2 relu B n yn i j Sn Hi Hj).
    rewrite (entry2_map2 sigmoid B n yg i j Sg Hi Hj).
    pose proof (sigmoid_range (entry2 yg i j)) as [G0 G1].
    pose proof (relu_nonnegative (entry2 yn i j)) as H0.
    set (g := sigmoid (entry2 yg i j)) in *.
    set (h := relu (entry2 yn i j)) in *.
    set (v := entry2 x i j).
    split; [split|].
    + unfold Rmin. destruct (Rle_dec h v); nra.
    + unfold Rmax. destruct (Rle_dec h v); nra.
    + intros Hv. nra.
Qed.

Lemma HighwayMLP_forward_interpolates_witness :
  exists yn y,
    Linear_forward (normal_layer sample_highway) [[1; 2]] = Ok yn /\
    HighwayMLP_forward sample_highway [[1; 2]] = Ok y /\
    forall i j, (i < 1)%nat -> (j < 2)%nat ->
      Rmin (relu (entry2 yn i j)) (entry2 [[1; 2]] i j) <= entry2 y i j
      <= Rmax (relu (entry2 yn i j)) (entry2 [[1; 2]] i j) /\
      (0 <= entry2 [[1; 2]] i j -> 0 <= entry2 y i j).
Proof.
  apply (HighwayMLP_forward_interpolates sample_highway 2 1 [[1; 2]]);
    reflexivity.
Defined.

End ValueExtra.
